(** * agent.nix updater: version ordering, candidate discovery and the
      per-item update pipeline

    A shallow embedding of the TypeScript sources of the repository's update
    tooling:

    - [Version]: [scripts/updater] version ordering ([parseVersion],
      [compareVersions], [shouldUpdate]);
    - [Command]: the command helpers ([runStatus], [runChecked], [runCapture],
      [runCaptureChecked], [trimLines]) over an explicit effect tree;
    - [DiscoverUpdates]: the discovery script ([discoverPackages],
      [discoverFlakeInputs], [main]);
    - [UpdateItem]: the per-item update script ([main] and its helpers).

    JavaScript strings are modelled as [string]; one character stands for one
    UTF-16 code unit, restricted to the code units below 256.  The comparison
    [a < b] of JavaScript compares code units lexicographically, which is
    [String.ltb]. *)

From stdpp Require Import gmap strings list sorting.
From Stdlib Require Import ZArith Ascii DecimalString DecimalZ DecimalPos.

Set Warnings "-register-all".
Set Default Proof Using "Type".

Open Scope Z_scope.

(** ** JavaScript string primitives used by the scripts *)

Module Js.

(** [WhiteSpace] and [LineTerminator] code units below 256: the characters
    removed by [String.prototype.trim] and matched by the regular
    expression class [\s]. *)
Definition is_space (c : ascii) : bool :=
  let n := N_of_ascii c in
  ((9 <=? n) && (n <=? 13) || (n =? 32) || (n =? 160))%N.

Definition is_empty (s : string) : bool :=
  match s with EmptyString => true | String _ _ => false end.

(** Truthiness of a string, as in [filter(Boolean)] and [!s]. *)
Definition truthy (s : string) : bool := negb (is_empty s).

Fixpoint trimStart (s : string) : string :=
  match s with
  | String c s' => if is_space c then trimStart s' else s
  | EmptyString => EmptyString
  end.

Fixpoint trimEnd (s : string) : string :=
  match s with
  | String c s' =>
      let r := trimEnd s' in
      if is_space c && is_empty r then EmptyString else String c r
  | EmptyString => EmptyString
  end.

Definition trim (s : string) : string := trimEnd (trimStart s).

(** [s.startsWith(p)] *)
Definition startsWith (s p : string) : bool := String.prefix p s.

(** [s.slice(0, n)] for a non-negative [n] *)
Fixpoint take (n : nat) (s : string) : string :=
  match n, s with
  | S n', String c s' => String c (take n' s')
  | _, _ => EmptyString
  end.

(** [s.slice(1)] *)
Definition slice1 (s : string) : string :=
  match s with String _ s' => s' | EmptyString => EmptyString end.

(** [s.replace(c, d)] for one-character strings [c] and [d]: only the
    first occurrence is replaced. *)
Fixpoint replaceFirst (c d : ascii) (s : string) : string :=
  match s with
  | String x s' =>
      if Ascii.eqb x c then String d s' else String x (replaceFirst c d s')
  | EmptyString => EmptyString
  end.

(** [s.split(c)] for a one-character separator: every occurrence cuts, and
    the result is never empty ([""] splits into one empty piece). *)
Fixpoint split (sep : ascii) (s : string) : list string :=
  match s with
  | EmptyString => [EmptyString]
  | String x s' =>
      if Ascii.eqb x sep then EmptyString :: split sep s'
      else match split sep s' with
           | p :: ps => String x p :: ps
           | [] => [String x EmptyString]
           end
  end.

(** [s.split(sep, limit)]: the pieces beyond [limit] are dropped. *)
Definition splitLimit (sep : ascii) (limit : nat) (s : string) : list string :=
  firstn limit (split sep s).

(** [s.split(/\s+/)]: a maximal run of white space is one separator. *)
Fixpoint splitSpaces_go (in_run : bool) (s : string) : list string :=
  match s with
  | EmptyString => [EmptyString]
  | String x s' =>
      if is_space x then
        if in_run then splitSpaces_go true s'
        else EmptyString :: splitSpaces_go true s'
      else match splitSpaces_go false s' with
           | p :: ps => String x p :: ps
           | [] => [String x EmptyString]
           end
  end.

Definition splitSpaces (s : string) : list string := splitSpaces_go false s.

(** [s.split(/\r?\n/)] *)
Fixpoint splitLines (s : string) : list string :=
  match s with
  | EmptyString => [EmptyString]
  | String x s' =>
      if Ascii.eqb x "010" then EmptyString :: splitLines s'
      else
        match s' with
        | String y s'' =>
            if Ascii.eqb x "013" && Ascii.eqb y "010"
            then EmptyString :: splitLines s''
            else match splitLines s' with
                 | p :: ps => String x p :: ps
                 | [] => [String x EmptyString]
                 end
        | EmptyString => [String x EmptyString]
        end
  end.

(** [xs.join(sep)] *)
Fixpoint join (sep : string) (xs : list string) : string :=
  match xs with
  | [] => EmptyString
  | [x] => x
  | x :: rest => x +:+ sep +:+ join sep rest
  end.

Definition is_line_terminator (c : ascii) : bool :=
  Ascii.eqb c "010" || Ascii.eqb c "013".

Fixpoint has_line_terminator (s : string) : bool :=
  match s with
  | EmptyString => false
  | String c s' => is_line_terminator c || has_line_terminator s'
  end.

(** [l.replace(/#.*$/, "")]: the text from the first [#] that is followed
    by no line terminator up to the end is removed. *)
Fixpoint stripComment (s : string) : string :=
  match s with
  | EmptyString => EmptyString
  | String c s' =>
      if Ascii.eqb c "#" && negb (has_line_terminator s') then EmptyString
      else String c (stripComment s')
  end.

(** The double quote character, for texts that contain it. *)
Definition dq : string := String (ascii_of_nat 34) EmptyString.

(** *** JSON values

    The value of [JSON.parse].  An object is a finite map from its own
    property names: every use of [Object.keys] in the scripts is followed
    by a sort or builds a set, so the insertion order of the keys is not
    observed.  Numbers are the integers the documents carry (the number of
    a pull request, a time stamp). *)
Inductive JsonValue :=
| JNull
| JBool (b : bool)
| JNum (n : Z)
| JStr (s : string)
| JArr (items : list JsonValue)
| JObj (fields : gmap string JsonValue).

(** Builtins of the runtime that the scripts call and whose definition is
    not part of the repository.

    - [Number_integer s] is [Number(s)] when [Number.isInteger] holds of
      it, and [None] when the callback of [parseVersion] yields [NaN]
      (a string that is no numeric literal, an infinite value);
    - [String_of_number n] is [String(n)] and [`${n}`] for an integer [n];
      different integers print differently;
    - [JSON_parse s] is [JSON.parse(s)], [None] when it throws a
      [SyntaxError], whose message is [JSON_parse_error s];
    - [JSON_stringify v] is [JSON.stringify(v)]. *)
Class Runtime := {
  Number_integer : string -> option Z;
  String_of_number : Z -> string;
  String_of_number_inj : forall a b : Z,
    String_of_number a = String_of_number b -> a = b;
  JSON_parse : string -> option JsonValue;
  JSON_parse_error : string -> string;
  JSON_stringify : JsonValue -> string;
}.

(** The decimal index below [n] that [key] names, if any. *)
Definition indexNamed `{rt : Runtime} (n : nat) (key : string) : option nat :=
  snd <$> list_find (fun i => bool_decide (String_of_number (Z.of_nat i) = key))
                    (seq 0 n).

(** [value[key]] on the own properties of a value; [None] is [undefined].
    An object has the properties of its document; an array and a string
    have [length] and their elements, or code units, under the decimal
    index names.  A number, a boolean and [null] have no own property
    (the scripts never read a member of [null]: every such read is guarded
    by a truthiness test or by [?.]). *)
Definition getProp `{rt : Runtime} (v : JsonValue) (key : string)
  : option JsonValue :=
  match v with
  | JObj fields => fields !! key
  | JArr items =>
      if String.eqb key "length" then Some (JNum (Z.of_nat (length items)))
      else match indexNamed (length items) key with
           | Some i => items !! i
           | None => None
           end
  | JStr s =>
      if String.eqb key "length" then Some (JNum (Z.of_nat (String.length s)))
      else match indexNamed (String.length s) key with
           | Some i => (fun c => JStr (String c EmptyString)) <$> String.get i s
           | None => None
           end
  | _ => None
  end.

(** The members that a value finds on its prototype chain (ECMA-262,
    edition of 2024, with Annex B): the properties of [Object.prototype]
    and, before them, those of [Array.prototype], [String.prototype],
    [Number.prototype] and [Boolean.prototype].  Each is a function, except
    [__proto__], which yields the prototype object. *)
Definition objectPrototype : list string :=
  ["constructor"; "__defineGetter__"; "__defineSetter__"; "hasOwnProperty";
   "__lookupGetter__"; "__lookupSetter__"; "isPrototypeOf";
   "propertyIsEnumerable"; "toString"; "valueOf"; "__proto__";
   "toLocaleString"].

Definition arrayPrototype : list string :=
  ["at"; "concat"; "copyWithin"; "fill"; "find"; "findIndex"; "findLast";
   "findLastIndex"; "lastIndexOf"; "pop"; "push"; "reverse"; "shift";
   "unshift"; "slice"; "sort"; "splice"; "includes"; "indexOf"; "join";
   "keys"; "entries"; "values"; "forEach"; "filter"; "flat"; "flatMap";
   "map"; "every"; "some"; "reduce"; "reduceRight"; "toReversed";
   "toSorted"; "toSpliced"; "with"].

Definition stringPrototype : list string :=
  ["anchor"; "at"; "big"; "blink"; "bold"; "charAt"; "charCodeAt";
   "codePointAt"; "concat"; "endsWith"; "fontcolor"; "fontsize"; "fixed";
   "includes"; "indexOf"; "isWellFormed"; "italics"; "lastIndexOf"; "link";
   "localeCompare"; "match"; "matchAll"; "normalize"; "padEnd"; "padStart";
   "repeat"; "replace"; "replaceAll"; "search"; "slice"; "small"; "split";
   "strike"; "sub"; "substr"; "substring"; "sup"; "startsWith";
   "toWellFormed"; "trim"; "trimStart"; "trimLeft"; "trimEnd"; "trimRight";
   "toLocaleLowerCase"; "toLocaleUpperCase"; "toLowerCase"; "toUpperCase"].

Definition numberPrototype : list string :=
  ["toExponential"; "toFixed"; "toPrecision"].

Definition prototypeNames (v : JsonValue) : list string :=
  match v with
  | JNull => []
  | JBool _ => objectPrototype
  | JNum _ => numberPrototype ++ objectPrototype
  | JStr _ => stringPrototype ++ objectPrototype
  | JArr _ => arrayPrototype ++ objectPrototype
  | JObj _ => objectPrototype
  end.

(** What the member read [value[key]] yields for a key that the caller
    chooses: the data of an own property, a function or the prototype
    object found on the prototype chain, or [undefined]. *)
Inductive Member :=
| Data (v : JsonValue)
| Method
| Prototype
| Undefined.

Definition member `{rt : Runtime} (v : JsonValue) (key : string) : Member :=
  match getProp v key with
  | Some x => Data x
  | None =>
      if bool_decide (key ∈ prototypeNames v)
      then if String.eqb key "__proto__" then Prototype else Method
      else Undefined
  end.

(** [Object.keys(v)]: the own enumerable property names, [None] when
    [Object.keys] throws a [TypeError] ([null]): the keys of an object,
    the index names of an array and of a string, none for a number or a
    boolean.  The order of the list is not the insertion order of
    JavaScript; the scripts sort the list or test membership in it. *)
Definition ownKeys `{rt : Runtime} (v : JsonValue) : option (list string) :=
  match v with
  | JNull => None
  | JObj fields => Some (map fst (map_to_list fields))
  | JArr items =>
      Some (map (fun i => String_of_number (Z.of_nat i)) (seq 0 (length items)))
  | JStr s =>
      Some (map (fun i => String_of_number (Z.of_nat i))
                (seq 0 (String.length s)))
  | _ => Some []
  end.

(** [xs.sort()] on strings: ascending code-unit order. *)
Definition sortStrings (xs : list string) : list string :=
  merge_sort String.le xs.

(** Every element is below, and different from, every later one. *)
Definition strictlyAscending (xs : list string) : Prop :=
  StronglySorted (fun a b => String.ltb a b = true) xs.

(** Truthiness of a value that may be [undefined]. *)
Definition truthyValue (v : option JsonValue) : bool :=
  match v with
  | None | Some JNull | Some (JBool false) | Some (JNum 0) => false
  | Some (JStr s) => truthy s
  | Some _ => true
  end.

(** Truthiness of a member read: a function and a prototype object are
    truthy. *)
Definition truthyMember (m : Member) : bool :=
  match m with
  | Data v => truthyValue (Some v)
  | Method | Prototype => true
  | Undefined => false
  end.

(** [isRecord] of [assert.ts]: an object that is neither [null] nor an
    array. *)
Definition isRecord (v : option JsonValue) : bool :=
  match v with Some (JObj _) => true | _ => false end.

End Js.

(** ** Version ordering ([parseVersion], [compareVersions], [shouldUpdate]) *)

Module Version.
Import Js.

Record ParsedVersion := {
  numericParts : option (list Z);   (* [null] is [None] *)
  suffix : string;
}.

Definition stripLeadingV (version : string) : string :=
  if startsWith version "v" then slice1 version else version.

(** [numericParts.some(Number.isNaN) ? null : numericParts] over the
    mapped components: one [NaN] makes the whole sequence [null]. *)
Fixpoint allIntegers (xs : list (option Z)) : option (list Z) :=
  match xs with
  | [] => Some []
  | Some n :: rest =>
      match allIntegers rest with Some ns => Some (n :: ns) | None => None end
  | None :: _ => None
  end.

Section WithRuntime.
Context `{rt : Runtime}.

Definition parseVersion (version : string) : ParsedVersion :=
  let normalized := stripLeadingV version in
  let parts := splitLimit "-" 2 (replaceFirst "+" "-" normalized) in
  let numericStr := nth 0 parts EmptyString in
  let suffix := nth 1 parts EmptyString in
  if is_empty numericStr then
    {| numericParts := None; suffix := suffix |}
  else
    let numericParts := map Number_integer (split "." numericStr) in
    {| numericParts := allIntegers numericParts; suffix := suffix |}.

(** The [for] loop of [compareVersions]: [i] runs from its start value
    while [i < max]; [fuel] is [max - i]. *)
Fixpoint compareParts (fuel : nat) (i : nat) (pa pb : list Z) : Z :=
  match fuel with
  | O => 0
  | S fuel' =>
      let aPart := nth i pa 0 in
      let bPart := nth i pb 0 in
      if aPart <? bPart then -1
      else if aPart >? bPart then 1
      else compareParts fuel' (S i) pa pb
  end.

Definition compareSuffix (sa sb : string) : Z :=
  if String.eqb sa sb then 0
  else if is_empty sa then 1
  else if is_empty sb then -1
  else if String.ltb sa sb then -1 else 1.

Definition compareVersions (a b : string) : Z :=
  if String.eqb a b then 0
  else
    let parsedA := parseVersion a in
    let parsedB := parseVersion b in
    match numericParts parsedA, numericParts parsedB with
    | Some pa, Some pb =>
        let max := Nat.max (length pa) (length pb) in
        let c := compareParts max 0 pa pb in
        if c =? 0 then compareSuffix (suffix parsedA) (suffix parsedB)
        else c
    | _, _ => if String.ltb a b then -1 else 1
    end.

Definition shouldUpdate (current latest : string) : bool :=
  compareVersions current latest <? 0.

(** The comparison of two parsed versions that have numeric parts: the
    loop of [compareVersions] and its comparison of the suffixes. *)
Definition compareKeys (pa : list Z) (sa : string) (pb : list Z) (sb : string)
  : Z :=
  let c := compareParts (Nat.max (length pa) (length pb)) 0 pa pb in
  if c =? 0 then compareSuffix sa sb else c.

(** How many of the strings have no numeric parts. *)
Definition lacking (vs : list string) : nat :=
  length (List.filter (fun v => bool_decide (numericParts (parseVersion v) = None))
                      vs).

End WithRuntime.

End Version.

(** ** The comparison as the specification words it

    For two distinct version strings: raw comparison of the strings when
    either has no numeric parts; otherwise the numeric parts pairwise, left
    to right, the shorter sequence padded with zeros to the length of the
    longer; on a numeric tie the suffixes, the empty suffix after any other
    and two non-empty suffixes in the order of the strings.  [Padding] is
    the side the zeros are added on. *)

Module VersionSpec.
Import Js Version.

Inductive Padding := PadLeft | PadRight.

Definition pad (p : Padding) (n : nat) (l : list Z) : list Z :=
  match p with
  | PadLeft => repeat 0 (n - length l) ++ l
  | PadRight => l ++ repeat 0 (n - length l)
  end.

Fixpoint comparePairwise (xs ys : list Z) : Z :=
  match xs, ys with
  | x :: xs', y :: ys' =>
      if x <? y then -1 else if y <? x then 1 else comparePairwise xs' ys'
  | _, _ => 0
  end.

Definition compareSuffixes (sa sb : string) : Z :=
  match sa, sb with
  | EmptyString, EmptyString => 0
  | EmptyString, String _ _ => 1
  | String _ _, EmptyString => -1
  | String _ _, String _ _ =>
      if String.eqb sa sb then 0 else if String.ltb sa sb then -1 else 1
  end.

Definition compareAsDescribed `{rt : Runtime} (p : Padding) (a b : string) : Z :=
  match numericParts (parseVersion a), numericParts (parseVersion b) with
  | Some pa, Some pb =>
      let n := Nat.max (length pa) (length pb) in
      let c := comparePairwise (pad p n pa) (pad p n pb) in
      if c =? 0
      then compareSuffixes (suffix (parseVersion a)) (suffix (parseVersion b))
      else c
  | _, _ => if String.ltb a b then -1 else 1
  end.

End VersionSpec.

(** ** The segments of a version text

    The numeric segment of a version is the text before the first [-] or
    [+]; the rest is the text after that character. *)

Module VersionText.
Import Js.

Definition is_separator (c : ascii) : bool :=
  Ascii.eqb c "-" || Ascii.eqb c "+".

Fixpoint breakAt (s : string) : string * option string :=
  match s with
  | EmptyString => (EmptyString, None)
  | String c s' =>
      if is_separator c then (EmptyString, Some s')
      else let '(before, rest) := breakAt s' in (String c before, rest)
  end.

Fixpoint has_separator (s : string) : bool :=
  match s with
  | EmptyString => false
  | String c s' => is_separator c || has_separator s'
  end.

End VersionText.

(** ** Characters of a text *)

Module Text.

(** The character [c] occurs in [s]. *)
Definition occurs (c : ascii) (s : string) : Prop :=
  In c (String.list_ascii_of_string s).

(** A text as it stands between separators: not empty and without white
    space at either end. *)
Definition trimmed (s : string) : Prop :=
  Js.truthy s = true /\ Js.trim s = s.

(** The text has a carriage return that is not followed by a line feed. *)
Fixpoint bareCR (s : string) : bool :=
  match s with
  | EmptyString => false
  | String c s' =>
      if Ascii.eqb c "013" then
        match s' with
        | String d s'' => if Ascii.eqb d "010" then bareCR s'' else true
        | EmptyString => true
        end
      else bareCR s'
  end.

End Text.

(** ** A concrete runtime for evaluated examples

    [Number_integer] on the decimal fragment: white space is trimmed, the
    empty string is [0], a string of decimal digits is its value (exact below
    2^53, where a double holds every integer), anything else is taken as
    [NaN].  Hexadecimal, octal, binary and exponent literals are outside this
    fragment; the theorems below that quantify over the runtime cover them. *)

Module DecimalRuntime.
Import Js.

Definition digit (c : ascii) : option Z :=
  let n := N_of_ascii c in
  if ((48 <=? n) && (n <=? 57))%N then Some (Z.of_N n - 48) else None.

Fixpoint digits (acc : Z) (s : string) : option Z :=
  match s with
  | EmptyString => Some acc
  | String c s' =>
      match digit c with
      | Some d => digits (10 * acc + d) s'
      | None => None
      end
  end.

Definition number_integer (s : string) : option Z := digits 0 (trim s).

Definition string_of_number (n : Z) : string :=
  NilZero.string_of_int (Z.to_int n).

Lemma string_of_number_inj (a b : Z) :
  string_of_number a = string_of_number b -> a = b.
Proof.
  unfold string_of_number. intros H. apply to_int_inj.
  assert (Hn : forall z, Z.to_int z <> Decimal.Pos Decimal.Nil
                         /\ Z.to_int z <> Decimal.Neg Decimal.Nil).
  { intros [|p|p]; simpl; split; try discriminate;
      intros [= E]; by apply Unsigned.to_uint_nonnil in E. }
  apply (f_equal NilZero.int_of_string) in H.
  rewrite !NilZero.isi in H by apply Hn. congruence.
Qed.

Fixpoint escape (s : string) : string :=
  match s with
  | EmptyString => EmptyString
  | String c s' =>
      if Ascii.eqb c (ascii_of_nat 34) || Ascii.eqb c "\"
      then String "\" (String c (escape s'))
      else String c (escape s')
  end.

Definition json_quote (s : string) : string := dq +:+ escape s +:+ dq.

(** Compact printing of a value, the keys of an object in the order of
    [map_to_list]. *)
Fixpoint stringify (v : JsonValue) : string :=
  match v with
  | JNull => "null"
  | JBool true => "true"
  | JBool false => "false"
  | JNum n => string_of_number n
  | JStr s => json_quote s
  | JArr items => "[" +:+ join "," (map stringify items) +:+ "]"
  | JObj fields =>
      "{" +:+ join "," (map (fun kv => json_quote (fst kv) +:+ ":" +:+ snd kv)
                            (map_to_list (stringify <$> fields))) +:+ "}"
  end.

(** A parser that knows the documents of a finite table: the text printed
    for one of them parses to it, any other text is a syntax error. *)
Definition parse_table (docs : list JsonValue) (s : string) : option JsonValue :=
  List.find (fun v => String.eqb (stringify v) s) docs.

Definition runtime (docs : list JsonValue) : Runtime := {|
  Number_integer := number_integer;
  String_of_number := string_of_number;
  String_of_number_inj := string_of_number_inj;
  JSON_parse := parse_table docs;
  JSON_parse_error := fun _ => "SyntaxError: Unexpected token";
  JSON_stringify := stringify;
|}.

#[export] Instance runtime0 : Runtime := runtime [].

End DecimalRuntime.


(** ** Effects: processes, files and the console

    A script is a finite tree of the calls it makes into the runtime.  Each
    node is one call and has one subtree per answer; a leaf is the way the
    script ends: it returns, an exception is thrown, or [Deno.exit] ends the
    process.  Spawning a process is taken to succeed (the binaries exist); a
    command answers with its exit code. *)

Module Command.
Import Js.

(** One process invocation: [new Deno.Command(command, { args, env })];
    [cmd_env] is the environment object passed in [opts.env]. *)
Record Cmd := {
  command : string;
  args : list string;
  cmd_env : option (gmap string string);
}.

(** [CapturedOutput] of [command.ts]. *)
Record CapturedOutput := {
  code : Z;
  stdout : string;
  stderr : string;
}.

Inductive Stream := Out | Err.   (* [console.log] and [console.error] *)

(** The answer of [Deno.stat]: the entry exists, [Deno.errors.NotFound] is
    thrown, or another error is thrown. *)
Inductive StatResult :=
| StatOk
| StatNotFound (msg : string)
| StatError (msg : string).

(** How a script ends. *)
Inductive Outcome (A : Type) :=
| Returned (a : A)
| Thrown (msg : string)     (* an [Error] with this message *)
| Exited (status : Z).      (* [Deno.exit(status)] *)
Arguments Returned {A} a.
Arguments Thrown {A} msg.
Arguments Exited {A} status.

Inductive Prog (A : Type) :=
| Ret (a : A)
| Throw (msg : string)
| Exit (status : Z)
| Spawn (c : Cmd) (k : Z -> Prog A)
    (* [new Deno.Command(..).spawn().status], inherited output *)
| Output (c : Cmd) (k : CapturedOutput -> Prog A)
    (* [new Deno.Command(..).output()], piped output *)
| Stat (path : string) (k : StatResult -> Prog A)
| ReadTextFile (path : string) (k : string + string -> Prog A)
    (* [inl] the content, [inr] the message of the error thrown *)
| AppendTextFile (path text : string) (k : option string -> Prog A)
    (* [Some] the message of the error thrown *)
| UpdateReadme (path : string) (k : option string -> Prog A)
    (* the documentation regenerator; [Some] the message of its error *)
| Log (s : Stream) (text : string) (k : Prog A).
Arguments Ret {A} a.
Arguments Throw {A} msg.
Arguments Exit {A} status.
Arguments Spawn {A} c k.
Arguments Output {A} c k.
Arguments Stat {A} path k.
Arguments ReadTextFile {A} path k.
Arguments AppendTextFile {A} path text k.
Arguments UpdateReadme {A} path k.
Arguments Log {A} s text k.

Fixpoint bind {A B} (p : Prog A) (f : A -> Prog B) : Prog B :=
  match p with
  | Ret a => f a
  | Throw msg => Throw msg
  | Exit status => Exit status
  | Spawn c k => Spawn c (fun r => bind (k r) f)
  | Output c k => Output c (fun r => bind (k r) f)
  | Stat path k => Stat path (fun r => bind (k r) f)
  | ReadTextFile path k => ReadTextFile path (fun r => bind (k r) f)
  | AppendTextFile path text k => AppendTextFile path text (fun r => bind (k r) f)
  | UpdateReadme path k => UpdateReadme path (fun r => bind (k r) f)
  | Log s text k => Log s text (bind k f)
  end.

#[export] Instance prog_ret : MRet Prog := @Ret.
#[export] Instance prog_bind : MBind Prog := fun A B f p => bind p f.

(** [try { p } catch (err) { handler(err.message) }]; [Deno.exit] is not
    caught. *)
Fixpoint tryCatch {A} (p : Prog A) (handler : string -> Prog A) : Prog A :=
  match p with
  | Ret a => Ret a
  | Throw msg => handler msg
  | Exit status => Exit status
  | Spawn c k => Spawn c (fun r => tryCatch (k r) handler)
  | Output c k => Output c (fun r => tryCatch (k r) handler)
  | Stat path k => Stat path (fun r => tryCatch (k r) handler)
  | ReadTextFile path k => ReadTextFile path (fun r => tryCatch (k r) handler)
  | AppendTextFile path text k =>
      AppendTextFile path text (fun r => tryCatch (k r) handler)
  | UpdateReadme path k => UpdateReadme path (fun r => tryCatch (k r) handler)
  | Log s text k => Log s text (tryCatch k handler)
  end.

(** [for (const x of xs) { body(x) }] *)
Fixpoint forEach {X} (xs : list X) (body : X -> Prog unit) : Prog unit :=
  match xs with
  | [] => Ret tt
  | x :: rest => bind (body x) (fun _ => forEach rest body)
  end.

Definition consoleLog (text : string) : Prog unit := Log Out text (Ret tt).
Definition consoleError (text : string) : Prog unit := Log Err text (Ret tt).
Definition exit {A} (status : Z) : Prog A := Exit status.

(** *** What a run observes *)

Inductive Event :=
| EvSpawn (c : Cmd) (status : Z)
| EvOutput (c : Cmd) (out : CapturedOutput)
| EvStat (path : string) (r : StatResult)
| EvRead (path : string) (r : string + string)
| EvAppend (path text : string) (r : option string)
| EvUpdateReadme (path : string) (r : option string)
| EvLog (s : Stream) (text : string).

(** [paths p t o]: the script [p] can make the calls of [t], in this
    order and with these answers, and then end as [o]. *)
Fixpoint paths {A} (p : Prog A) (t : list Event) (o : Outcome A) : Prop :=
  match p with
  | Ret a => t = [] /\ o = Returned a
  | Throw msg => t = [] /\ o = Thrown msg
  | Exit status => t = [] /\ o = Exited status
  | Spawn c k => exists r t', t = EvSpawn c r :: t' /\ paths (k r) t' o
  | Output c k => exists r t', t = EvOutput c r :: t' /\ paths (k r) t' o
  | Stat path k => exists r t', t = EvStat path r :: t' /\ paths (k r) t' o
  | ReadTextFile path k =>
      exists r t', t = EvRead path r :: t' /\ paths (k r) t' o
  | AppendTextFile path text k =>
      exists r t', t = EvAppend path text r :: t' /\ paths (k r) t' o
  | UpdateReadme path k =>
      exists r t', t = EvUpdateReadme path r :: t' /\ paths (k r) t' o
  | Log s text k => exists t', t = EvLog s text :: t' /\ paths k t' o
  end.

(** The world a script runs in: a state and the answer to each call. *)
Record Handler (W : Type) := {
  on_spawn : W -> Cmd -> Z * W;
  on_output : W -> Cmd -> CapturedOutput * W;
  on_stat : W -> string -> StatResult * W;
  on_read : W -> string -> (string + string) * W;
  on_append : W -> string -> string -> option string * W;
  on_updateReadme : W -> string -> option string * W;
  on_log : W -> Stream -> string -> W;
}.
Arguments on_spawn {W} _ _ _.
Arguments on_output {W} _ _ _.
Arguments on_stat {W} _ _ _.
Arguments on_read {W} _ _ _.
Arguments on_append {W} _ _ _ _.
Arguments on_updateReadme {W} _ _ _.
Arguments on_log {W} _ _ _ _.

Record Run (W A : Type) := {
  outcome : Outcome A;
  final : W;
  trace : list Event;
}.
Arguments outcome {W A} _.
Arguments final {W A} _.
Arguments trace {W A} _.

Definition observed {W A} (e : Event) (r : Run W A) : Run W A :=
  {| outcome := outcome r; final := final r; trace := e :: trace r |}.

Fixpoint run {W A} (h : Handler W) (p : Prog A) (w : W) : Run W A :=
  match p with
  | Ret a => {| outcome := Returned a; final := w; trace := [] |}
  | Throw msg => {| outcome := Thrown msg; final := w; trace := [] |}
  | Exit status => {| outcome := Exited status; final := w; trace := [] |}
  | Spawn c k =>
      let '(r, w') := on_spawn h w c in observed (EvSpawn c r) (run h (k r) w')
  | Output c k =>
      let '(r, w') := on_output h w c in observed (EvOutput c r) (run h (k r) w')
  | Stat path k =>
      let '(r, w') := on_stat h w path in observed (EvStat path r) (run h (k r) w')
  | ReadTextFile path k =>
      let '(r, w') := on_read h w path in observed (EvRead path r) (run h (k r) w')
  | AppendTextFile path text k =>
      let '(r, w') := on_append h w path text in
      observed (EvAppend path text r) (run h (k r) w')
  | UpdateReadme path k =>
      let '(r, w') := on_updateReadme h w path in
      observed (EvUpdateReadme path r) (run h (k r) w')
  | Log s text k => observed (EvLog s text) (run h k (on_log h w s text))
  end.

(** *** [command.ts] *)

Section WithRuntime.
Context `{rt : Runtime}.

Definition trimLines (text : string) : list string :=
  filter (fun l => truthy l = true) (map trim (splitLines text)).

Definition runStatus (command : string) (args : list string)
    (env : option (gmap string string)) : Prog Z :=
  Spawn {| command := command; args := args; cmd_env := env |} Ret.

Definition joinedArgs (args : list string) : string :=
  join " " (map (fun a => JSON_stringify (JStr a)) args).

Definition runChecked (command : string) (args : list string)
    (env : option (gmap string string)) : Prog unit :=
  code ← runStatus command args env;
  if negb (code =? 0) then
    Throw ("Command failed (" +:+ String_of_number code +:+ "): "
           +:+ command +:+ " " +:+ joinedArgs args)
  else Ret tt.

Definition runCapture (command : string) (args : list string)
    (env : option (gmap string string)) : Prog CapturedOutput :=
  Output {| command := command; args := args; cmd_env := env |} Ret.

(** The message of [CommandFailedError]. *)
Definition commandFailedMessage (command : string) (args : list string)
    (output : CapturedOutput) : string :=
  let nl := String "010" EmptyString in
  join nl (filter (fun l => truthy l = true)
    [ "Command failed (" +:+ String_of_number (code output) +:+ "): "
        +:+ command +:+ " " +:+ joinedArgs args;
      if truthy (trim (stdout output))
      then "--- stdout ---" +:+ nl +:+ trimEnd (stdout output) else "";
      if truthy (trim (stderr output))
      then "--- stderr ---" +:+ nl +:+ trimEnd (stderr output) else "" ]).

Definition runCaptureChecked (command : string) (args : list string)
    (env : option (gmap string string)) : Prog CapturedOutput :=
  output ← runCapture command args env;
  if negb (code output =? 0) then
    Throw (commandFailedMessage command args output)
  else Ret output.

(** [assert.ts] *)
Definition assert (condition : bool) (message : string) : Prog unit :=
  if negb condition then Throw message else Ret tt.

Definition assertRecord (value : option JsonValue) (context : string)
  : Prog (gmap string JsonValue) :=
  match value with
  | Some (JObj fields) => Ret fields
  | _ => Throw (context +:+ ": expected object")
  end.

Definition assertArray (value : option JsonValue) (context : string)
  : Prog (list JsonValue) :=
  match value with
  | Some (JArr items) => Ret items
  | _ => Throw (context +:+ ": expected array")
  end.

(** [fileExists] of [scripts/updater/fs.ts]: the answer of [Deno.stat],
    [false] on [Deno.errors.NotFound], any other error thrown again. *)
Definition fileExists (path : string) : Prog bool :=
  Stat path (fun r =>
    match r with
    | StatOk => Ret true
    | StatNotFound _ => Ret false
    | StatError msg => Throw msg
    end).

(** [await Deno.readTextFile(path)] *)
Definition readTextFile (path : string) : Prog string :=
  ReadTextFile path (fun r =>
    match r with inl content => Ret content | inr msg => Throw msg end).

(** [JSON.parse(text)] *)
Definition jsonParse (text : string) : Prog JsonValue :=
  match JSON_parse text with
  | Some v => Ret v
  | None => Throw (JSON_parse_error text)
  end.

End WithRuntime.

(** The environment of the process, [Deno.env]. *)
Definition getEnv (env : gmap string string) (name : string) (fallback : string)
  : string :=
  default fallback (env !! name).

Definition hasEnv (env : gmap string string) (name : string) : bool :=
  bool_decide (is_Some (env !! name)).

End Command.

(** ** The discovery script ([discoverPackages], [discoverFlakeInputs], [main]) *)

Module DiscoverUpdates.
Import Js Command.

Inductive MatrixItemType := package | flake_input.

Definition typeName (t : MatrixItemType) : string :=
  match t with package => "package" | flake_input => "flake-input" end.

(** [current_version] holds whatever value the documents give: the scripts
    do not check that it is a string. *)
Record MatrixItem := {
  type : MatrixItemType;
  name : string;
  current_version : JsonValue;
}.

(** The filter argument is [undefined] ([None]) or a string; it counts when
    it is truthy. *)
Definition filterNames (filter : option string) : option (list string) :=
  match filter with
  | Some f =>
      if truthy f
      then Some (List.filter truthy (splitSpaces f))
      else None
  | None => None
  end.

(** The Nix expression evaluated by [discoverPackages]. *)
Definition expr : string :=
"
    let
      config = builtins.fromJSON (builtins.getEnv " +:+ dq +:+ "DISCOVERY_CONFIG" +:+ dq +:+ ");
      flake = builtins.getFlake (toString ./.);
      pkgs = flake.packages.${config.system};
      getVersion = name:
        if pkgs ? ${name} && pkgs.${name} ? version
        then { inherit name; value = pkgs.${name}.version; }
        else null;
    in
      if config.filter == null then
        builtins.mapAttrs (name: pkg:
          if pkg ? version then pkg.version else null
        ) pkgs
      else
        builtins.listToAttrs
          (builtins.filter (x: x != null) (map getVersion config.filter))
  ".

(** What the expression denotes.  [pkgs] maps the packages of the flake for
    the system to their [version] attribute, [None] for a package without
    one.  Without a filter every package is listed, a missing version as
    [null]; with a filter only the requested names that exist and have a
    version are listed. *)
Definition evalExpr (pkgs : gmap string (option string))
    (filter : option (list string)) : gmap string JsonValue :=
  match filter with
  | None => (fun v => match v with Some s => JStr s | None => JNull end) <$> pkgs
  | Some names =>
      list_to_map
        (omap (fun name =>
                 match pkgs !! name with
                 | Some (Some v) => Some (name, JStr v)
                 | _ => None
                 end) names)
  end.

(** A package of the index has a resolvable version. *)
Definition resolvable (pkgs : gmap string (option string)) (name : string)
  : Prop :=
  exists version, pkgs !! name = Some (Some version).

(** A name is asked for: it is in the filter, or there is no filter. *)
Definition requested (filter : option (list string)) (name : string) : Prop :=
  match filter with Some names => name ∈ names | None => True end.

Section WithRuntime.
Context `{rt : Runtime}.

(** The item that the first loop of [discoverPackages] pushes for a
    name, if any. *)
Definition pickPackage (versions : JsonValue) (name : string)
  : option MatrixItem :=
  match getProp versions name with
  | Some JNull | None => None
  | Some version =>
      Some {| type := package; name := name; current_version := version |}
  end.

Definition discoveryConfig (system : string) (filter : option string)
  : string :=
  JSON_stringify
    (JObj (<["system" := JStr system]>
           (<["filter" := match filterNames filter with
                          | Some names => JArr (map JStr names)
                          | None => JNull
                          end]> ∅))).

(** The first loop of [discoverPackages]: one item per name whose version
    is not [null].  A name of [Object.keys] is an own property, so the
    lookup is never [undefined]. *)
Fixpoint collectPackages (filtered : bool) (versions : JsonValue)
    (names : list string) (items : list MatrixItem)
  : Prog (list MatrixItem) :=
  match names with
  | [] => Ret items
  | name :: rest =>
      match getProp versions name with
      | Some JNull | None =>
          (if negb filtered
           then consoleLog ("Skipping " +:+ name +:+ " (no version attribute)")
           else Ret tt);;
          collectPackages filtered versions rest items
      | Some version =>
          collectPackages filtered versions rest
            (items ++ [{| type := package; name := name;
                          current_version := version |}])
      end
  end.

Definition discoverPackages (env : gmap string string)
    (packagesFilter : option string) (system : string)
  : Prog (list MatrixItem) :=
  let items := [] in
  consoleLog "Discovering packages...";;
  let config := discoveryConfig system packagesFilter in
  let env' := <["DISCOVERY_CONFIG" := config]> env in
  result ← runCapture "nix" ["eval"; "--json"; "--impure"; "--expr"; expr]
             (Some env');
  if negb (code result =? 0) then
    consoleError ("Failed to evaluate packages:" +:+ String "010" EmptyString
                  +:+ stderr result);;
    Ret items
  else
    versions ← jsonParse (stdout result);
    match ownKeys versions with
    | None => Throw "TypeError: Cannot convert undefined or null to object"
    | Some keys =>
        let names := sortStrings keys in
        items ← collectPackages (bool_decide (is_Some (filterNames packagesFilter)))
                  versions names items;
        match filterNames packagesFilter with
        | Some requested =>
            forEach requested (fun pkg =>
              if negb (bool_decide (pkg ∈ keys))
              then consoleLog ("Warning: Package " +:+ pkg
                               +:+ " not found or has no version")
              else Ret tt)
        | None => Ret tt
        end;;
        Ret items
    end.

(** [(node.locked?.rev ?? "unknown").slice(0, 8)] for a truthy [node].
    A function and a prototype object have no member [locked]. *)
Definition lockedRev (node : Member) : Prog JsonValue :=
  let locked :=
    match node with
    | Data v => getProp v "locked"
    | _ => None
    end in
  let rev :=
    match locked with
    | None | Some JNull => None      (* [?.] short-circuits *)
    | Some l => getProp l "rev"
    end in
  match rev with
  | None | Some JNull => Ret (JStr (take 8 "unknown"))
  | Some (JStr s) => Ret (JStr (take 8 s))
  | Some (JArr items) => Ret (JArr (firstn 8 items))
  | Some _ => Throw "TypeError: slice is not a function"
  end.

(** The loop of [discoverFlakeInputs].  [nodes[inputName]] is a member
    read with a name that the filter may choose. *)
Fixpoint collectInputs (nodes : JsonValue) (inputNames : list string)
    (items : list MatrixItem) : Prog (list MatrixItem) :=
  match inputNames with
  | [] => Ret items
  | inputName :: rest =>
      let node := member nodes inputName in
      if negb (truthyMember node) then collectInputs nodes rest items
      else
        rev ← lockedRev node;
        collectInputs nodes rest
          (items ++ [{| type := flake_input; name := inputName;
                        current_version := rev |}])
  end.

(** [lockData?.nodes ?? {}] *)
Definition lockNodes (lockData : JsonValue) : JsonValue :=
  match getProp lockData "nodes" with
  | None | Some JNull => JObj ∅
  | Some n => n
  end.

Definition discoverFlakeInputs (inputsFilter : option string)
  : Prog (list MatrixItem) :=
  let items := [] in
  consoleLog "Discovering flake inputs...";;
  Stat "flake.lock" (fun r =>
    match r with
    | StatNotFound _ | StatError _ =>
        consoleLog "No flake.lock found, skipping input updates";;
        Ret items
    | StatOk =>
        text ← readTextFile "flake.lock";
        lockData ← jsonParse text;
        let nodes := lockNodes lockData in
        match filterNames inputsFilter with
        | Some requested => collectInputs nodes requested items
        | None =>
            match ownKeys nodes with
            | None => Throw "TypeError: Cannot convert undefined or null to object"
            | Some keys =>
                collectInputs nodes
                  (sortStrings
                     (List.filter (fun k => negb (String.eqb k "root")) keys))
                  items
            end
        end
    end).

Definition appendGithubOutput (env : gmap string string) (line : string)
  : Prog unit :=
  let githubOutput := getEnv env "GITHUB_OUTPUT" "" in
  if negb (truthy githubOutput) then Ret tt
  else
    AppendTextFile githubOutput (line +:+ String "010" EmptyString)
      (fun r => match r with None => Ret tt | Some msg => Throw msg end).

Definition itemJson (item : MatrixItem) : JsonValue :=
  JObj (<["type" := JStr (typeName (type item))]>
        (<["name" := JStr (name item)]>
         (<["current_version" := current_version item]> ∅))).

(** [packages || undefined] *)
Definition orUndefined (s : string) : option string :=
  if truthy s then Some s else None.

Definition main (env : gmap string string) : Prog unit :=
  let packages := trim (getEnv env "PACKAGES" "") in
  let inputs := trim (getEnv env "INPUTS" "") in
  let system := trim (getEnv env "SYSTEM" "x86_64-linux") in
  consoleLog "=== Discovery Configuration ===";;
  consoleLog ("PACKAGES: " +:+ (if truthy packages then packages else "<all>"));;
  consoleLog ("INPUTS: " +:+ (if truthy inputs then inputs else "<all>"));;
  consoleLog ("SYSTEM: " +:+ system);;
  consoleLog "";;
  found ← discoverPackages env (orUndefined packages) system;
  locked ← discoverFlakeInputs (orUndefined inputs);
  let matrixItems := found ++ locked in
  consoleLog "";;
  consoleLog "=== Discovery Results ===";;
  (if bool_decide (length matrixItems = 0%nat)
   then consoleLog "No items to update"
   else consoleLog ("Found " +:+ String_of_number (Z.of_nat (length matrixItems))
                    +:+ " item(s) to update"));;
  let hasItems := negb (bool_decide (length matrixItems = 0%nat)) in
  let matrixJson :=
    JSON_stringify (JObj {[ "include" := JArr (map itemJson matrixItems) ]}) in
  appendGithubOutput env ("matrix=" +:+ matrixJson);;
  appendGithubOutput env ("has_items=" +:+ (if hasItems then "true" else "false"));;
  if negb (truthy (getEnv env "GITHUB_OUTPUT" "")) then
    consoleLog "";;
    consoleLog "=== GitHub Actions Output Format ===";;
    consoleLog ("matrix=" +:+ matrixJson);;
    consoleLog ("has_items=" +:+ (if hasItems then "true" else "false"))
  else Ret tt.

End WithRuntime.

End DiscoverUpdates.

(** ** The per-item update script ([main] and its helpers) *)

Module UpdateItem.
Import Js Command.

Inductive UpdateType := package | flake_input.

Definition typeName (t : UpdateType) : string :=
  match t with package => "package" | flake_input => "flake-input" end.

(** [Array.from(new Set([...changedFiles, ...untrackedFiles])).sort()] *)
Definition allFilesOf (changedFiles untrackedFiles : list string) : list string :=
  sortStrings (elements (list_to_set (changedFiles ++ untrackedFiles) : gset string)).

(** The closure [isAllowedChange] of [main]. *)
Definition isAllowedChange (type : UpdateType) (name : string) (file : string)
  : bool :=
  match type with
  | package =>
      if String.eqb file "README.md" then true
      else startsWith file ("packages/" +:+ name +:+ "/")
  | flake_input => String.eqb file "flake.lock" || String.eqb file "README.md"
  end.

(** The constants [branch], [prTitle] and [prBody] of [main].  The arrow of
    the pull-request body is written in UTF-8. *)
Definition branch (type : UpdateType) (name : string) : string :=
  match type with
  | package => "update/" +:+ name
  | flake_input => "update/flake-input/" +:+ name
  end.

Definition prTitle (type : UpdateType) (name currentVersion newVersion : string)
  : string :=
  match type with
  | package => name +:+ ": " +:+ currentVersion +:+ " -> " +:+ newVersion
  | flake_input => "flake.lock: Update " +:+ name
  end.

Definition prBody (type : UpdateType) (name currentVersion newVersion : string)
  : string :=
  match type with
  | package =>
      "Automated update of " +:+ name +:+ " from " +:+ currentVersion
      +:+ " to " +:+ newVersion +:+ "."
  | flake_input =>
      "This PR updates the flake input `" +:+ name +:+ "`."
      +:+ String "010" (String "010" EmptyString)
      +:+ "- " +:+ name +:+ ": `" +:+ currentVersion +:+ "` → `"
      +:+ newVersion +:+ "`"
  end.

(** What a lock document whose [nodes] is the object [nodes] holds for an
    input: [Some (Some rev)] a revision, [Some None] no revision (the
    entry, its [locked] or its [rev] is missing or [null], or [rev] is not
    a non-empty string), [None] an entry or a [locked] that is not an
    object.  A name that the document does not hold but every object
    inherits reads as a function, which is no object, except [__proto__],
    which reads as the prototype, an object without [locked]. *)
Definition revisionOf (nodes : gmap string JsonValue) (name : string)
  : option (option string) :=
  match nodes !! name with
  | None =>
      if bool_decide (name ∈ objectPrototype) && negb (String.eqb name "__proto__")
      then None else Some None
  | Some JNull => Some None
  | Some (JObj node) =>
      match node !! "locked" with
      | None | Some JNull => Some None
      | Some (JObj locked) =>
          match locked !! "rev" with
          | Some (JStr rev) => if truthy rev then Some (Some rev) else Some None
          | _ => Some None
          end
      | Some _ => None
      end
  | Some _ => None
  end.

Definition splitLabels (labels : string) : list string :=
  List.filter truthy (map trim (split "," labels)).

(** The lines of an argument or package file: comments removed, trimmed,
    empty lines dropped. *)
Definition uncommentedLines (content : string) : list string :=
  List.filter truthy (map (fun l => trim (stripComment l)) (splitLines content)).

Section WithRuntime.
Context `{rt : Runtime}.

Definition readSmokePackages (env : gmap string string) : Prog string :=
  if hasEnv env "SMOKE_PACKAGES" then Ret (getEnv env "SMOKE_PACKAGES" "")
  else
    let file := ".github/smokePackages.txt" in
    present ← fileExists file;
    if negb present then Ret ""
    else
      content ← readTextFile file;
      Ret (join " " (uncommentedLines content)).

Definition gitPorcelain (env : gmap string string) : Prog string :=
  result ← runCaptureChecked "git" ["status"; "--porcelain"] (Some env);
  Ret (stdout result).

Definition nixEvalPackageVersion (name system : string)
    (env : gmap string string) : Prog string :=
  let attr := ".#packages." +:+ system +:+ "." +:+ dq +:+ name +:+ dq
              +:+ ".version" in
  result ← runCapture "nix" ["eval"; "--raw"; "--impure"; attr] (Some env);
  if negb (code result =? 0) then Ret "unknown"
  else
    let v := trim (stdout result) in
    Ret (if truthy v then v else "unknown").

(** [assertRecord] of a member read with a name that the caller
    chooses: a function is no record; the prototype of an object is a
    record none of whose members is data. *)
Definition assertRecordMember (value : Member) (context : string)
  : Prog (gmap string JsonValue) :=
  match value with
  | Data v => assertRecord (Some v) context
  | Prototype => Ret ∅
  | Method | Undefined => assertRecord None context
  end.

Definition readFlakeInputRev (name : string) : Prog string :=
  lockText ← readTextFile "flake.lock";
  lockData ← jsonParse lockText;
  lockFields ← assertRecord (Some lockData) "flake.lock: expected object";
  let nodes := lockFields !! "nodes" in
  nodeFields ← assertRecord nodes "flake.lock.nodes: expected object";
  let node := member (JObj nodeFields) name in
  match node with
  | Undefined | Data JNull => Ret "unknown"
  | _ =>
      fields ← assertRecordMember node
                 ("flake.lock.nodes." +:+ name +:+ ": expected object");
      let locked := fields !! "locked" in
      match locked with
      | None | Some JNull => Ret "unknown"
      | Some _ =>
          lockedFields ← assertRecord locked
            ("flake.lock.nodes." +:+ name +:+ ".locked: expected object");
          match lockedFields !! "rev" with
          | Some (JStr rev) =>
              if negb (truthy rev) then Ret "unknown" else Ret (take 8 rev)
          | _ => Ret "unknown"
          end
      end
  end.

(** What the answer of reading the lock document holds for an input:
    nothing that can be used ([None]) when the document cannot be read,
    does not parse, is no object or has no object under [nodes], and
    otherwise what [revisionOf] finds in its [nodes]. *)
Definition lockRevision (r : string + string) (name : string)
  : option (option string) :=
  match r with
  | inl text =>
      match JSON_parse text with
      | Some (JObj fields) =>
          match fields !! "nodes" with
          | Some (JObj nodes) => revisionOf nodes name
          | _ => None
          end
      | _ => None
      end
  | inr _ => None
  end.


Definition ghPrNumberForBranch (branch : string) (env : gmap string string)
  : Prog (option Z) :=
  result ← runCaptureChecked "gh"
             ["pr"; "list"; "--head"; branch; "--json"; "number"] (Some env);
  parsed ← jsonParse (stdout result);
  items ← assertArray (Some parsed) "gh pr list: expected array";
  match items with
  | [] => Ret None
  | first :: _ =>
      fields ← assertRecord (Some first) "gh pr list[0]: expected object";
      match fields !! "number" with
      | Some (JNum number) => Ret (Some number)
      | _ => Ret None
      end
  end.

(** The loop over [argsPathCandidates]: the first file that exists gives
    the extra arguments. *)
Fixpoint readExtraArgs (argsPathCandidates : list string)
  : Prog (list string) :=
  match argsPathCandidates with
  | [] => Ret []
  | argsPath :: rest =>
      present ← fileExists argsPath;
      if negb present then readExtraArgs rest
      else
        content ← readTextFile argsPath;
        Ret (uncommentedLines content)
  end.

(** *** The states of [main], last first *)

(** Published and AutoMergeRequested. *)
Definition publish (branch prTitle prBody prLabels autoMerge : string)
    (env : gmap string string) : Prog unit :=
  let labelArgs := flat_map (fun label => ["--label"; label])
                            (splitLabels prLabels) in
  prNumber ← ghPrNumberForBranch branch env;
  prNumber ←
    match prNumber with
    | Some number =>
        consoleLog ("Updating existing PR #" +:+ String_of_number number);;
        runChecked "gh"
          (["pr"; "edit"; String_of_number number; "--title"; prTitle;
            "--body"; prBody] ++ labelArgs) (Some env);;
        Ret (Some number)
    | None =>
        consoleLog "Creating new PR";;
        runChecked "gh"
          (["pr"; "create"; "--title"; prTitle; "--body"; prBody;
            "--base"; "main"; "--head"; branch] ++ labelArgs) (Some env);;
        ghPrNumberForBranch branch env
    end;
  match prNumber with
  | Some number =>
      if String.eqb autoMerge "true" then
        consoleLog ("Enabling auto-merge for PR #" +:+ String_of_number number);;
        tryCatch
          (runChecked "gh"
             ["pr"; "merge"; String_of_number number; "--auto"; "--squash"]
             (Some env))
          (fun _ => consoleLog "Note: auto-merge may require branch protection rules")
      else Ret tt
  | None => Ret tt
  end.

(** Committed: from the computation of [branch] to the push. *)
Definition commitAndPublish (type : UpdateType)
    (name currentVersion newVersion prLabels autoMerge : string)
    (env : gmap string string) : Prog unit :=
  let branch := branch type name in
  let prTitle := prTitle type name currentVersion newVersion in
  let prBody := prBody type name currentVersion newVersion in
  consoleLog "=== Create/Update PR ===";;
  consoleLog ("branch=" +:+ branch);;
  consoleLog ("title=" +:+ prTitle);;
  consoleLog "";;
  runChecked "git" ["switch"; "-C"; branch] (Some env);;
  match type with
  | package =>
      runChecked "git" ["add"; "packages/" +:+ name; "README.md"] (Some env)
  | flake_input =>
      runChecked "git" ["add"; "flake.lock"; "README.md"] (Some env)
  end;;
  staged ← runStatus "git" ["diff"; "--cached"; "--quiet"] (Some env);
  if staged =? 0 then
    consoleError "Error: nothing staged for commit";;
    exit 1
  else
    runChecked "git" ["commit"; "-m"; prTitle; "--signoff"] (Some env);;
    runChecked "git" ["push"; "--force"; "--set-upstream"; "origin"; branch]
      (Some env);;
    publish branch prTitle prBody prLabels autoMerge env.

(** The loop over [allFiles]. *)
Definition checkScope (type : UpdateType) (name : string)
    (allFiles : list string) : Prog unit :=
  forEach allFiles (fun file =>
    if negb (isAllowedChange type name file) then
      consoleError ("Error: unexpected change outside allowed scope: " +:+ file);;
      consoleError ("Hint: package updates must only touch packages/"
                    +:+ name +:+ "/** and optionally README.md");;
      consoleError "Hint: flake-input updates must only touch flake.lock and optionally README.md";;
      exit 1
    else Ret tt).

(** ScopeChecked: the enumeration of the changed and untracked paths and
    the check of each of them, then Committed. *)
Definition scopeCheckAndPublish (type : UpdateType)
    (name currentVersion newVersion prLabels autoMerge : string)
    (env : gmap string string) : Prog unit :=
  changed ← runCapture "git" ["diff"; "--name-only"] (Some env);
  let changedFiles := trimLines (stdout changed) in
  untracked ← runCapture "git" ["ls-files"; "--others"; "--exclude-standard"]
                (Some env);
  let untrackedFiles := trimLines (stdout untracked) in
  let allFiles := allFilesOf changedFiles untrackedFiles in
  if bool_decide (length allFiles = 0%nat) then
    consoleError "Error: expected changes but working tree is clean";;
    exit 1
  else
    consoleLog "=== Worktree changes ===";;
    consoleLog (join (String "010" EmptyString) allFiles);;
    consoleLog "";;
    checkScope type name allFiles;;
    commitAndPublish type name currentVersion newVersion prLabels autoMerge env.

Definition nixBuildCheck (system check : string) (env : gmap string string)
  : Prog unit :=
  runChecked "nix"
    ["build"; "--accept-flake-config"; "--no-link";
     ".#checks." +:+ system +:+ ".pkgs-" +:+ check] (Some env).

(** Validated *)
Definition validate (type : UpdateType) (name system : string)
    (env : gmap string string) : Prog unit :=
  consoleLog "=== Validation ===";;
  match type with
  | package =>
      nixBuildCheck system name env;;
      nixBuildCheck system "formatter-check" env;;
      nixBuildCheck system "formatter-denoCheck" env
  | flake_input =>
      runChecked "nix" ["flake"; "check"; "--no-build"; "--accept-flake-config"]
        (Some env);;
      nixBuildCheck system "formatter-check" env;;
      nixBuildCheck system "formatter-denoCheck" env;;
      smoke ← readSmokePackages env;
      let smokePackages := trim smoke in
      if truthy smokePackages then
        consoleLog "=== Smoke build (flake input update) ===";;
        consoleLog smokePackages;;
        forEach (List.filter truthy (splitSpaces smokePackages))
          (fun pkg => nixBuildCheck system pkg env)
      else Ret tt
  end.

(** VersionResolved *)
Definition resolveNewVersion (type : UpdateType) (name system : string)
    (env : gmap string string) : Prog string :=
  match type with
  | package => nixEvalPackageVersion name system env
  | flake_input => readFlakeInputRev name
  end.

(** DiffChecked, DocsRegenerated, Formatted, DiffChecked2, and on. *)
Definition afterUpdate (type : UpdateType)
    (name currentVersion system prLabels autoMerge : string)
    (env : gmap string string) : Prog unit :=
  diff ← runStatus "git" ["diff"; "--quiet"] (Some env);
  if diff =? 0 then consoleLog "No changes detected; skipping PR."
  else
    consoleLog "Regenerating README package docs (if needed)...";;
    UpdateReadme "README.md" (fun r =>
      match r with Some msg => Throw msg | None => Ret tt end);;
    consoleLog "Formatting repository...";;
    runChecked "nix" ["fmt"] (Some env);;
    diff ← runStatus "git" ["diff"; "--quiet"] (Some env);
    if diff =? 0 then
      consoleLog "No changes detected after formatting; skipping PR."
    else
      newVersion ← resolveNewVersion type name system env;
      validate type name system env;;
      scopeCheckAndPublish type name currentVersion newVersion prLabels
        autoMerge env.

(** Updated: the updater selected by the type. *)
Definition update (type : UpdateType) (name : string)
    (env : gmap string string) : Prog unit :=
  match type with
  | package =>
      let updaterPath := "packages/" +:+ name +:+ "/update.ts" in
      present ← fileExists updaterPath;
      if present : bool then
        consoleLog ("Running " +:+ updaterPath);;
        runChecked "deno"
          ["run"; "--config"; "deno.jsonc"; "--allow-run"; "--allow-read";
           "--allow-write"; "--allow-env"; "--allow-net"; updaterPath]
          (Some env)
      else
        consoleLog ("No update.ts for " +:+ name +:+ "; running nix-update");;
        let argsPathCandidates :=
          ["packages/" +:+ name +:+ "/nixUpdateArgs";
           "packages/" +:+ name +:+ "/nix-update-args"] in
        extraArgs ← readExtraArgs argsPathCandidates;
        runChecked "nix-update" (["--flake"; name] ++ extraArgs) (Some env)
  | flake_input =>
      consoleLog ("Running nix flake update " +:+ name);;
      runChecked "nix" ["flake"; "update"; name] (Some env)
  end.

(** [main]; [args] is [Deno.args] and [processEnv] is [Deno.env]. *)
Definition main (args : list string) (processEnv : gmap string string)
  : Prog unit :=
  let typeArg := nth 0 args "" in
  let name := nth 1 args "" in
  let currentVersion := nth 2 args "" in
  if negb (truthy typeArg) || negb (truthy name) || negb (truthy currentVersion)
  then Throw "Usage: updateItem.ts <package|flake-input> <name> <currentVersion>"
  else
    match (if String.eqb typeArg "package" then Some package
           else if String.eqb typeArg "flake-input" then Some flake_input
           else None) with
    | None =>
        Throw ("Unknown type '" +:+ typeArg
               +:+ "' (expected 'package' or 'flake-input')")
    | Some type =>
        let system := getEnv processEnv "SYSTEM" "x86_64-linux" in
        let prLabels := getEnv processEnv "PR_LABELS" "dependencies,automated" in
        let autoMerge := getEnv processEnv "AUTO_MERGE" "false" in
        let ghToken := getEnv processEnv "GH_TOKEN" "" in
        if negb (truthy ghToken) then
          consoleError "Error: GH_TOKEN is not set";;
          exit 1
        else
          let env := <["NIX_PATH" := "nixpkgs=flake:nixpkgs"]> processEnv in
          status ← gitPorcelain env;
          if truthy (trim status) then
            consoleError "Error: working tree is not clean before update";;
            consoleError (trimEnd status);;
            exit 1
          else
            consoleLog "=== Update target ===";;
            consoleLog ("type=" +:+ typeName type);;
            consoleLog ("name=" +:+ name);;
            consoleLog ("system=" +:+ system);;
            consoleLog ("currentVersion=" +:+ currentVersion);;
            consoleLog "";;
            update type name env;;
            afterUpdate type name currentVersion system prLabels autoMerge env
    end.

(** The three diagnostics of a scope violation. *)
Definition scopeDiagnostics (name file : string) : list Event :=
  [ EvLog Err ("Error: unexpected change outside allowed scope: " +:+ file);
    EvLog Err ("Hint: package updates must only touch packages/"
               +:+ name +:+ "/** and optionally README.md");
    EvLog Err "Hint: flake-input updates must only touch flake.lock and optionally README.md" ].

(** The listing of the changed paths on the console. *)
Definition worktreeLogs (allFiles : list string) : list Event :=
  [ EvLog Out "=== Worktree changes ===";
    EvLog Out (join (String "010" EmptyString) allFiles);
    EvLog Out "" ].

(** The arguments of the script name this item. *)
Definition namesItem (args : list string) (type : UpdateType)
    (name currentVersion : string) : Prop :=
  nth 0 args "" = typeName type /\ nth 1 args "" = name
  /\ nth 2 args "" = currentVersion.

(** The module body: [try { await main() } catch (err) { ... }]. *)
Definition script (args : list string) (processEnv : gmap string string)
  : Prog unit :=
  tryCatch (main args processEnv)
    (fun message => consoleError message;; exit 1).

End WithRuntime.

End UpdateItem.

(** ** Properties of all paths of a script *)

Module Trace.
Import Js Command.

(** The outcome of [bind p f] when [p] does not return. *)
Definition passed {A B} (o : Outcome A) (o' : Outcome B) : Prop :=
  match o with
  | Returned _ => False
  | Thrown msg => o' = Thrown msg
  | Exited status => o' = Exited status
  end.

(** [safe E p]: every call the script [p] can make, with any answer, is an
    event of [E]. *)
Fixpoint safe {A} (E : Event -> Prop) (p : Prog A) : Prop :=
  match p with
  | Ret _ | Throw _ | Exit _ => True
  | Spawn c k => forall r, E (EvSpawn c r) /\ safe E (k r)
  | Output c k => forall r, E (EvOutput c r) /\ safe E (k r)
  | Stat path k => forall r, E (EvStat path r) /\ safe E (k r)
  | ReadTextFile path k => forall r, E (EvRead path r) /\ safe E (k r)
  | AppendTextFile path text k =>
      forall r, E (EvAppend path text r) /\ safe E (k r)
  | UpdateReadme path k => forall r, E (EvUpdateReadme path r) /\ safe E (k r)
  | Log s text k => E (EvLog s text) /\ safe E k
  end.

(** [leads E p Q]: every path of [p] either consists of events of [E]
    only, or is a sequence of events of [E] followed by a trace and an
    outcome that [Q] accepts. *)
Definition leads {A} (E : Event -> Prop) (p : Prog A)
    (Q : list Event -> Outcome A -> Prop) : Prop :=
  forall t o, paths p t o ->
    Forall E t \/ exists t1 t2, t = t1 ++ t2 /\ Forall E t1 /\ Q t2 o.

Definition isLog (e : Event) : Prop :=
  match e with EvLog _ _ => True | _ => False end.

(** The command of an event, if it is a process invocation. *)
Definition commandOf (e : Event) : option (string * list string) :=
  match e with
  | EvSpawn c _ | EvOutput c _ => Some (command c, args c)
  | _ => None
  end.

(** The sub-command of a [git] invocation. *)
Definition gitSubcommand (e : Event) : option string :=
  match commandOf e with
  | Some (cmd, sub :: _) => if String.eqb cmd "git" then Some sub else None
  | _ => None
  end.

Definition isGh (e : Event) : bool :=
  match commandOf e with
  | Some (cmd, _) => String.eqb cmd "gh"
  | None => false
  end.

Definition notGh (e : Event) : Prop := isGh e = false.

(** The calls of the Committed and Published states: [git switch],
    [git add], [git commit], [git push] and every [gh] invocation. *)
Definition commitsOrPublishes (e : Event) : bool :=
  isGh e ||
  match gitSubcommand e with
  | Some sub =>
      bool_decide (sub ∈ ["switch"; "add"; "commit"; "push"])
  | None => false
  end.

(** The two enumerations of the ScopeChecked state. *)
Definition enumerates (e : Event) : bool :=
  match e with
  | EvOutput c _ =>
      String.eqb (command c) "git"
      && (bool_decide (args c = ["diff"; "--name-only"])
          || bool_decide (args c = ["ls-files"; "--others"; "--exclude-standard"]))
  | _ => false
  end.

(** The calls made before the ScopeChecked state: none of them commits,
    publishes or enumerates. *)
Definition prelude (e : Event) : Prop :=
  commitsOrPublishes e = false /\ enumerates e = false.

(** The branch that a call names: [git switch -C b], [git push .. b],
    [gh pr list --head b] and [gh pr create .. --head b]. *)
Definition branchOf (e : Event) : option string :=
  match commandOf e with
  | Some (cmd, sub :: rest) =>
      if String.eqb cmd "git" then
        if String.eqb sub "switch" then
          match rest with [ _; b ] => Some b | _ => None end
        else if String.eqb sub "push" then
          match rest with [ _; _; _; b ] => Some b | _ => None end
        else None
      else if String.eqb cmd "gh" then
        match rest with
        | action :: flag :: b :: _ =>
            if String.eqb action "list" && String.eqb flag "--head" then Some b
            else if String.eqb action "create" then
              match rest with
              | _ :: _ :: _ :: _ :: _ :: _ :: _ :: _ :: b' :: _ => Some b'
              | _ => None
              end
            else None
        | _ => None
        end
      else None
  | _ => None
  end.

(** The calls of the Committed and Published states name the branch [b]
    only, and do not enumerate. *)
Definition onBranch (b : string) (e : Event) : Prop :=
  enumerates e = false /\ forall b', branchOf e = Some b' -> b' = b.

(** The calls that carry a branch carry [b], each in its one form:
    [git switch] is [git switch -C b], [git push] is
    [git push --force --set-upstream origin b], [gh pr list] asks for the
    head [b], and [gh pr create] opens the proposal from the head [b]
    against [main]. *)
Definition targets (b : string) (e : Event) : Prop :=
  match commandOf e with
  | Some (cmd, arguments) =>
      (cmd = "git" -> head arguments = Some "switch" ->
       arguments = ["switch"; "-C"; b])
      /\ (cmd = "git" -> head arguments = Some "push" ->
          arguments = ["push"; "--force"; "--set-upstream"; "origin"; b])
      /\ (cmd = "gh" -> firstn 2 arguments = ["pr"; "list"] ->
          arguments = ["pr"; "list"; "--head"; b; "--json"; "number"])
      /\ (cmd = "gh" -> firstn 2 arguments = ["pr"; "create"] ->
          exists title body labels,
            arguments = ["pr"; "create"; "--title"; title; "--body"; body;
                         "--base"; "main"; "--head"; b] ++ labels)
  | None => True
  end.

(** The diff checks [git diff --quiet]. *)
Definition checksDiff (e : Event) : bool :=
  match e with
  | EvSpawn c _ =>
      String.eqb (command c) "git" && bool_decide (args c = ["diff"; "--quiet"])
  | _ => false
  end.

(** The builds and checks of the Validated state. *)
Definition validates (e : Event) : bool :=
  match commandOf e with
  | Some (cmd, sub :: rest) =>
      String.eqb cmd "nix"
      && (String.eqb sub "build"
          || (String.eqb sub "flake" && bool_decide (head rest = Some "check")))
  | _ => false
  end.

(** The calls made before the first diff check. *)
Definition beforeDiff (e : Event) : Prop :=
  prelude e /\ validates e = false /\ checksDiff e = false.

End Trace.

(** ** The discipline of the update script

    Two properties of a script that are read off its tree: that the failure
    of a command is fatal, and that one call comes only after another has
    succeeded. *)

Module Discipline.
Import Js Command.

(** The commands that the update script runs through [runChecked] and
    outside a [try]: every command except the [git diff] queries (run
    through [runStatus], their code is a condition) and the auto-merge
    request [gh pr merge] (its error is caught). *)
Definition checked (c : Cmd) : bool :=
  negb (String.eqb (command c) "git" && bool_decide (head (args c) = Some "diff"))
  && negb (String.eqb (command c) "gh"
           && bool_decide (firstn 2 (args c) = ["pr"; "merge"])).

(** The message of the error that [runChecked] throws. *)
Definition failMessage `{rt : Runtime} (c : Cmd) (code : Z) : string :=
  "Command failed (" +:+ String_of_number code +:+ "): "
  +:+ command c +:+ " " +:+ joinedArgs (args c).

(** [strict p]: when a checked command ends with a non-zero code, [p]
    throws the error of [runChecked] at once. *)
Fixpoint strict `{rt : Runtime} {A} (p : Prog A) : Prop :=
  match p with
  | Ret _ | Throw _ | Exit _ => True
  | Spawn c k =>
      forall r, (checked c = true -> r <> 0 -> k r = Throw (failMessage c r))
                /\ strict (k r)
  | Output _ k => forall r, strict (k r)
  | Stat _ k => forall r, strict (k r)
  | ReadTextFile _ k => forall r, strict (k r)
  | AppendTextFile _ _ k => forall r, strict (k r)
  | UpdateReadme _ k => forall r, strict (k r)
  | Log _ _ k => strict k
  end.

(** [until gate Q p post]: as long as no command accepted by [gate] has
    ended with code 0, [p] makes no call of [Q], and if it returns [a]
    then [post a] holds. *)
Fixpoint until {A} (gate : Cmd -> bool) (Q : Event -> Prop) (p : Prog A)
    (post : A -> Prop) : Prop :=
  match p with
  | Ret a => post a
  | Throw _ | Exit _ => True
  | Spawn c k =>
      forall r, ~ Q (EvSpawn c r)
                /\ ((gate c = true /\ r = 0) \/ until gate Q (k r) post)
  | Output c k => forall r, ~ Q (EvOutput c r) /\ until gate Q (k r) post
  | Stat path k => forall r, ~ Q (EvStat path r) /\ until gate Q (k r) post
  | ReadTextFile path k =>
      forall r, ~ Q (EvRead path r) /\ until gate Q (k r) post
  | AppendTextFile path text k =>
      forall r, ~ Q (EvAppend path text r) /\ until gate Q (k r) post
  | UpdateReadme path k =>
      forall r, ~ Q (EvUpdateReadme path r) /\ until gate Q (k r) post
  | Log s text k => ~ Q (EvLog s text) /\ until gate Q k post
  end.


(** The command [gate] has ended with code 0 somewhere in [t]. *)
Definition succeeded (gate : Cmd -> bool) (t : list Event) : Prop :=
  exists c, In (EvSpawn c 0) t /\ gate c = true.

(** The command [cmd] with exactly these arguments, and the command [cmd]
    with this sub-command. *)
Definition exactly (cmd : string) (arguments : list string) (c : Cmd) : bool :=
  String.eqb (command c) cmd && bool_decide (args c = arguments).

Definition runs (cmd sub : string) (c : Cmd) : bool :=
  String.eqb (command c) cmd && bool_decide (head (args c) = Some sub).

(** The command [cmd] whose arguments start with [first]. *)
Definition starts (cmd : string) (first : list string) (c : Cmd) : bool :=
  String.eqb (command c) cmd
  && bool_decide (firstn (length first) (args c) = first).

(** What ends a run of the update script well: a diff check that finds
    nothing, or a proposal that is created or edited. *)
Definition settles (c : Cmd) : bool :=
  exactly "git" ["diff"; "--quiet"] c
  || starts "gh" ["pr"; "create"] c
  || starts "gh" ["pr"; "edit"] c.

(** The arguments of the [nix] commands that the Validated state runs for
    every item of a kind (the smoke builds of a pinned reference come on
    top). *)
Definition validationCommands (type : UpdateItem.UpdateType)
    (name system : string) : list (list string) :=
  let build check :=
    ["build"; "--accept-flake-config"; "--no-link";
     ".#checks." +:+ system +:+ ".pkgs-" +:+ check] in
  match type with
  | UpdateItem.package =>
      [build name; build "formatter-check"; build "formatter-denoCheck"]
  | UpdateItem.flake_input =>
      [["flake"; "check"; "--no-build"; "--accept-flake-config"];
       build "formatter-check"; build "formatter-denoCheck"]
  end.

End Discipline.

(** ** What discovery reports *)

Module Report.
Import Js Command.

(** The writes to the output file of the workflow. *)
Definition appends (e : Event) : bool :=
  match e with EvAppend _ _ _ => true | _ => false end.

(** A revision as [slice(0, 8)] leaves it: at most eight characters (or
    elements, when the document holds an array in its place). *)
Definition fitsRevision (v : JsonValue) : Prop :=
  match v with
  | JStr s => (String.length s <= 8)%nat
  | JArr items => (length items <= 8)%nat
  | _ => False
  end.

(** The console and the output file of a run of the discovery script that
    reports the items [items] into the file [file]: the configuration
    that [main] prints first, the summary that it prints after the two
    discoveries, and the two lines that it appends. *)
Definition configuration (env : gmap string string) : list Event :=
  let packages := trim (getEnv env "PACKAGES" "") in
  let inputs := trim (getEnv env "INPUTS" "") in
  [EvLog Out "=== Discovery Configuration ===";
   EvLog Out ("PACKAGES: " +:+ (if truthy packages then packages else "<all>"));
   EvLog Out ("INPUTS: " +:+ (if truthy inputs then inputs else "<all>"));
   EvLog Out ("SYSTEM: " +:+ trim (getEnv env "SYSTEM" "x86_64-linux"));
   EvLog Out ""].

Definition summary `{rt : Runtime} (items : list DiscoverUpdates.MatrixItem)
  : list Event :=
  [EvLog Out "";
   EvLog Out "=== Discovery Results ===";
   EvLog Out match items with
             | [] => "No items to update"
             | _ => "Found " +:+ String_of_number (Z.of_nat (length items))
                    +:+ " item(s) to update"
             end].

Definition report `{rt : Runtime} (file : string)
    (items : list DiscoverUpdates.MatrixItem) : list Event :=
  [EvAppend file
     ("matrix="
      +:+ JSON_stringify
            (JObj {[ "include" := JArr (map DiscoverUpdates.itemJson items) ]})
      +:+ String "010" EmptyString) None;
   EvAppend file
     ("has_items=" +:+ (match items with [] => "false" | _ => "true" end)
      +:+ String "010" EmptyString) None].

End Report.

(** ** The working tree as [git] reports it

    A model of the four queries the update script makes about the working
    tree.  [modified] are the tracked paths with unstaged changes,
    [untracked] the paths that are new and not ignored. *)

Module Git.
Import Js Command.

Record Tree := {
  modified : list string;
  untracked : list string;
}.

Definition nl : string := String "010" EmptyString.

(** One path per line. *)
Fixpoint unlines (paths : list string) : string :=
  match paths with
  | [] => EmptyString
  | p :: rest => p +:+ nl +:+ unlines rest
  end.

(** [git status --porcelain]: a line [ M path] for a modified path and a
    line [?? path] for an untracked one. *)
Definition porcelain (tree : Tree) : string :=
  unlines (map (fun p => " M " +:+ p) (modified tree)
           ++ map (fun p => "?? " +:+ p) (untracked tree)).

(** [git diff --quiet]: the exit code, 1 if and only if a tracked path
    differs. *)
Definition diffQuiet (tree : Tree) : Z :=
  match modified tree with [] => 0 | _ :: _ => 1 end.

(** [git diff --name-only] *)
Definition diffNames (tree : Tree) : string := unlines (modified tree).

(** [git ls-files --others --exclude-standard] *)
Definition lsOthers (tree : Tree) : string := unlines (untracked tree).

(** A path that the listing prints as it is: not empty, without a line
    terminator, without white space at either end. *)
Definition plainPath (p : string) : Prop :=
  truthy p = true /\ has_line_terminator p = false /\ trim p = p.

Definition isGit (c : Cmd) (arguments : list string) : Prop :=
  command c = "git" /\ args c = arguments.

End Git.

(** ** The open proposals as [gh] manages them

    A model of the three [gh pr] calls of the Published state over the list
    of open proposals.  [gh pr create] opens a proposal under a number that
    is not in use; it does not refuse a second proposal for a branch, so
    that at most one proposal per branch is a property of the caller.
    [gh pr edit] replaces the title and the body of the proposal with the
    given number and adds the labels.  A call that ends with a non-zero code
    changes nothing.  [gh pr list --head b --json number], when it
    succeeds, prints the numbers of the open proposals of the branch as a
    JSON array of objects. *)

Module GitHub.
Import Js Command.

Record Proposal := {
  number : Z;
  head : string;
  title : string;
  body : string;
  labels : list string;
}.

Definition openFor (b : string) (store : list Proposal) : list Proposal :=
  List.filter (fun p => String.eqb (head p) b) store.

Fixpoint labelsOf (args : list string) : list string :=
  match args with
  | flag :: label :: rest =>
      if String.eqb flag "--label" then label :: labelsOf rest else []
  | _ => []
  end.

Definition fresh (store : list Proposal) : Z :=
  1 + foldr Z.max 0 (map number store).

Definition numberObject (n : Z) : JsonValue := JObj {[ "number" := JNum n ]}.

Inductive Call :=
| List (b : string)
| Create (title body b : string) (labels : list string)
| Edit (n title body : string) (labels : list string)
| Other.

Definition call (c : Cmd) : Call :=
  if String.eqb (command c) "gh" then
    match args c with
    | "pr" :: action :: rest =>
        if String.eqb action "list" then
          match rest with
          | [flag; b; _; _] => if String.eqb flag "--head" then List b else Other
          | _ => Other
          end
        else if String.eqb action "create" then
          match rest with
          | _ :: title :: _ :: body :: _ :: _ :: _ :: b :: more =>
              Create title body b (labelsOf more)
          | _ => Other
          end
        else if String.eqb action "edit" then
          match rest with
          | n :: _ :: title :: _ :: body :: more => Edit n title body (labelsOf more)
          | _ => Other
          end
        else Other
    | _ => Other
    end
  else Other.

Section WithRuntime.
Context `{rt : Runtime}.

Definition edit (n title' body' : string) (more : list string) (p : Proposal)
  : Proposal :=
  if String.eqb (String_of_number (number p)) n
  then {| number := number p; head := head p; title := title';
          body := body'; labels := remove_dups (labels p ++ more) |}
  else p.

(** The proposals after an event. *)
Definition step (store : list Proposal) (e : Event) : list Proposal :=
  match e with
  | EvSpawn c r =>
      if r =? 0 then
        match call c with
        | Create title body b more =>
            store ++ [{| number := fresh store; head := b; title := title;
                         body := body; labels := more |}]
        | Edit n title body more => map (edit n title body more) store
        | _ => store
        end
      else store
  | _ => store
  end.

(** The answer of an event is the one [gh] gives on the proposals. *)
Definition answers (store : list Proposal) (e : Event) : Prop :=
  match e with
  | EvOutput c out =>
      match call c with
      | List b =>
          code out = 0 ->
          JSON_parse (stdout out)
          = Some (JArr (map (fun p => numberObject (number p))
                            (openFor b store)))
      | _ => True
      end
  | _ => True
  end.

(** An event that leaves the proposals alone and asks nothing of them. *)
Definition inert (e : Event) : Prop :=
  forall store, step store e = store /\ answers store e.

Fixpoint after (store : list Proposal) (t : list Event) : list Proposal :=
  match t with
  | [] => store
  | e :: t' => after (step store e) t'
  end.

Fixpoint consistent (store : list Proposal) (t : list Event) : Prop :=
  match t with
  | [] => True
  | e :: t' => answers store e /\ consistent (step store e) t'
  end.

End WithRuntime.

(** The numbers are distinct and no branch has two open proposals. *)
Definition orderly (store : list Proposal) : Prop :=
  NoDup (map number store) /\ forall b, (length (openFor b store) <= 1)%nat.

(** The run pushed, and committed under a message. *)
Definition pushed (t : list Event) : Prop :=
  exists e, In e t /\ Trace.gitSubcommand e = Some "push".

Definition committed (t : list Event) (message : string) : Prop :=
  exists c, In (EvSpawn c 0) t
            /\ command c = "git"
            /\ args c = ["commit"; "-m"; message; "--signoff"].

End GitHub.

(** ** Worlds for evaluated examples *)

Module Worlds.
Import Js Command.

(** A world without state: the answer of a command depends on the command
    only, the files are fixed, appending and the documentation regenerator
    succeed. *)
Definition fixedWorld (outputs : Cmd -> CapturedOutput) (spawns : Cmd -> Z)
    (files : string -> option string) : Handler unit := {|
  on_spawn := fun w c => (spawns c, w);
  on_output := fun w c => (outputs c, w);
  on_stat := fun w path =>
    (match files path with
     | Some _ => StatOk
     | None => StatNotFound ("NotFound: " +:+ path)
     end, w);
  on_read := fun w path =>
    (match files path with
     | Some content => inl content
     | None => inr ("NotFound: " +:+ path)
     end, w);
  on_append := fun w _ _ => (None, w);
  on_updateReadme := fun w _ => (None, w);
  on_log := fun w _ _ => w;
|}.

Definition failed (c : Cmd) : CapturedOutput :=
  {| code := 1; stdout := ""; stderr := "error: " +:+ command c +:+ " failed" |}.

(** Every command fails and no file exists. *)
Definition offline : Handler unit :=
  fixedWorld failed (fun _ => 1) (fun _ => None).

(** An index with a package [foo] at version 1.2.0 and a package [bar]
    without a version. *)
Definition index : gmap string (option string) :=
  <["foo" := Some "1.2.0"]> (<["bar" := None]> ∅).

Definition indexAnswer (requested : option (list string)) : JsonValue :=
  JObj (DiscoverUpdates.evalExpr index requested).

Definition indexWorld (requested : option (list string)) : Handler unit :=
  fixedWorld
    (fun c => {| code := 0;
                 stdout := DecimalRuntime.stringify (indexAnswer requested);
                 stderr := "" |})
    (fun _ => 0) (fun _ => None).

(** A lock document with the inputs [flake-utils] and [nixpkgs]. *)
Definition lockedNode (rev : string) : JsonValue :=
  JObj {[ "locked" := JObj {[ "rev" := JStr rev ]} ]}.

Definition lockDocument : JsonValue :=
  JObj {[ "nodes" :=
    JObj (<["flake-utils" := lockedNode "11707dc2f618dd54ca8739b309ec4fc024de578b"]>
          (<["nixpkgs" := lockedNode "50ab793786d9de88ee30ec4e4c24fb4236fc2674"]>
           (<["root" := JObj ∅]> ∅))) ]}.

Definition lockWorld : Handler unit :=
  fixedWorld failed (fun _ => 1)
    (fun path => if String.eqb path "flake.lock"
                 then Some (DecimalRuntime.stringify lockDocument) else None).

(** A checkout for the update script.  The tree is clean before the
    update; afterwards the tracked paths of [changed] differ and the paths
    of [untracked] are new (one path per line).  Every tool succeeds, the
    package index reports version 1.3.0, no pull request is open, and
    [lock] is the content of the lock document. *)
Definition ok (text : string) : CapturedOutput :=
  {| code := 0; stdout := text; stderr := "" |}.

Definition checkout (changed untracked : string) (lock : option string)
  : Handler unit :=
  fixedWorld
    (fun c =>
       if String.eqb (command c) "git" then
         if bool_decide (args c = ["diff"; "--name-only"]) then ok changed
         else if bool_decide (args c = ["ls-files"; "--others"; "--exclude-standard"])
              then ok untracked
              else ok ""
       else if String.eqb (command c) "gh" then ok "[]"
       else ok "1.3.0")
    (fun c =>
       if String.eqb (command c) "git"
          && (bool_decide (args c = ["diff"; "--quiet"])
              || bool_decide (args c = ["diff"; "--cached"; "--quiet"]))
       then 1 else 0)
    (fun path => if String.eqb path "flake.lock" then lock else None).

(** The same checkout with the working tree given as trees: [before] is
    what [git status] reports at the start, [after] what the later queries
    report. *)
Definition treeWorld (before after : Git.Tree) : Handler unit :=
  fixedWorld
    (fun c =>
       if String.eqb (command c) "git" then
         if bool_decide (args c = ["status"; "--porcelain"])
         then ok (Git.porcelain before)
         else if bool_decide (args c = ["diff"; "--name-only"])
              then ok (Git.diffNames after)
              else if bool_decide (args c = ["ls-files"; "--others"; "--exclude-standard"])
                   then ok (Git.lsOthers after)
                   else ok ""
       else if String.eqb (command c) "gh" then ok "[]"
       else ok "1.3.0")
    (fun c =>
       if String.eqb (command c) "git"
          && bool_decide (args c = ["diff"; "--quiet"])
       then Git.diffQuiet after else 0)
    (fun _ => None).

Definition cleanTree : Git.Tree := {| Git.modified := []; Git.untracked := [] |}.

Definition notesOnly : Git.Tree :=
  {| Git.modified := []; Git.untracked := ["notes.txt"] |}.

(** The checkout of [checkout] together with the open proposals: [gh]
    answers from them and changes them as in [GitHub]; the package index
    reports [version]. *)
Definition hub (changed version : string) : Handler (list GitHub.Proposal) := {|
  on_spawn := fun w c =>
    let r := fst (on_spawn (checkout changed "" None) tt c) in
    (r, GitHub.step (rt := DecimalRuntime.runtime0) w (EvSpawn c r));
  on_output := fun w c =>
    (match GitHub.call c with
     | GitHub.List b =>
         ok (DecimalRuntime.stringify
               (JArr (map (fun p => GitHub.numberObject (GitHub.number p))
                          (GitHub.openFor b w))))
     | _ => if String.eqb (command c) "nix" then ok version
            else fst (on_output (checkout changed "" None) tt c)
     end, w);
  on_stat := fun w path => (fst (on_stat (checkout changed "" None) tt path), w);
  on_read := fun w path => (fst (on_read (checkout changed "" None) tt path), w);
  on_append := fun w _ _ => (None, w);
  on_updateReadme := fun w _ => (None, w);
  on_log := fun w _ _ => w;
|}.

Definition nl : string := String "010" EmptyString.

Definition token : gmap string string := {[ "GH_TOKEN" := "secret" ]}.

(** A clean checkout in which every query is answered and every command
    that is waited for fails with code 1. *)
Definition failing : Handler unit :=
  fixedWorld (fun _ => ok "") (fun _ => 1) (fun _ => None).

End Worlds.

(** * Theorems *)

(** * Properties of the version ordering *)

Module VersionOrder.
Import Js Version.

(** ** The code-unit order on strings *)

Lemma ltb_lt (a b : string) : String.ltb a b = true <-> String.compare a b = Lt.
Proof. unfold String.ltb. destruct (String.compare a b); split; congruence. Qed.

Lemma ltb_irrefl (a : string) : String.ltb a a = false.
Proof.
  destruct (String.ltb a a) eqn:E; [|done].
  apply ltb_lt in E. pose proof (String.compare_antisym a a) as H.
  rewrite E in H. discriminate.
Qed.

Lemma ltb_flip (a b : string) : a <> b -> String.ltb b a = negb (String.ltb a b).
Proof.
  intros Hne. unfold String.ltb. rewrite (String.compare_antisym b a).
  destruct (String.compare a b) eqn:E; simpl; try done.
  apply String.compare_eq_iff in E. contradiction.
Qed.

Lemma ltb_le (a b : string) : String.ltb a b = true -> String.le a b.
Proof.
  intros H%ltb_lt. unfold String.le, String.leb. by rewrite H.
Qed.

Lemma le_ltb (a b : string) : String.le a b -> a <> b -> String.ltb a b = true.
Proof.
  unfold String.le, String.leb, String.ltb. intros H Hne.
  destruct (String.compare a b) eqn:E; try done.
  apply String.compare_eq_iff in E. contradiction.
Qed.

Lemma ltb_trans (a b c : string) :
  String.ltb a b = true -> String.ltb b c = true -> String.ltb a c = true.
Proof.
  intros Hab Hbc. apply le_ltb.
  - transitivity b; by apply ltb_le.
  - intros ->. rewrite ltb_flip in Hab.
    + rewrite Hbc in Hab. discriminate.
    + intros ->. rewrite ltb_irrefl in Hbc. discriminate.
Qed.

(** ** The numeric loop *)

Lemma compareParts_range fuel i pa pb :
  compareParts fuel i pa pb = -1 \/ compareParts fuel i pa pb = 0
  \/ compareParts fuel i pa pb = 1.
Proof.
  revert i. induction fuel as [|fuel IH]; intros i; simpl; [auto|].
  destruct (_ <? _); [auto|]. destruct (_ >? _); auto.
Qed.

Lemma compareParts_beyond fuel i pa pb :
  (length pa <= i)%nat -> (length pb <= i)%nat ->
  compareParts fuel i pa pb = 0.
Proof.
  revert i. induction fuel as [|fuel IH]; intros i Ha Hb; simpl; [done|].
  rewrite !nth_overflow by lia. simpl. apply IH; lia.
Qed.

Lemma compareParts_add f1 f2 i pa pb :
  compareParts (f1 + f2) i pa pb =
    let c := compareParts f1 i pa pb in
    if c =? 0 then compareParts f2 (i + f1) pa pb else c.
Proof.
  revert i. induction f1 as [|f1 IH]; intros i; simpl.
  - by rewrite Nat.add_0_r.
  - destruct (_ <? _); [done|]. destruct (_ >? _); [done|].
    rewrite IH. simpl. replace (i + S f1)%nat with (S (i + f1)) by lia. done.
Qed.

(** More iterations than the longer sequence has parts change nothing. *)
Lemma compareParts_enough n pa pb :
  (Nat.max (length pa) (length pb) <= n)%nat ->
  compareParts n 0 pa pb
  = compareParts (Nat.max (length pa) (length pb)) 0 pa pb.
Proof.
  intros Hn.
  replace n with (Nat.max (length pa) (length pb)
                  + (n - Nat.max (length pa) (length pb)))%nat at 1 by lia.
  rewrite compareParts_add. simpl.
  rewrite (compareParts_beyond _ (Nat.max _ _)) by lia.
  destruct (Z.eqb_spec (compareParts (Nat.max (length pa) (length pb)) 0 pa pb) 0);
    congruence.
Qed.

Lemma compareParts_flip fuel i pa pb :
  compareParts fuel i pb pa = - compareParts fuel i pa pb.
Proof.
  revert i. induction fuel as [|fuel IH]; intros i; simpl; [done|].
  destruct (Z.ltb_spec (nth i pa 0) (nth i pb 0)),
           (Z.ltb_spec (nth i pb 0) (nth i pa 0)); try lia.
  - rewrite (proj2 (Z.gtb_gt _ _)) by lia. done.
  - destruct (Z.gtb_spec (nth i pa 0) (nth i pb 0)); [done | lia].
  - destruct (Z.gtb_spec (nth i pa 0) (nth i pb 0)); [lia|].
    destruct (Z.gtb_spec (nth i pb 0) (nth i pa 0)); [lia|]. apply IH.
Qed.

Lemma compareParts_refl fuel i pa : compareParts fuel i pa pa = 0.
Proof.
  revert i. induction fuel as [|fuel IH]; intros i; simpl; [done|].
  rewrite Z.ltb_irrefl. destruct (Z.gtb_spec (nth i pa 0) (nth i pa 0)); [lia|].
  apply IH.
Qed.

Lemma compareParts_trans fuel i pa pb pc :
  compareParts fuel i pa pb <= 0 -> compareParts fuel i pb pc <= 0 ->
  compareParts fuel i pa pc <= 0
  /\ (compareParts fuel i pa pc = 0 ->
      compareParts fuel i pa pb = 0 /\ compareParts fuel i pb pc = 0).
Proof.
  revert i. induction fuel as [|fuel IH]; intros i; simpl; [done|].
  destruct (Z.ltb_spec (nth i pa 0) (nth i pb 0)),
           (Z.ltb_spec (nth i pb 0) (nth i pc 0)),
           (Z.ltb_spec (nth i pa 0) (nth i pc 0));
    repeat match goal with
           | |- context [?x >? ?y] => destruct (Z.gtb_spec x y)
           end; try lia; try (intros; split; lia).
  apply IH.
Qed.

(** ** The suffix order *)

Lemma compareSuffix_flip sa sb : compareSuffix sb sa = - compareSuffix sa sb.
Proof.
  unfold compareSuffix. rewrite (String.eqb_sym sb sa).
  destruct (String.eqb_spec sa sb) as [->|Hne]; [done|].
  destruct sa, sb; simpl; try done.
  rewrite (ltb_flip (String a sa) (String a0 sb)) by done.
  by destruct (String.ltb _ _).
Qed.

Lemma compareSuffix_le sa sb :
  compareSuffix sa sb <= 0 <->
  sa = sb \/ (sa <> "" /\ (sb = "" \/ String.ltb sa sb = true)).
Proof.
  unfold compareSuffix.
  destruct (String.eqb_spec sa sb) as [->|Hne]; [intuition lia|].
  destruct sa, sb; simpl; try (intuition (done || lia)).
  destruct (String.ltb _ _); intuition (done || lia).
Qed.

Lemma compareSuffix_trans sa sb sc :
  compareSuffix sa sb <= 0 -> compareSuffix sb sc <= 0 ->
  compareSuffix sa sc <= 0.
Proof.
  rewrite !compareSuffix_le. intros H1 H2.
  destruct H1 as [->|[Ha Hab]]; [done|].
  destruct H2 as [->|[Hb Hbc]]; [by right|].
  destruct Hab as [->|Hab]; [done|].
  right. split; [done|].
  destruct Hbc as [->|Hbc]; [by left|].
  right. by eapply ltb_trans.
Qed.

(** ** Padded sequences *)

Lemma comparePairwise_loop fuel i pa pb :
  compareParts fuel i pa pb
  = VersionSpec.comparePairwise (map (fun j => nth j pa 0) (seq i fuel))
                                (map (fun j => nth j pb 0) (seq i fuel)).
Proof.
  revert i. induction fuel as [|fuel IH]; intros i; simpl; [done|].
  rewrite Z.gtb_ltb. destruct (_ <? _); [done|]. destruct (_ <? _); [done|].
  apply IH.
Qed.

Lemma padRight_nth n (l : list Z) :
  (length l <= n)%nat ->
  map (fun j => nth j l 0) (seq 0 n) = VersionSpec.pad VersionSpec.PadRight n l.
Proof.
  unfold VersionSpec.pad. revert n. induction l as [|x l IH]; intros n Hn; simpl.
  - rewrite Nat.sub_0_r. clear Hn. generalize 0%nat.
    induction n as [|n IHn]; intros k; simpl; [done|].
    rewrite IHn. by destruct k.
  - destruct n as [|n]; [simpl in Hn; lia|]. simpl. f_equal.
    rewrite <- seq_shift, map_map. apply IH. simpl in Hn. lia.
Qed.

Section WithRuntime.
Context `{rt : Runtime}.

Lemma compareSuffix_refl s : compareSuffix s s = 0.
Proof. unfold compareSuffix. by rewrite String.eqb_refl. Qed.

Lemma compareVersions_numeric a b pa pb :
  numericParts (parseVersion a) = Some pa ->
  numericParts (parseVersion b) = Some pb ->
  compareVersions a b
  = compareKeys pa (suffix (parseVersion a)) pb (suffix (parseVersion b)).
Proof.
  intros Ha Hb. unfold compareVersions, compareKeys.
  destruct (String.eqb_spec a b) as [->|Hne].
  - rewrite Ha in Hb. injection Hb as ->.
    by rewrite compareParts_refl, compareSuffix_refl.
  - by rewrite Ha, Hb.
Qed.

Lemma compareVersions_fallback a b :
  numericParts (parseVersion a) = None \/ numericParts (parseVersion b) = None ->
  compareVersions a b
  = if String.eqb a b then 0 else if String.ltb a b then -1 else 1.
Proof.
  intros H. unfold compareVersions. destruct (String.eqb a b); [done|].
  destruct H as [-> | ->]; [done|]. by destruct (numericParts _).
Qed.

Lemma compareVersions_fallback_le a b :
  numericParts (parseVersion a) = None \/ numericParts (parseVersion b) = None ->
  compareVersions a b <= 0 <-> String.le a b.
Proof.
  intros H. rewrite compareVersions_fallback by done.
  destruct (String.eqb_spec a b) as [->|Hne]; [done|].
  destruct (String.ltb a b) eqn:E.
  - split; [intros _; by apply ltb_le | lia].
  - split; [lia|]. intros Hle. rewrite le_ltb in E; done.
Qed.

Lemma compareKeys_trans pa sa pb sb pc sc :
  compareKeys pa sa pb sb <= 0 -> compareKeys pb sb pc sc <= 0 ->
  compareKeys pa sa pc sc <= 0.
Proof.
  unfold compareKeys.
  set (n := Nat.max (length pa) (Nat.max (length pb) (length pc))).
  rewrite <- !(compareParts_enough n) by lia. simpl.
  pose proof (compareParts_trans n 0 pa pb pc) as Ht.
  pose proof (compareParts_range n 0 pa pb) as Rab.
  pose proof (compareParts_range n 0 pb pc) as Rbc.
  destruct (Z.eqb_spec (compareParts n 0 pa pb) 0) as [Eab|Eab],
           (Z.eqb_spec (compareParts n 0 pb pc) 0) as [Ebc|Ebc];
    intros H1 H2;
    (destruct Ht as [Hle Hz]; [lia | lia |]);
    destruct (Z.eqb_spec (compareParts n 0 pa pc) 0) as [Eac|Eac];
    try lia; try (destruct (Hz Eac); lia).
  by eapply compareSuffix_trans.
Qed.

Lemma compareVersions_refl a : compareVersions a a = 0.
Proof. unfold compareVersions. by rewrite String.eqb_refl. Qed.

Lemma compareVersions_flip a b : compareVersions b a = - compareVersions a b.
Proof.
  unfold compareVersions. rewrite (String.eqb_sym b a).
  destruct (String.eqb_spec a b) as [->|Hne]; [done|].
  destruct (numericParts (parseVersion a)) as [pa|],
           (numericParts (parseVersion b)) as [pb|];
    try (rewrite (ltb_flip a b) by done; by destruct (String.ltb a b)).
  rewrite (Nat.max_comm (length pb) (length pa)), compareParts_flip.
  rewrite compareSuffix_flip.
  destruct (Z.eqb_spec (compareParts (Nat.max (length pa) (length pb)) 0 pa pb) 0)
    as [->|Hn]; [done|].
  destruct (Z.eqb_spec (- compareParts (Nat.max (length pa) (length pb)) 0 pa pb) 0);
    [lia|done].
Qed.

Lemma compareVersions_trans a b c :
  lacking [a; b; c] <> 1%nat ->
  compareVersions a b <= 0 -> compareVersions b c <= 0 ->
  compareVersions a c <= 0.
Proof.
  unfold lacking. simpl.
  destruct (numericParts (parseVersion a)) as [pa|] eqn:Ha,
           (numericParts (parseVersion b)) as [pb|] eqn:Hb,
           (numericParts (parseVersion c)) as [pc|] eqn:Hc;
    simpl; intros Hl; try done.
  - rewrite (compareVersions_numeric a b pa pb), (compareVersions_numeric b c pb pc),
      (compareVersions_numeric a c pa pc) by done.
    apply compareKeys_trans.
  - rewrite !compareVersions_fallback_le by (rewrite ?Ha, ?Hb, ?Hc; auto).
    intros; by etrans.
  - rewrite !compareVersions_fallback_le by (rewrite ?Ha, ?Hb, ?Hc; auto).
    intros; by etrans.
  - rewrite !compareVersions_fallback_le by (rewrite ?Ha, ?Hb, ?Hc; auto).
    intros; by etrans.
  - rewrite !compareVersions_fallback_le by (rewrite ?Ha, ?Hb, ?Hc; auto).
    intros; by etrans.
Qed.

Lemma compareSuffixes_code sa sb :
  VersionSpec.compareSuffixes sa sb = compareSuffix sa sb.
Proof.
  unfold VersionSpec.compareSuffixes, compareSuffix.
  destruct sa, sb; simpl; done.
Qed.

End WithRuntime.

End VersionOrder.

Import Js Version VersionOrder.

(** C3, amended.  [compareVersions] is reflexive, and swapping its arguments
    negates its result; it is transitive on any three version strings of
    which not exactly one lacks numeric parts (all three go through the
    numeric comparison, or every pair falls back to the raw comparison). *)
Theorem compareVersions_preorder `{rt : Runtime} :
  (forall a, compareVersions a a = 0)
  /\ (forall a b, compareVersions b a = - compareVersions a b)
  /\ (forall a b c,
        lacking [a; b; c] <> 1%nat ->
        compareVersions a b <= 0 -> compareVersions b c <= 0 ->
        compareVersions a c <= 0).
Proof.
  split; [exact compareVersions_refl|].
  split; [exact compareVersions_flip|].
  exact compareVersions_trans.
Qed.

Lemma compareVersions_preorder_witness :
  let rt := DecimalRuntime.runtime0 in
  lacking [ "1.2"; "1.10"; "2" ] <> 1%nat
  /\ compareVersions "1.2" "1.10" <= 0
  /\ compareVersions "1.10" "2" <= 0
  /\ compareVersions "1.2" "2" <= 0.
Proof.
  intros rt.
  assert (H1 : lacking [ "1.2"; "1.10"; "2" ] <> 1%nat) by (vm_compute; discriminate).
  assert (H2 : compareVersions "1.2" "1.10" <= 0) by (vm_compute; discriminate).
  assert (H3 : compareVersions "1.10" "2" <= 0) by (vm_compute; discriminate).
  exact (conj H1 (conj H2 (conj H3
    (proj2 (proj2 (compareVersions_preorder (rt := rt))) _ _ _ H1 H2 H3)))).
Defined.

(** C3 as stated fails: "9" is below "10" numerically, "10" is below "1a" as
    a raw string (the parse of "1a" has no numeric parts), but "9" is above
    "1a" as a raw string. *)
Lemma compareVersions_not_transitive :
  let rt := DecimalRuntime.runtime0 in
  ~ (compareVersions "9" "10" <= 0 -> compareVersions "10" "1a" <= 0 ->
     compareVersions "9" "1a" <= 0).
Proof.
  intros rt H.
  assert (Hab : compareVersions "9" "10" = -1) by reflexivity.
  assert (Hbc : compareVersions "10" "1a" = -1) by reflexivity.
  assert (Hac : compareVersions "9" "1a" = 1) by reflexivity.
  rewrite Hab, Hbc, Hac in H. lia.
Qed.

(** C4: the code at the failing input.  The text after the second separator
    is dropped from the suffix, for every runtime, and the two release
    candidates below compare as equal. *)
Theorem parseVersion_suffix_cut `{rt : Runtime} :
  suffix (parseVersion "1.0.0-rc-1") = "rc"
  /\ suffix (parseVersion "1.0-a+b") = "a"
  /\ suffix (parseVersion "1.0.0-rc-1") = suffix (parseVersion "1.0.0-rc-2").
Proof. repeat split. Qed.

Example compareVersions_distinct_candidates_equal :
  let rt := DecimalRuntime.runtime0 in
  compareVersions "1.0.0-rc-1" "1.0.0-rc-2" = 0.
Proof. reflexivity. Qed.

(** C5 as stated fails: with the zeros on the left, "2" against "1.5" would
    compare [0; 2] with [1; 5], while the code compares [2; 0] with [1; 5];
    and "1.2" against "1.2.0" would compare [0; 1; 2] with [1; 2; 0] and
    not be a tie. *)
Lemma compareVersions_not_left_padded :
  let rt := DecimalRuntime.runtime0 in
  "2" <> "1.5"
  /\ compareVersions "2" "1.5"
     <> VersionSpec.compareAsDescribed VersionSpec.PadLeft "2" "1.5"
  /\ compareVersions "1.2" "1.2.0"
     <> VersionSpec.compareAsDescribed VersionSpec.PadLeft "1.2" "1.2.0".
Proof.
  intros rt. split; [discriminate|].
  split; vm_compute; discriminate.
Qed.

(** C5, amended.  For distinct version strings [compareVersions] is the
    comparison of the specification with the zeros added on the right of the
    shorter sequence. *)
Theorem compareVersions_as_described `{rt : Runtime} (a b : string) :
  a <> b ->
  compareVersions a b = VersionSpec.compareAsDescribed VersionSpec.PadRight a b.
Proof.
  intros Hne. unfold compareVersions, VersionSpec.compareAsDescribed.
  destruct (String.eqb_spec a b) as [|_]; [done|].
  destruct (numericParts (parseVersion a)) as [pa|]; [|done].
  destruct (numericParts (parseVersion b)) as [pb|]; [|done].
  rewrite comparePairwise_loop, !padRight_nth by lia.
  by rewrite compareSuffixes_code.
Qed.

Lemma compareVersions_as_described_witness :
  let rt := DecimalRuntime.runtime0 in
  "1.2" <> "1.2.0" /\ compareVersions "1.2" "1.2.0" = 0.
Proof.
  intros rt.
  assert (H : "1.2" <> "1.2.0") by discriminate.
  split; [exact H|].
  rewrite (compareVersions_as_described "1.2" "1.2.0" H). reflexivity.
Defined.

(** * Reasoning about the paths of a script *)

Module Paths.
Import Js Command Trace.

Lemma run_paths {W A} (h : Handler W) (p : Prog A) (w : W) :
  paths p (trace (run h p w)) (outcome (run h p w)).
Proof.
  revert w. induction p as [| | |c k IH|c k IH|path k IH|path k IH
                            |path text k IH|path k IH|s text k IH];
    intros w; simpl; try done.
  - destruct (on_spawn h w c) as [r w']. simpl. eauto.
  - destruct (on_output h w c) as [r w']. simpl. eauto.
  - destruct (on_stat h w path) as [r w']. simpl. eauto.
  - destruct (on_read h w path) as [r w']. simpl. eauto.
  - destruct (on_append h w path text) as [r w']. simpl. eauto.
  - destruct (on_updateReadme h w path) as [r w']. simpl. eauto.
  - eauto.
Qed.

Lemma paths_bind {A B} (p : Prog A) (f : A -> Prog B) t o :
  paths (bind p f) t o <->
  (exists a t1 t2, paths p t1 (Returned a) /\ paths (f a) t2 o /\ t = t1 ++ t2)
  \/ (exists o1, paths p t o1 /\ passed o1 o).
Proof.
  revert t.
  induction p as [a|msg|status|c k IH|c k IH|path k IH|path k IH
                  |path text k IH|path k IH|s text k IH]; intros t; simpl.
  - split.
    + intros Hf. left. exists a, [], t. done.
    + intros [(a' & t1 & t2 & [-> Ea] & Hf & ->)|(o1 & [-> ->] & [])].
      by injection Ea as ->.
  - split.
    + intros [-> ->]. right. by exists (Thrown msg).
    + intros [(a' & t1 & t2 & [_ Ea] & _)|(o1 & [-> ->] & ->)]; done.
  - split.
    + intros [-> ->]. right. by exists (Exited status).
    + intros [(a' & t1 & t2 & [_ Ea] & _)|(o1 & [-> ->] & ->)]; done.
  - split.
    + intros (r & t' & -> & [(a & t1 & t2 & H1 & H2 & ->)|(o1 & H1 & H2)]%IH).
      * left. exists a, (EvSpawn c r :: t1), t2. eauto 10.
      * right. exists o1. eauto 10.
    + intros [(a & t1 & t2 & (r & t' & -> & H1) & H2 & ->)|(o1 & (r & t' & -> & H1) & H2)];
        exists r; eexists; (split; [reflexivity|]); apply IH; eauto 10.
  - split.
    + intros (r & t' & -> & [(a & t1 & t2 & H1 & H2 & ->)|(o1 & H1 & H2)]%IH).
      * left. exists a, (EvOutput c r :: t1), t2. eauto 10.
      * right. exists o1. eauto 10.
    + intros [(a & t1 & t2 & (r & t' & -> & H1) & H2 & ->)|(o1 & (r & t' & -> & H1) & H2)];
        exists r; eexists; (split; [reflexivity|]); apply IH; eauto 10.
  - split.
    + intros (r & t' & -> & [(a & t1 & t2 & H1 & H2 & ->)|(o1 & H1 & H2)]%IH).
      * left. exists a, (EvStat path r :: t1), t2. eauto 10.
      * right. exists o1. eauto 10.
    + intros [(a & t1 & t2 & (r & t' & -> & H1) & H2 & ->)|(o1 & (r & t' & -> & H1) & H2)];
        exists r; eexists; (split; [reflexivity|]); apply IH; eauto 10.
  - split.
    + intros (r & t' & -> & [(a & t1 & t2 & H1 & H2 & ->)|(o1 & H1 & H2)]%IH).
      * left. exists a, (EvRead path r :: t1), t2. eauto 10.
      * right. exists o1. eauto 10.
    + intros [(a & t1 & t2 & (r & t' & -> & H1) & H2 & ->)|(o1 & (r & t' & -> & H1) & H2)];
        exists r; eexists; (split; [reflexivity|]); apply IH; eauto 10.
  - split.
    + intros (r & t' & -> & [(a & t1 & t2 & H1 & H2 & ->)|(o1 & H1 & H2)]%IH).
      * left. exists a, (EvAppend path text r :: t1), t2. eauto 10.
      * right. exists o1. eauto 10.
    + intros [(a & t1 & t2 & (r & t' & -> & H1) & H2 & ->)|(o1 & (r & t' & -> & H1) & H2)];
        exists r; eexists; (split; [reflexivity|]); apply IH; eauto 10.
  - split.
    + intros (r & t' & -> & [(a & t1 & t2 & H1 & H2 & ->)|(o1 & H1 & H2)]%IH).
      * left. exists a, (EvUpdateReadme path r :: t1), t2. eauto 10.
      * right. exists o1. eauto 10.
    + intros [(a & t1 & t2 & (r & t' & -> & H1) & H2 & ->)|(o1 & (r & t' & -> & H1) & H2)];
        exists r; eexists; (split; [reflexivity|]); apply IH; eauto 10.
  - split.
    + intros (t' & -> & [(a & t1 & t2 & H1 & H2 & ->)|(o1 & H1 & H2)]%IH).
      * left. exists a, (EvLog s text :: t1), t2. eauto 10.
      * right. exists o1. eauto 10.
    + intros [(a & t1 & t2 & (t' & -> & H1) & H2 & ->)|(o1 & (t' & -> & H1) & H2)];
        eexists; (split; [reflexivity|]); apply IH; eauto 10.
Qed.

Lemma paths_mbind {A B} (p : Prog A) (f : A -> Prog B) t o :
  paths (p ≫= f) t o ->
  (exists a t1 t2, paths p t1 (Returned a) /\ paths (f a) t2 o /\ t = t1 ++ t2)
  \/ (exists o1, paths p t o1 /\ passed o1 o).
Proof. apply paths_bind. Qed.

Lemma paths_tryCatch {A} (p : Prog A) (handler : string -> Prog A) t o :
  paths (tryCatch p handler) t o ->
  (paths p t o /\ forall msg, o <> Thrown msg)
  \/ (exists msg t1 t2,
        paths p t1 (Thrown msg) /\ paths (handler msg) t2 o /\ t = t1 ++ t2).
Proof.
  revert t.
  induction p as [a|msg|status|c k IH|c k IH|path k IH|path k IH
                  |path text k IH|path k IH|s text k IH]; intros t; simpl.
  - intros [-> ->]. left. done.
  - intros Hh. right. exists msg, [], t. done.
  - intros [-> ->]. left. done.
  - intros (r & t' & -> & [[H1 H2]|(msg & t1 & t2 & H1 & H2 & ->)]%IH).
    + left. eauto 10.
    + right. exists msg, (EvSpawn c r :: t1), t2. eauto 10.
  - intros (r & t' & -> & [[H1 H2]|(msg & t1 & t2 & H1 & H2 & ->)]%IH).
    + left. eauto 10.
    + right. exists msg, (EvOutput c r :: t1), t2. eauto 10.
  - intros (r & t' & -> & [[H1 H2]|(msg & t1 & t2 & H1 & H2 & ->)]%IH).
    + left. eauto 10.
    + right. exists msg, (EvStat path r :: t1), t2. eauto 10.
  - intros (r & t' & -> & [[H1 H2]|(msg & t1 & t2 & H1 & H2 & ->)]%IH).
    + left. eauto 10.
    + right. exists msg, (EvRead path r :: t1), t2. eauto 10.
  - intros (r & t' & -> & [[H1 H2]|(msg & t1 & t2 & H1 & H2 & ->)]%IH).
    + left. eauto 10.
    + right. exists msg, (EvAppend path text r :: t1), t2. eauto 10.
  - intros (r & t' & -> & [[H1 H2]|(msg & t1 & t2 & H1 & H2 & ->)]%IH).
    + left. eauto 10.
    + right. exists msg, (EvUpdateReadme path r :: t1), t2. eauto 10.
  - intros (t' & -> & [[H1 H2]|(msg & t1 & t2 & H1 & H2 & ->)]%IH).
    + left. eauto 10.
    + right. exists msg, (EvLog s text :: t1), t2. eauto 10.
Qed.

Lemma safe_paths {A} (E : Event -> Prop) (p : Prog A) t o :
  safe E p -> paths p t o -> Forall E t.
Proof.
  revert t.
  induction p as [a|msg|status|c k IH|c k IH|path k IH|path k IH
                  |path text k IH|path k IH|s text k IH]; intros t; simpl;
    try (intros _ [-> _]; constructor);
    try (intros Hs (r & t' & -> & Hp); destruct (Hs r) as [He Hk];
         constructor; [done | by eapply IH]).
  intros [He Hk] (t' & -> & Hp). constructor; [done | by apply IH].
Qed.

Lemma safe_bind {A B} (E : Event -> Prop) (p : Prog A) (f : A -> Prog B) :
  safe E p -> (forall a, safe E (f a)) -> safe E (bind p f).
Proof.
  intros Hp Hf.
  induction p as [a|msg|status|c k IH|c k IH|path k IH|path k IH
                  |path text k IH|path k IH|s text k IH]; simpl in *;
    try done; try (intros r; destruct (Hp r); split; [done | by apply IH]).
  destruct Hp. split; [done | by apply IH].
Qed.

Lemma safe_tryCatch {A} (E : Event -> Prop) (p : Prog A) handler :
  safe E p -> (forall msg, safe E (handler msg)) -> safe E (tryCatch p handler).
Proof.
  intros Hp Hf.
  induction p as [a|msg|status|c k IH|c k IH|path k IH|path k IH
                  |path text k IH|path k IH|s text k IH]; simpl in *;
    try done; try (intros r; destruct (Hp r); split; [done | by apply IH]).
  destruct Hp. split; [done | by apply IH].
Qed.

Lemma safe_forEach {X} (E : Event -> Prop) (xs : list X) body :
  (forall x, safe E (body x)) -> safe E (forEach xs body).
Proof.
  intros Hb. induction xs as [|x xs IH]; simpl; [done|].
  apply safe_bind; [done | by intros _].
Qed.

Lemma safe_impl {A} (E E' : Event -> Prop) (p : Prog A) :
  (forall e, E e -> E' e) -> safe E p -> safe E' p.
Proof.
  intros HE.
  induction p as [a|msg|status|c k IH|c k IH|path k IH|path k IH
                  |path text k IH|path k IH|s text k IH]; simpl;
    try done; try (intros Hp r; destruct (Hp r); split; [by apply HE | by apply IH]).
  intros [? ?]. split; [by apply HE | by apply IH].
Qed.

(** ** Composition of [leads] *)

Lemma leads_here {A} (E : Event -> Prop) (p : Prog A) : leads E p (paths p).
Proof. intros t o Hp. right. exists [], t. done. Qed.

Lemma leads_safe {A} (E : Event -> Prop) (p : Prog A) Q : safe E p -> leads E p Q.
Proof. intros Hs t o Hp. left. by eapply safe_paths. Qed.

Lemma leads_bind {A B} (E : Event -> Prop) (p : Prog A) (f : A -> Prog B) Q :
  safe E p -> (forall a, leads E (f a) Q) -> leads E (bind p f) Q.
Proof.
  intros Hs Hf t o [(a & t1 & t2 & H1 & H2 & ->)|(o1 & H1 & H2)]%paths_bind.
  - pose proof (safe_paths _ _ _ _ Hs H1) as Ht1.
    destruct (Hf a _ _ H2) as [Ht2|(t3 & t4 & -> & Ht3 & HQ)].
    + left. by apply Forall_app.
    + right. exists (t1 ++ t3), t4. rewrite app_assoc.
      split; [done|]. split; [by apply Forall_app | done].
  - left. by eapply safe_paths.
Qed.

Lemma leads_trans {A} (E : Event -> Prop) (p q : Prog A) Q :
  leads E p (paths q) -> leads E q Q -> leads E p Q.
Proof.
  intros Hp Hq t o [Ht|(t1 & t2 & -> & Ht1 & H2)]%Hp; [by left|].
  destruct (Hq _ _ H2) as [Ht2|(t3 & t4 & -> & Ht3 & HQ)].
  - left. by apply Forall_app.
  - right. exists (t1 ++ t3), t4. rewrite app_assoc.
    split; [done|]. split; [by apply Forall_app | done].
Qed.

Lemma leads_impl {A} (E E' : Event -> Prop) (p : Prog A) Q Q' :
  (forall e, E e -> E' e) -> (forall t o, Q t o -> Q' t o) ->
  leads E p Q -> leads E' p Q'.
Proof.
  intros HE HQ Hp t o [Ht|(t1 & t2 & -> & Ht1 & H2)]%Hp.
  - left. by eapply Forall_impl.
  - right. exists t1, t2. split; [done|]. split; [by eapply Forall_impl | auto].
Qed.

Lemma leads_log {A} (E : Event -> Prop) s text (k : Prog A) Q :
  E (EvLog s text) -> leads E k Q -> leads E (Log s text k) Q.
Proof.
  intros He Hk t o (t' & -> & [Ht|(t1 & t2 & -> & Ht1 & H2)]%Hk).
  - left. by constructor.
  - right. exists (EvLog s text :: t1), t2. split; [done|].
    split; [by constructor | done].
Qed.

Lemma leads_spawn {A} (E : Event -> Prop) c (k : Z -> Prog A) Q :
  (forall r, E (EvSpawn c r) /\ leads E (k r) Q) -> leads E (Spawn c k) Q.
Proof.
  intros Hk t o (r & t' & -> & Hp). destruct (Hk r) as [He Hl].
  destruct (Hl _ _ Hp) as [Ht|(t1 & t2 & -> & Ht1 & H2)].
  - left. by constructor.
  - right. exists (EvSpawn c r :: t1), t2. split; [done|].
    split; [by constructor | done].
Qed.

Lemma leads_output {A} (E : Event -> Prop) c (k : CapturedOutput -> Prog A) Q :
  (forall r, E (EvOutput c r) /\ leads E (k r) Q) -> leads E (Output c k) Q.
Proof.
  intros Hk t o (r & t' & -> & Hp). destruct (Hk r) as [He Hl].
  destruct (Hl _ _ Hp) as [Ht|(t1 & t2 & -> & Ht1 & H2)].
  - left. by constructor.
  - right. exists (EvOutput c r :: t1), t2. split; [done|].
    split; [by constructor | done].
Qed.

Lemma leads_updateReadme {A} (E : Event -> Prop) path (k : option string -> Prog A) Q :
  (forall r, E (EvUpdateReadme path r) /\ leads E (k r) Q) ->
  leads E (UpdateReadme path k) Q.
Proof.
  intros Hk t o (r & t' & -> & Hp). destruct (Hk r) as [He Hl].
  destruct (Hl _ _ Hp) as [Ht|(t1 & t2 & -> & Ht1 & H2)].
  - left. by constructor.
  - right. exists (EvUpdateReadme path r :: t1), t2. split; [done|].
    split; [by constructor | done].
Qed.

End Paths.

(** * Candidate discovery *)

Module DiscoveryFacts.
Import Js Command Trace DiscoverUpdates Paths VersionOrder.

Lemma strictlyAscending_sort (keys : list string) :
  NoDup keys -> strictlyAscending (sortStrings keys).
Proof.
  intros Hnd. unfold strictlyAscending, sortStrings.
  assert (Hs : StronglySorted String.le (merge_sort String.le keys))
    by (apply StronglySorted_merge_sort; apply _).
  assert (Hn : NoDup (merge_sort String.le keys))
    by (by rewrite merge_sort_Permutation).
  induction Hs as [|x l Hs IH Hx]; [constructor|].
  apply NoDup_cons in Hn as [Hx' Hn].
  constructor; [by apply IH|].
  rewrite Forall_forall in Hx |- *. intros y Hy.
  apply le_ltb; [by apply Hx|].
  intros ->. apply Hx'. by apply list_elem_of_In.
Qed.

Lemma strictlyAscending_omap {B} (f : string -> option B) (g : B -> string) l :
  (forall x y, f x = Some y -> g y = x) ->
  strictlyAscending l -> strictlyAscending (map g (omap f l)).
Proof.
  intros Hfg. unfold strictlyAscending.
  induction 1 as [|x l Hs IH Hx]; simpl; [constructor|].
  destruct (f x) as [y|] eqn:E; [|done].
  simpl. constructor; [done|].
  rewrite (Hfg _ _ E). rewrite Forall_forall in Hx |- *.
  intros z Hz. apply list_elem_of_In, in_map_iff in Hz as [b [<- Hb]].
  apply list_elem_of_In, list_elem_of_omap in Hb as (x' & Hx' & Hf).
  rewrite (Hfg _ _ Hf). by apply Hx.
Qed.

Lemma strictlyAscending_filter (P : string -> bool) l :
  strictlyAscending l -> strictlyAscending (List.filter P l).
Proof.
  unfold strictlyAscending.
  induction 1 as [|x l Hs IH Hx]; simpl; [constructor|].
  destruct (P x); [|done]. constructor; [done|].
  rewrite Forall_forall in Hx |- *. intros y Hy.
  apply Hx. apply list_elem_of_In, filter_In in Hy as [Hy _].
  by apply list_elem_of_In.
Qed.

Lemma NoDup_List_filter {A} (P : A -> bool) (l : list A) :
  NoDup l -> NoDup (List.filter P l).
Proof.
  induction 1 as [|x l Hx Hl IH]; simpl; [constructor|].
  destruct (P x); [|done]. constructor; [|done].
  intros [Hin _]%list_elem_of_In%filter_In. by apply Hx, list_elem_of_In.
Qed.

Section WithRuntime.
Context `{rt : Runtime}.

Lemma ownKeys_NoDup v keys : ownKeys v = Some keys -> NoDup keys.
Proof.
  assert (Inj (=) (=) (fun i => String_of_number (Z.of_nat i))).
  { intros i j Hij. apply String_of_number_inj in Hij. lia. }
  destruct v as [|b|n|s|items|fields]; simpl; try done;
    intros [= <-]; try constructor.
  - apply (NoDup_fmap_2 (fun i => String_of_number (Z.of_nat i))), NoDup_seq.
  - apply (NoDup_fmap_2 (fun i => String_of_number (Z.of_nat i))), NoDup_seq.
  - apply NoDup_fst_map_to_list.
Qed.

Lemma lockedRev_paths node t o : paths (lockedRev node) t o -> t = [].
Proof.
  unfold lockedRev.
  destruct (match node with Data v => getProp v "locked" | _ => None end)
    as [[]|]; simpl;
    repeat match goal with
           | |- context [match ?x with _ => _ end] => destruct x; simpl
           end; by intros [-> _].
Qed.

Lemma collectInputs_paths nodes names items t o :
  paths (collectInputs nodes names items) t o ->
  t = []
  /\ forall items', o = Returned items' ->
       map name items'
       = map name items
         ++ List.filter (fun n => truthyMember (member nodes n)) names.
Proof.
  revert items t. induction names as [|n names IH]; intros items t; simpl.
  - intros [-> ->]. split; [done|]. intros ? [= <-]. by rewrite app_nil_r.
  - destruct (truthyMember (member nodes n)) eqn:E; simpl; [|apply IH].
    intros [(rev & t1 & t2 & H1 & H2 & ->)|(o1 & H1 & H2)]%paths_mbind.
    + apply lockedRev_paths in H1 as ->. apply IH in H2 as [-> H2].
      split; [done|]. intros items' Ho. rewrite (H2 _ Ho), map_app. simpl.
      by rewrite <- app_assoc.
    + pose proof (lockedRev_paths _ _ _ H1) as ->. split; [done|].
      intros items' ->. by destruct o1.
Qed.

(** Every path of [discoverFlakeInputs]. *)
Lemma discoverFlakeInputs_paths inputsFilter t o :
  paths (discoverFlakeInputs inputsFilter) t o ->
  exists r t',
    t = EvLog Out "Discovering flake inputs..." :: EvStat "flake.lock" r :: t'
    /\ ((r <> StatOk /\ o = Returned []
         /\ t' = [EvLog Out "No flake.lock found, skipping input updates"])
        \/ (r = StatOk /\ exists content, t' = [EvRead "flake.lock" content]
            /\ (filterNames inputsFilter = None ->
                forall items, o = Returned items ->
                strictlyAscending (map name items)))).
Proof.
  unfold discoverFlakeInputs. cbn.
  intros (t1 & -> & r & t2 & -> & H). exists r, t2. split; [done|].
  destruct r as [|msg|msg]; cbn in H;
    try (destruct H as (t' & -> & -> & ->); by left).
  right. split; [done|]. destruct H as (content & t3 & -> & H).
  exists content.
  destruct content as [text|msg]; cbn in H.
  2:{ destruct H as [-> ->]. split; [done|]. by intros _ items. }
  unfold jsonParse in H.
  destruct (JSON_parse text) as [lockData|]; cbn in H.
  2:{ destruct H as [-> ->]. split; [done|]. by intros _ items. }
  set (nodes := lockNodes lockData) in H.
  destruct (filterNames inputsFilter) as [names|].
  { apply collectInputs_paths in H as [-> _]. by split. }
  destruct (ownKeys nodes) as [keys|] eqn:Hkeys.
  2:{ destruct H as [-> ->]. split; [done|]. by intros _ items. }
  apply collectInputs_paths in H as [-> H]. split; [done|].
  intros _ items Ho. rewrite (H _ Ho). simpl.
  apply strictlyAscending_filter, strictlyAscending_sort.
  apply NoDup_List_filter. by eapply ownKeys_NoDup.
Qed.

Lemma pickPackage_name versions n item :
  pickPackage versions n = Some item -> name item = n.
Proof.
  unfold pickPackage. destruct (getProp versions n) as [[]|]; try done;
    by intros [= <-].
Qed.

Lemma collectPackages_paths filtered versions names items t o :
  paths (collectPackages filtered versions names items) t o ->
  o = Returned (items ++ omap (pickPackage versions) names) /\ Forall isLog t.
Proof.
  revert items t. induction names as [|n names IH]; intros items t; simpl.
  - intros [-> ->]. by rewrite app_nil_r.
  - unfold pickPackage.
    destruct (getProp versions n) as [[]|];
      try (intros H; apply IH in H as [-> Ht]; by rewrite <- app_assoc).
    + destruct filtered; simpl.
      * apply IH.
      * intros (t' & -> & H). apply IH in H as [-> Ht]. by split; [|constructor].
    + destruct filtered; simpl.
      * apply IH.
      * intros (t' & -> & H). apply IH in H as [-> Ht]. by split; [|constructor].
Qed.

(** The second loop of [discoverPackages] logs one warning for each
    requested name that is no key of the result. *)
Lemma warnings_paths (keys requested : list string) t (o : Outcome unit) :
  paths (forEach requested (fun pkg =>
           if negb (bool_decide (pkg ∈ keys))
           then consoleLog ("Warning: Package " +:+ pkg
                            +:+ " not found or has no version")
           else Ret tt)) t o ->
  o = Returned tt
  /\ Forall isLog t
  /\ forall r, r ∈ requested -> r ∉ keys ->
       In (EvLog Out ("Warning: Package " +:+ r
                      +:+ " not found or has no version")) t.
Proof.
  revert t. induction requested as [|x xs IH]; intros t; simpl.
  - intros [-> ->]. repeat split; [constructor|]. intros r Hr. by apply elem_of_nil in Hr.
  - case_bool_decide as Hx; simpl.
    + intros H. apply IH in H as (-> & Ht & Hw). repeat split; [done|].
      intros r [->|Hr]%elem_of_cons Hn; [done | by apply Hw].
    + intros (t' & -> & H). apply IH in H as (-> & Ht & Hw).
      repeat split; [by constructor|].
      intros r [->|Hr]%elem_of_cons Hn; [by left | right; by apply Hw].
Qed.

(** Every path of [discoverPackages]. *)
Lemma discoverPackages_paths env filter system t o :
  paths (discoverPackages env filter system) t o ->
  exists c out t',
    t = EvLog Out "Discovering packages..." :: EvOutput c out :: t'
    /\ Forall isLog t'
    /\ ((code out <> 0 /\ o = Returned []
         /\ t' = [EvLog Err ("Failed to evaluate packages:"
                              +:+ String "010" EmptyString +:+ stderr out)])
        \/ (code out = 0 /\ JSON_parse (stdout out) = None
            /\ exists msg, o = Thrown msg)
        \/ (code out = 0 /\ exists versions,
              JSON_parse (stdout out) = Some versions
              /\ ((ownKeys versions = None /\ exists msg, o = Thrown msg)
                  \/ exists keys,
                      ownKeys versions = Some keys
                      /\ o = Returned (omap (pickPackage versions)
                                            (sortStrings keys))
                      /\ forall names r,
                           filterNames filter = Some names ->
                           r ∈ names -> r ∉ keys ->
                           In (EvLog Out ("Warning: Package " +:+ r
                                 +:+ " not found or has no version")) t'))).
Proof.
  unfold discoverPackages. cbn.
  intros (t1 & -> & out & t2 & -> & H). eexists _, out, t2.
  split; [reflexivity|]. revert H.
  destruct (Z.eqb_spec (code out) 0) as [Hc|Hc]; cbn.
  2:{ intros (t' & -> & -> & ->). split; [by repeat constructor|]. by left. }
  unfold jsonParse.
  destruct (JSON_parse (stdout out)) as [versions|] eqn:Hparse; cbn.
  2:{ intros [-> ->]. split; [constructor|]. right. left. eauto. }
  destruct (ownKeys versions) as [keys|] eqn:Hkeys; cbn.
  2:{ intros [-> ->]. split; [constructor|]. right. right.
      split; [done|]. exists versions. split; [done|]. left. eauto. }
  intros [(items & t3 & t4 & H1 & H2 & ->)|(o1 & H1 & H2)]%paths_mbind.
  2:{ apply collectPackages_paths in H1 as [-> _]. done. }
  apply collectPackages_paths in H1 as [[= ->] Ht3].
  apply paths_mbind in H2 as [(u & t5 & t6 & H2 & [-> ->] & ->)|(o1 & H2 & H3)].
  - rewrite app_nil_r.
    assert (Hw : Forall isLog t5 /\ forall names r,
               filterNames filter = Some names -> r ∈ names -> r ∉ keys ->
               In (EvLog Out ("Warning: Package " +:+ r
                              +:+ " not found or has no version")) t5).
    { destruct (filterNames filter) as [names|].
      - apply warnings_paths in H2 as (_ & Ht5 & Hw). split; [done|].
        intros ? r [= <-]. apply Hw.
      - destruct H2 as [-> _]. by split; [constructor|]. }
    destruct Hw as [Ht5 Hw]. split; [by apply Forall_app|].
    right. right. split; [done|]. exists versions. split; [done|]. right.
    exists keys. split; [done|]. split; [done|].
    intros names r Hf Hr Hn. apply in_or_app. right. by eapply Hw.
  - destruct (filterNames filter) as [names|].
    + apply warnings_paths in H2 as (-> & _). done.
    + destruct H2 as [_ ->]. done.
Qed.

(** *** What the index query denotes *)

Lemma evalExpr_filtered pkgs names n :
  evalExpr pkgs (Some names) !! n
  = if decide (n ∈ names)
    then match pkgs !! n with
         | Some (Some v) => Some (JStr v)
         | _ => None
         end
    else None.
Proof.
  unfold evalExpr.
  set (f := fun name : string =>
              match pkgs !! name with
              | Some (Some v) => Some (name, JStr v)
              | _ => None
              end).
  induction names as [|x names IH].
  - rewrite decide_False by apply not_elem_of_nil. apply lookup_empty.
  - assert (Hcons : omap f (x :: names)
                    = match f x with
                      | Some y => y :: omap f names
                      | None => omap f names
                      end) by done.
    rewrite Hcons. clear Hcons.
    destruct (decide (x = n)) as [->|Hne].
    + rewrite (decide_True (P := n ∈ n :: names)) by set_solver.
      unfold f at 1. destruct (pkgs !! n) as [[v|]|] eqn:Ex.
      * by rewrite list_to_map_cons, lookup_insert_eq.
      * rewrite IH. by destruct (decide _).
      * rewrite IH. by destruct (decide _).
    + assert (Hin : n ∈ x :: names <-> n ∈ names)
        by (rewrite elem_of_cons; split; [intros [->|?]; done | by right]).
      rewrite (decide_ext _ _ _ _ Hin), <- IH.
      unfold f at 1. destruct (pkgs !! x) as [[v|]|]; try done.
      by rewrite list_to_map_cons, lookup_insert_ne.
Qed.

Lemma evalExpr_versioned pkgs filter n :
  (exists v, evalExpr pkgs filter !! n = Some v /\ v <> JNull)
  <-> resolvable pkgs n /\ requested filter n.
Proof.
  unfold resolvable, requested. destruct filter as [names|].
  - rewrite evalExpr_filtered. destruct (decide (n ∈ names)) as [Hn|Hn].
    + destruct (pkgs !! n) as [[v|]|].
      * split; [intros _; split; [by exists v | done]
               | intros _; by exists (JStr v)].
      * split; [intros (v' & Hv & _); done | intros [(v' & Hv) _]; done].
      * split; [intros (v' & Hv & _); done | intros [(v' & Hv) _]; done].
    + split; [intros (v & Hv & _); done | intros [_ ?]; done].
  - unfold evalExpr. rewrite lookup_fmap.
    destruct (pkgs !! n) as [[v|]|]; simpl.
    + split; [intros _; split; [by exists v | done]
             | intros _; by exists (JStr v)].
    + split; [intros (v' & [= <-] & Hv); done | intros [(v' & Hv) _]; done].
    + split; [intros (v' & Hv & _); done | intros [(v' & Hv) _]; done].
Qed.

Lemma pickPackage_names fields keys n :
  ownKeys (JObj fields) = Some keys ->
  n ∈ map name (omap (pickPackage (JObj fields)) (sortStrings keys))
  <-> exists v, fields !! n = Some v /\ v <> JNull.
Proof.
  simpl. intros [= <-]. split.
  - intros Hn. apply list_elem_of_In, in_map_iff in Hn as [item [<- Hi]].
    apply list_elem_of_In, list_elem_of_omap in Hi as (k & _ & Hk).
    rewrite (pickPackage_name _ _ _ Hk).
    unfold pickPackage in Hk. simpl in Hk.
    destruct (fields !! k) as [v|]; [|done]. exists v. split; [done|].
    by intros ->.
  - intros (v & Hv & Hnull).
    apply list_elem_of_In, in_map_iff.
    exists {| type := package; name := n; current_version := v |}.
    split; [done|]. apply list_elem_of_In, list_elem_of_omap. exists n. split.
    + unfold sortStrings. rewrite merge_sort_Permutation.
      apply list_elem_of_In, in_map_iff. exists (n, v). split; [done|].
      by apply list_elem_of_In, elem_of_map_to_list.
    + unfold pickPackage. simpl. rewrite Hv. by destruct v.
Qed.

Lemma ownKeys_lookup fields keys n :
  ownKeys (JObj fields) = Some keys -> n ∈ keys -> is_Some (fields !! n).
Proof.
  simpl. intros [= <-] Hn.
  apply list_elem_of_In, in_map_iff in Hn as [[k v] [<- Hkv]].
  apply list_elem_of_In, elem_of_map_to_list in Hkv. by exists v.
Qed.

End WithRuntime.
End DiscoveryFacts.

Import Js Command Trace DiscoverUpdates Paths DiscoveryFacts.

(** X26.  On every path of [discoverPackages] on which the index
    query succeeds and answers with what its expression denotes over the
    packages [pkgs], the function returns (no error is thrown); the names of
    the items are strictly ascending; an item is emitted exactly for the
    names that have a resolvable version and were asked for, so a requested
    name that is absent or has no version is excluded, as is any name
    without a version when no filter is given; and each such requested name
    gets its warning on the console.  The names of the items of
    [discoverFlakeInputs] are strictly ascending when no input filter is
    given. *)
Theorem discovery_names `{rt : Runtime} :
  (forall env filter system pkgs t o c out,
     paths (discoverPackages env filter system) t o ->
     In (EvOutput c out) t ->
     code out = 0 ->
     JSON_parse (stdout out) = Some (JObj (evalExpr pkgs (filterNames filter))) ->
     exists items,
       o = Returned items
       /\ strictlyAscending (map name items)
       /\ (forall n, n ∈ map name items
                     <-> resolvable pkgs n /\ requested (filterNames filter) n)
       /\ (forall names r,
             filterNames filter = Some names -> r ∈ names ->
             ~ resolvable pkgs r ->
             In (EvLog Out ("Warning: Package " +:+ r
                            +:+ " not found or has no version")) t))
  /\ (forall inputsFilter t items,
        filterNames inputsFilter = None ->
        paths (discoverFlakeInputs inputsFilter) t (Returned items) ->
        strictlyAscending (map name items)).
Proof.
  split.
  - intros env filter system pkgs t o c out Hp Hin Hcode Hparse.
    apply discoverPackages_paths in Hp as (c' & out' & t' & -> & Hlogs & Hcases).
    assert (out' = out) as ->.
    { destruct Hin as [|[Hin|Hin]]; [done | by injection Hin |].
      rewrite Forall_forall in Hlogs.
      by apply list_elem_of_In, Hlogs in Hin. }
    destruct Hcases as [[Hne _]|[(_ & Hnone & _)|(_ & versions & Hv & Hcases)]];
      [done | congruence |].
    rewrite Hparse in Hv. injection Hv as <-.
    destruct Hcases as [[Hk _]|(keys & Hkeys & -> & Hwarn)]; [done|].
    eexists. split; [done|]. split; [|split].
    + apply strictlyAscending_omap; [apply pickPackage_name|].
      apply strictlyAscending_sort. by eapply ownKeys_NoDup.
    + intros n. rewrite (pickPackage_names _ _ _ Hkeys). apply evalExpr_versioned.
    + intros names r Hf Hr Hres. right. right. eapply Hwarn; [done..|].
      intros Hk. apply (ownKeys_lookup _ _ _ Hkeys) in Hk as [v Hv].
      rewrite Hf, evalExpr_filtered in Hv. apply Hres.
      destruct (decide (r ∈ names)); [|done].
      unfold resolvable. destruct (pkgs !! r) as [[v'|]|]; [by exists v' | done..].
  - intros inputsFilter t items Hf Hp.
    apply discoverFlakeInputs_paths in Hp as (r & t' & -> & [(_ & Hi & _)|(_ & c & _ & H)]);
      [|by apply H].
    injection Hi as ->. constructor.
Qed.

Lemma discovery_names_witness :
  let rt := DecimalRuntime.runtime [Worlds.indexAnswer (Some ["foo"; "baz"])] in
  let r := run (Worlds.indexWorld (Some ["foo"; "baz"]))
               (discoverPackages ∅ (Some "foo baz") "x86_64-linux") tt in
  map name (match outcome r with Returned items => items | _ => [] end) = ["foo"]
  /\ exists items,
       outcome r = Returned items
       /\ strictlyAscending (map name items)
       /\ (forall n, n ∈ map name items
                     <-> resolvable Worlds.index n
                         /\ requested (filterNames (Some "foo baz")) n)
       /\ (forall names r',
             filterNames (Some "foo baz") = Some names -> r' ∈ names ->
             ~ resolvable Worlds.index r' ->
             In (EvLog Out ("Warning: Package " +:+ r'
                            +:+ " not found or has no version")) (trace r)).
Proof.
  intros rt r. split; [reflexivity|].
  refine (proj1 (discovery_names (rt := rt)) ∅ (Some "foo baz") "x86_64-linux"
            Worlds.index (trace r) (outcome r) _
            {| code := 0; stdout := DecimalRuntime.stringify
                                      (Worlds.indexAnswer (Some ["foo"; "baz"]));
               stderr := "" |}
            (run_paths _ _ _) _ _ _).
  - right. left. reflexivity.
  - reflexivity.
  - vm_compute. reflexivity.
Defined.

(** C8: the code on the path that the claim fails on.  With an input filter
    [discoverFlakeInputs] neither sorts the names nor drops a repetition:
    the names of the items are the names of the filter for which the lock
    document holds a truthy member, in the order and with the repetitions of
    the filter. *)
Theorem filtered_inputs_follow_filter `{rt : Runtime}
    inputsFilter names t items text doc :
  filterNames inputsFilter = Some names ->
  paths (discoverFlakeInputs inputsFilter) t (Returned items) ->
  In (EvRead "flake.lock" (inl text)) t ->
  JSON_parse text = Some doc ->
  map name items
  = List.filter (fun n => truthyMember (member (lockNodes doc) n)) names.
Proof.
  intros Hf Hp Hin Hparse. revert Hp. unfold discoverFlakeInputs. cbn.
  intros (t0 & -> & r & t3 & -> & H).
  destruct r as [|msg|msg]; cbn in H.
  2,3: destruct H as (t' & -> & -> & _);
    destruct Hin as [|[|[|[]]]]; discriminate.
  destruct H as (content & t4 & -> & H).
  destruct content as [text'|msg]; cbn in H; [|by destruct H].
  unfold jsonParse in H.
  destruct (JSON_parse text') as [lockData|] eqn:Hparse'; cbn in H;
    [|by destruct H].
  rewrite Hf in H. apply collectInputs_paths in H as [-> H].
  destruct Hin as [|[|[Hin|[]]]]; try discriminate.
  injection Hin as ->. rewrite Hparse in Hparse'. injection Hparse' as <-.
  by apply H.
Qed.

Lemma filtered_inputs_follow_filter_witness :
  let rt := DecimalRuntime.runtime [Worlds.lockDocument] in
  let r := run Worlds.lockWorld
               (discoverFlakeInputs (Some "nixpkgs flake-utils")) tt in
  let items := match outcome r with Returned items => items | _ => [] end in
  map name items = ["nixpkgs"; "flake-utils"]
  /\ ~ strictlyAscending (map name items).
Proof.
  intros rt r items.
  assert (H : map name items
              = List.filter (fun n => truthyMember
                                        (member (lockNodes Worlds.lockDocument) n))
                            ["nixpkgs"; "flake-utils"]).
  { apply (filtered_inputs_follow_filter (rt := rt) (Some "nixpkgs flake-utils")
             ["nixpkgs"; "flake-utils"] (trace r) items
             (DecimalRuntime.stringify Worlds.lockDocument) Worlds.lockDocument).
    - reflexivity.
    - assert (E : outcome r = Returned items) by (vm_compute; reflexivity).
      rewrite <- E. apply run_paths.
    - apply (nth_error_In _ 2). vm_compute. reflexivity.
    - vm_compute. reflexivity. }
  rewrite H. split; [vm_compute; reflexivity|].
  intros Hs. vm_compute in Hs. apply StronglySorted_inv in Hs as [_ Hs].
  apply Forall_inv in Hs. discriminate.
Defined.

(** C9.  On every path of [discoverPackages] on which the index query ends
    with a non-zero code, the failure is written to the error console and
    the function returns the empty list; on every path of
    [discoverFlakeInputs] on which [Deno.stat] finds no lock document, the
    function returns the empty list; and when both happen and no output file
    is configured, [main] runs to its end and reports that there are no
    items. *)
Theorem discovery_degrades `{rt : Runtime} :
  (forall env filter system t o c out,
     paths (discoverPackages env filter system) t o ->
     In (EvOutput c out) t -> code out <> 0 ->
     o = Returned []
     /\ In (EvLog Err ("Failed to evaluate packages:"
                       +:+ String "010" EmptyString +:+ stderr out)) t)
  /\ (forall inputsFilter t o r,
        paths (discoverFlakeInputs inputsFilter) t o ->
        In (EvStat "flake.lock" r) t -> r <> StatOk ->
        o = Returned [])
  /\ (forall env t o,
        paths (main env) t o ->
        getEnv env "GITHUB_OUTPUT" "" = "" ->
        (forall c out, In (EvOutput c out) t -> code out <> 0) ->
        (forall r, In (EvStat "flake.lock" r) t -> r <> StatOk) ->
        o = Returned tt
        /\ In (EvLog Out "No items to update") t
        /\ In (EvLog Out "has_items=false") t).
Proof.
  split; [|split].
  - intros env filter system t o c out Hp Hin Hcode.
    apply discoverPackages_paths in Hp as (c' & out' & t' & -> & Hlogs & Hcases).
    assert (out' = out) as ->.
    { destruct Hin as [|[Hin|Hin]]; [done | by injection Hin |].
      rewrite Forall_forall in Hlogs.
      by apply list_elem_of_In, Hlogs in Hin. }
    destruct Hcases as [(_ & -> & ->)|[(Hz & _)|(Hz & _)]]; [|done..].
    split; [done|]. right. right. by left.
  - intros inputsFilter t o r Hp Hin Hr.
    apply discoverFlakeInputs_paths in Hp
      as (r' & t' & -> & [(_ & -> & _)|(-> & content & -> & _)]); [done|].
    destruct Hin as [|[Hin|[|[]]]]; try done. by injection Hin as <-.
  - intros env t o Hp Hout Hq Hs. unfold main in Hp.
    cbn -[discoverPackages discoverFlakeInputs] in Hp.
    destruct Hp as (? & -> & ? & -> & ? & -> & ? & -> & ? & -> & Hp).
    apply paths_bind in Hp as [(found & t1 & t2 & H1 & Hp & ->)|(o1 & H1 & H2)].
    2:{ apply discoverPackages_paths in H1 as (c & out & t' & -> & _ & Hcases).
        assert (code out <> 0) by (eapply Hq; do 6 right; by left).
        destruct Hcases as [(_ & -> & _)|[(Hz & _)|(Hz & _)]]; done. }
    apply discoverPackages_paths in H1 as (c & out & t' & -> & _ & Hcases).
    assert (code out <> 0)
      by (eapply Hq; do 5 right; apply in_or_app; left; right; by left).
    destruct Hcases as [(_ & [= ->] & ->)|[(Hz & _)|(Hz & _)]]; [|done..].
    apply paths_bind in Hp as [(locked & t3 & t4 & H3 & Hp & ->)|(o1 & H3 & H4)].
    2:{ apply discoverFlakeInputs_paths in H3
          as (r & t'' & -> & [(_ & -> & _)|(-> & _)]); [done|].
        exfalso. eapply (Hs StatOk); [|done]. do 9 right. by left. }
    apply discoverFlakeInputs_paths in H3
      as (r & t'' & -> & [(_ & [= ->] & ->)|(-> & _)]).
    2:{ exfalso. eapply (Hs StatOk); [|done]. do 9 right. by left. }
    unfold appendGithubOutput in Hp. rewrite Hout in Hp. cbn in Hp.
    destruct Hp as (? & -> & ? & -> & ? & -> & ? & -> & ? & -> & ? & -> & ? & -> & -> & ->).
    split; [done|]. split.
    + do 13 right. by left.
    + do 17 right. by left.
Qed.

Lemma discovery_degrades_witness :
  let rt := DecimalRuntime.runtime0 in
  let r := run Worlds.offline (main ∅) tt in
  outcome r = Returned tt
  /\ In (EvLog Out "No items to update") (trace r)
  /\ In (EvLog Out "has_items=false") (trace r).
Proof.
  intros rt r.
  refine (proj2 (proj2 (discovery_degrades (rt := rt))) ∅ (trace r) (outcome r)
            (run_paths _ _ _) _ _ _).
  - reflexivity.
  - intros c out Hin. vm_compute in Hin.
    repeat (destruct Hin as [Hin|Hin]; [try discriminate|]); [|done].
    injection Hin as _ <-. discriminate.
  - intros s Hin. vm_compute in Hin.
    repeat (destruct Hin as [Hin|Hin]; [try discriminate|]); [|done].
    injection Hin as <-. discriminate.
Defined.

(** * The update pipeline *)

Module UpdateFacts.
Import Js Command Trace UpdateItem Paths.

(** Unfolds the helpers of [command.ts] down to the effect tree. *)
Ltac unfold_helpers :=
  cbn [mbind prog_bind mret prog_ret runChecked runStatus runCapture
       runCaptureChecked consoleLog consoleError exit fileExists
       readTextFile nixBuildCheck bind tryCatch] in *.

(** Closes [safe] goals over concrete commands. *)
Ltac safe_tac :=
  repeat first
    [ progress cbn [safe bind tryCatch]
    | progress unfold mbind, prog_bind, mret, prog_ret
    | match goal with
      | |- safe _ (if ?b then _ else _) => destruct b
      | |- safe _ (match ?x with _ => _ end) => destruct x
      | |- safe _ (bind (if ?b then _ else _) _) => destruct b
      | |- safe _ (bind (match ?x with _ => _ end) _) => destruct x
      | |- _ /\ _ => split
      | |- forall _, _ => intro
      | |- True => exact I
      | |- prelude _ => split; reflexivity
      | |- _ = _ => reflexivity
      end ].

Section WithRuntime.
Context `{rt : Runtime}.

Lemma safe_runChecked E command args env :
  (forall r, E (EvSpawn {| command := command; args := args; cmd_env := env |} r)) ->
  safe E (runChecked command args env).
Proof. intros H. unfold_helpers. cbn. intros r. split; [done|]. by destruct (negb _). Qed.

Lemma safe_gitPorcelain env : safe prelude (gitPorcelain env).
Proof. unfold gitPorcelain. unfold_helpers. safe_tac. Qed.

Lemma safe_readExtraArgs candidates : safe prelude (readExtraArgs candidates).
Proof.
  induction candidates as [|p ps IH]; [done|].
  cbn [readExtraArgs]. unfold_helpers. safe_tac; done.
Qed.

Lemma safe_update type name env : safe prelude (update type name env).
Proof.
  unfold update. destruct type.
  - unfold_helpers. cbn [bind safe]. intros r. split; [done|].
    destruct r; cbn [bind safe]; [| |done].
    + safe_tac.
    + split; [done|]. apply safe_bind; [apply safe_readExtraArgs|].
      intros extra. safe_tac.
  - unfold_helpers. safe_tac.
Qed.

Lemma safe_nixEvalPackageVersion name system env :
  safe prelude (nixEvalPackageVersion name system env).
Proof. unfold nixEvalPackageVersion. unfold_helpers. safe_tac. Qed.

Lemma safe_assertRecord E v context : safe E (assertRecord v context).
Proof. unfold assertRecord. by repeat case_match. Qed.

Lemma safe_readFlakeInputRev name : safe prelude (readFlakeInputRev name).
Proof.
  unfold readFlakeInputRev, jsonParse, assertRecordMember, assertRecord. unfold_helpers.
  safe_tac.
Qed.

Lemma safe_resolveNewVersion type name system env :
  safe prelude (resolveNewVersion type name system env).
Proof.
  destruct type; [apply safe_nixEvalPackageVersion | apply safe_readFlakeInputRev].
Qed.

Lemma safe_nixBuildCheck system check env :
  safe prelude (nixBuildCheck system check env).
Proof. unfold_helpers. safe_tac. Qed.

Lemma safe_readSmokePackages env : safe prelude (readSmokePackages env).
Proof.
  unfold readSmokePackages. destruct (hasEnv _ _); [done|].
  unfold_helpers. safe_tac.
Qed.

Lemma safe_validate type name system env :
  safe prelude (validate type name system env).
Proof.
  unfold validate. unfold mbind, prog_bind. cbn [consoleLog bind safe].
  split; [done|]. destruct type.
  - repeat (apply safe_bind; [apply safe_nixBuildCheck | intros _]).
    apply safe_nixBuildCheck.
  - apply safe_bind; [apply safe_runChecked; by intros | intros _].
    do 2 (apply safe_bind; [apply safe_nixBuildCheck | intros _]).
    apply safe_bind; [apply safe_readSmokePackages | intros smoke].
    destruct (truthy _); [|done].
    cbn [bind safe]. repeat (split; [done|]).
    apply safe_forEach. intros pkg. apply safe_nixBuildCheck.
Qed.

(** *** From [main] to the ScopeChecked state *)

Lemma afterUpdate_leads type name currentVersion system prLabels autoMerge env :
  leads prelude
    (afterUpdate type name currentVersion system prLabels autoMerge env)
    (fun t o => exists newVersion,
       paths (scopeCheckAndPublish type name currentVersion newVersion
                prLabels autoMerge env) t o).
Proof.
  unfold afterUpdate. unfold mbind, prog_bind. unfold_helpers.
  apply leads_spawn. intros diff. split; [done|].
  destruct (diff =? 0); [by apply leads_safe|].
  apply leads_log; [done|]. apply leads_updateReadme. intros r. split; [done|].
  destruct r as [msg|]; [by apply leads_safe|]. cbn [bind].
  apply leads_log; [done|]. apply leads_spawn. intros fmt. split; [done|].
  destruct (negb (fmt =? 0)); [by apply leads_safe|]. cbn [bind].
  apply leads_spawn. intros diff2. split; [done|].
  destruct (diff2 =? 0); [by apply leads_safe|].
  apply leads_bind; [apply safe_resolveNewVersion|]. intros newVersion.
  apply leads_bind; [apply safe_validate|]. intros _.
  intros t o Hp. right. exists [], t. split; [done|]. split; [constructor|].
  by exists newVersion.
Qed.

Lemma typeName_inj t1 t2 : typeName t1 = typeName t2 -> t1 = t2.
Proof. by destruct t1, t2. Qed.

Lemma main_leads args processEnv :
  leads prelude (main args processEnv)
    (fun t o => exists type name currentVersion newVersion,
       namesItem args type name currentVersion
       /\ paths (scopeCheckAndPublish type name currentVersion newVersion
                   (getEnv processEnv "PR_LABELS" "dependencies,automated")
                   (getEnv processEnv "AUTO_MERGE" "false")
                   (<["NIX_PATH" := "nixpkgs=flake:nixpkgs"]> processEnv)) t o).
Proof.
  unfold main.
  destruct (_ || _); [by apply leads_safe|].
  destruct (String.eqb_spec (nth 0 args "") "package") as [Hp|Hp].
  - destruct (negb (truthy _)); [by apply leads_safe|].
    unfold mbind, prog_bind.
    apply leads_bind; [apply safe_gitPorcelain|]. intros status.
    destruct (truthy (trim status)); [by apply leads_safe|].
    unfold_helpers. do 6 (apply leads_log; [done|]).
    apply leads_bind; [apply safe_update|]. intros _.
    eapply leads_impl; [done| |apply afterUpdate_leads].
    intros t o [newVersion H]. by exists package, (nth 1 args ""), (nth 2 args ""), newVersion.
  - destruct (String.eqb_spec (nth 0 args "") "flake-input") as [Hf|Hf];
      [|by apply leads_safe].
    destruct (negb (truthy _)); [by apply leads_safe|].
    unfold mbind, prog_bind.
    apply leads_bind; [apply safe_gitPorcelain|]. intros status.
    destruct (truthy (trim status)); [by apply leads_safe|].
    unfold_helpers. do 6 (apply leads_log; [done|]).
    apply leads_bind; [apply safe_update|]. intros _.
    eapply leads_impl; [done| |apply afterUpdate_leads].
    intros t o [newVersion H].
    by exists flake_input, (nth 1 args ""), (nth 2 args ""), newVersion.
Qed.

(** *** The ScopeChecked state *)

Lemma checkScope_paths type name files t o :
  paths (checkScope type name files) t o ->
  (Forall (fun f => isAllowedChange type name f = true) files
   /\ t = [] /\ o = Returned tt)
  \/ (exists f, f ∈ files /\ isAllowedChange type name f = false
                /\ t = scopeDiagnostics name f /\ o = Exited 1).
Proof.
  unfold checkScope. revert t. induction files as [|f files IH]; intros t.
  - intros [-> ->]. left. by split; [constructor|].
  - cbn [forEach]. destruct (isAllowedChange type name f) eqn:Hf; cbn.
    + intros [(Hall & -> & ->)|(g & Hg & Hng & -> & ->)]%IH.
      * left. by split; [constructor|].
      * right. exists g. split; [by right | done].
    + intros (? & -> & ? & -> & ? & -> & -> & ->). right. exists f.
      split; [by left | done].
Qed.

(** Every call of the Committed and Published states. *)
Ltac commit_tac :=
  repeat first
    [ progress cbn [safe bind tryCatch]
    | progress unfold mbind, prog_bind, mret, prog_ret
    | progress unfold_helpers
    | progress unfold consoleLog, consoleError, exit
    | match goal with
      | |- safe _ (if ?b then _ else _) => destruct b
      | |- safe _ (match ?x with _ => _ end) => destruct x
      | |- safe _ (bind (if ?b then _ else _) _) => destruct b
      | |- safe _ (bind (match ?x with _ => _ end) _) => destruct x
      | |- safe _ ?p =>
          match p with
          | context [if ?b then _ else _] => destruct b
          end
      | |- onBranch _ _ =>
          split; [reflexivity | cbn; intros ? ?; congruence]
      | |- _ /\ _ => split
      | |- forall _, _ => intro
      | |- True => exact I
      end ].

Lemma safe_ghPrNumberForBranch b env :
  safe (onBranch b) (ghPrNumberForBranch b env).
Proof.
  unfold ghPrNumberForBranch, jsonParse, assertArray, assertRecord.
  unfold_helpers. commit_tac.
Qed.

Lemma safe_publish b prTitle prBody prLabels autoMerge env :
  safe (onBranch b) (publish b prTitle prBody prLabels autoMerge env).
Proof.
  unfold publish. unfold mbind, prog_bind.
  apply safe_bind; [apply safe_ghPrNumberForBranch|]. intros [number|].
  - unfold_helpers. commit_tac.
  - unfold_helpers. cbn [bind safe app]. split; [commit_tac|].
    intros r. split; [commit_tac|]. destruct (negb _); [done|]. cbn [bind].
    apply safe_bind; [apply safe_ghPrNumberForBranch|]. intros [number|].
    + commit_tac.
    + done.
Qed.

Lemma safe_commitAndPublish type name currentVersion newVersion prLabels
    autoMerge env :
  safe (onBranch (branch type name))
    (commitAndPublish type name currentVersion newVersion prLabels autoMerge env).
Proof.
  unfold commitAndPublish. unfold mbind, prog_bind. unfold_helpers.
  cbn [safe]. do 4 (split; [commit_tac|]).
  intros r. split; [commit_tac|]. destruct (negb _); [done|]. cbn [bind].
  assert (Hadd : forall k : unit -> Prog unit,
            (forall u, safe (onBranch (branch type name)) (k u)) ->
            safe (onBranch (branch type name))
              (bind match type with
                    | package =>
                        Spawn {| command := "git";
                                 args := ["add"; "packages/" +:+ name; "README.md"];
                                 cmd_env := Some env |}
                          (fun code => if negb (code =? 0)
                             then Throw ("Command failed ("
                                         +:+ String_of_number code +:+ "): "
                                         +:+ "git" +:+ " "
                                         +:+ joinedArgs ["add"; "packages/" +:+ name; "README.md"])
                             else Ret tt)
                    | flake_input =>
                        Spawn {| command := "git";
                                 args := ["add"; "flake.lock"; "README.md"];
                                 cmd_env := Some env |}
                          (fun code => if negb (code =? 0)
                             then Throw ("Command failed ("
                                         +:+ String_of_number code +:+ "): "
                                         +:+ "git" +:+ " "
                                         +:+ joinedArgs ["add"; "flake.lock"; "README.md"])
                             else Ret tt)
                    end k)).
  { intros k Hk. destruct type; cbn [bind safe]; intros c; (split; [commit_tac|]);
      destruct (negb _); cbn [bind safe]; done. }
  apply Hadd. intros _. cbn [safe]. intros staged. split; [commit_tac|].
  destruct (staged =? 0); [commit_tac|].
  cbn [bind safe]. intros c. split; [commit_tac|].
  destruct (negb _); [done|]. cbn [bind safe].
  intros p. split; [commit_tac|]. destruct (negb _); [done|]. cbn [bind].
  apply safe_publish.
Qed.

(** Every path of the ScopeChecked state. *)
Lemma scopeCheckAndPublish_paths type name currentVersion newVersion prLabels
    autoMerge env t o :
  paths (scopeCheckAndPublish type name currentVersion newVersion prLabels
           autoMerge env) t o ->
  exists c1 changed c2 untracked t',
    t = EvOutput c1 changed :: EvOutput c2 untracked :: t'
    /\ (command c1 = "git" /\ args c1 = ["diff"; "--name-only"])
    /\ (command c2 = "git"
        /\ args c2 = ["ls-files"; "--others"; "--exclude-standard"])
    /\ let allFiles := allFilesOf (trimLines (stdout changed))
                                  (trimLines (stdout untracked)) in
       (allFiles = [] /\ o = Exited 1
        /\ t' = [EvLog Err "Error: expected changes but working tree is clean"])
       \/ (exists f, f ∈ allFiles /\ isAllowedChange type name f = false
                     /\ o = Exited 1
                     /\ t' = worktreeLogs allFiles ++ scopeDiagnostics name f)
       \/ (Forall (fun f => isAllowedChange type name f = true) allFiles
           /\ exists t'', t' = worktreeLogs allFiles ++ t''
              /\ paths (commitAndPublish type name currentVersion newVersion
                          prLabels autoMerge env) t'' o).
Proof.
  unfold scopeCheckAndPublish. unfold mbind, prog_bind. unfold_helpers.
  cbn [paths]. intros (changed & t1 & -> & untracked & t2 & -> & H).
  eexists _, changed, _, untracked, t2. split; [reflexivity|].
  split; [done|]. split; [done|]. cbn zeta.
  set (allFiles := allFilesOf _ _) in *. revert H.
  case_bool_decide as Hlen.
  - cbn [paths]. intros (? & -> & -> & ->). left.
    split; [by destruct allFiles | done].
  - cbn [paths bind]. intros (? & -> & ? & -> & ? & -> & H).
    apply paths_bind in H as [(u & t3 & t4 & H1 & H2 & ->)|(o1 & H1 & H2)].
    + apply checkScope_paths in H1 as [(Hall & -> & _)|(f & _ & _ & _ & [=])].
      right. right. split; [done|]. by exists t4.
    + apply checkScope_paths in H1 as [(_ & _ & ->)|(f & Hf & Hnf & -> & ->)];
        [done|].
      simpl in H2. subst o. right. left. by exists f.
Qed.

End WithRuntime.
End UpdateFacts.

Import Js Command Trace UpdateItem Paths UpdateFacts.

Module ScriptFacts.
Section WithRuntime.
Context `{rt : Runtime}.

(** A path of the script is a path of [main], followed by the message of
    the error if [main] threw one. *)
Lemma script_paths args processEnv t o :
  paths (script args processEnv) t o ->
  (paths (main args processEnv) t o /\ forall msg, o <> Thrown msg)
  \/ (exists msg t1, paths (main args processEnv) t1 (Thrown msg)
                     /\ t = t1 ++ [EvLog Err msg] /\ o = Exited 1).
Proof.
  unfold script. intros [H|(msg & t1 & t2 & H1 & H2 & ->)]%paths_tryCatch.
  - by left.
  - right. exists msg, t1. cbn in H2.
    by destruct H2 as (? & -> & -> & ->).
Qed.

Lemma namesItem_unique args type name cur type' name' cur' :
  namesItem args type name cur -> namesItem args type' name' cur' ->
  type' = type /\ name' = name /\ cur' = cur.
Proof.
  intros (H1 & H2 & H3) (H1' & H2' & H3'). split.
  - apply typeName_inj. congruence.
  - split; congruence.
Qed.

End WithRuntime.
End ScriptFacts.

Import ScriptFacts.

(** C1 as stated fails: the branch of a pinned reference is not
    [update/pinned/<name>]; the run below pushes [update/flake-input/nixpkgs]. *)
Lemma branch_not_pinned :
  let rt := DecimalRuntime.runtime [JArr []; Worlds.lockDocument] in
  let r := run (Worlds.checkout ("flake.lock" +:+ Worlds.nl) ""
                  (Some (DecimalRuntime.stringify Worlds.lockDocument)))
               (script ["flake-input"; "nixpkgs"; "11111111"] Worlds.token) tt in
  branch flake_input "nixpkgs" <> "update/pinned/nixpkgs"
  /\ In (Some "update/flake-input/nixpkgs") (map branchOf (trace r))
  /\ ~ In (Some "update/pinned/nixpkgs") (map branchOf (trace r)).
Proof.
  intros rt r. split; [discriminate|]. split.
  - apply (nth_error_In _ 30). vm_compute. reflexivity.
  - vm_compute. intros H.
    repeat (destruct H as [H|H]; [discriminate|]). done.
Qed.

(** C2.  On every path of the script for an item of either kind: if the
    enumeration after validation ([git diff --name-only] together with
    [git ls-files --others --exclude-standard]) contains a path outside the
    allow-list of the kind, the script exits with status 1, the error
    console names an offending path of the enumeration, and no call of the
    Committed or Published states ([git switch], [git add], [git commit],
    [git push], any [gh]) is made on the path. *)
Theorem scope_violation_aborts `{rt : Runtime} argv processEnv type name
    currentVersion t o c1 changed c2 untracked file :
  namesItem argv type name currentVersion ->
  paths (script argv processEnv) t o ->
  In (EvOutput c1 changed) t ->
  command c1 = "git" -> args c1 = ["diff"; "--name-only"] ->
  In (EvOutput c2 untracked) t ->
  command c2 = "git" -> args c2 = ["ls-files"; "--others"; "--exclude-standard"] ->
  file ∈ allFilesOf (trimLines (stdout changed)) (trimLines (stdout untracked)) ->
  isAllowedChange type name file = false ->
  o = Exited 1
  /\ (exists f,
        f ∈ allFilesOf (trimLines (stdout changed)) (trimLines (stdout untracked))
        /\ isAllowedChange type name f = false
        /\ In (EvLog Err ("Error: unexpected change outside allowed scope: " +:+ f)) t)
  /\ Forall (fun e => commitsOrPublishes e = false) t.
Proof.
  intros Hargs Hp Hin1 Hc1 Ha1 Hin2 Hc2 Ha2 Hfile Hnot.
  assert (He1 : enumerates (EvOutput c1 changed) = true)
    by (simpl; by rewrite Hc1, Ha1).
  assert (He2 : enumerates (EvOutput c2 untracked) = true)
    by (simpl; by rewrite Hc2, Ha2).
  assert (Hmain : forall t' o',
            paths (main argv processEnv) t' o' ->
            In (EvOutput c1 changed) t' -> In (EvOutput c2 untracked) t' ->
            o' = Exited 1
            /\ (exists f,
                  f ∈ allFilesOf (trimLines (stdout changed))
                                 (trimLines (stdout untracked))
                  /\ isAllowedChange type name f = false
                  /\ In (EvLog Err ("Error: unexpected change outside allowed scope: "
                                    +:+ f)) t')
            /\ Forall (fun e => commitsOrPublishes e = false) t').
  { intros t' o' H Hi1 Hi2.
    destruct (main_leads argv processEnv t' o' H)
      as [Hpre|(t1 & t2 & -> & Hpre & ty & n & cur & nv & Hn & Hs)].
    { rewrite Forall_forall in Hpre.
      apply list_elem_of_In, Hpre in Hi1 as [_ Hi1]. congruence. }
    destruct (namesItem_unique _ _ _ _ _ _ _ Hargs Hn) as (-> & -> & ->).
    assert (Hnot1 : forall e, enumerates e = true -> ~ In e t1).
    { intros e He Hin. rewrite Forall_forall in Hpre.
      apply list_elem_of_In, Hpre in Hin as [_ Hin]. congruence. }
    apply in_app_or in Hi1 as [Hi1|Hi1]; [by destruct (Hnot1 _ He1)|].
    apply in_app_or in Hi2 as [Hi2|Hi2]; [by destruct (Hnot1 _ He2)|].
    apply scopeCheckAndPublish_paths in Hs
      as (d1 & out1 & d2 & out2 & t' & -> & [Hd1 Hb1] & [Hd2 Hb2] & Hcases).
    assert (Hrest : forall e, enumerates e = true -> ~ In e t').
    { intros e He Hin.
      destruct Hcases as [(_ & _ & ->)|[(f & _ & _ & _ & ->)|(_ & t'' & -> & Hc)]].
      - destruct Hin as [<-|[]]. discriminate.
      - repeat (destruct Hin as [<-|Hin]; [discriminate|]). done.
      - apply in_app_or in Hin as [Hin|Hin].
        + repeat (destruct Hin as [<-|Hin]; [discriminate|]). done.
        + pose proof (safe_paths _ _ _ _ (safe_commitAndPublish _ _ _ _ _ _ _) Hc)
            as Hsafe.
          rewrite Forall_forall in Hsafe.
          apply list_elem_of_In, Hsafe in Hin as [Hin _]. congruence. }
    assert (out1 = changed) as ->.
    { destruct Hi1 as [E|[E|Hi1]].
      - by injection E.
      - injection E as <- _. congruence.
      - by destruct (Hrest _ He1). }
    assert (out2 = untracked) as ->.
    { destruct Hi2 as [E|[E|Hi2]].
      - injection E as <- _. congruence.
      - by injection E.
      - by destruct (Hrest _ He2). }
    cbn zeta in Hcases.
    destruct Hcases as [(Hnil & _)|[(f & Hf & Hnf & -> & ->)|(Hall & _)]].
    - rewrite Hnil in Hfile. by apply elem_of_nil in Hfile.
    - split; [done|]. split.
      + exists f. split; [done|]. split; [done|].
        apply in_or_app. right. do 5 right. by left.
      + apply Forall_app. split.
        * eapply Forall_impl; [done|]. by intros e [He _].
        * constructor.
          { unfold commitsOrPublishes, isGh, gitSubcommand, commandOf.
            by rewrite Hd1, Hb1. }
          constructor.
          { unfold commitsOrPublishes, isGh, gitSubcommand, commandOf.
            by rewrite Hd2, Hb2. }
          by repeat constructor.
    - rewrite Forall_forall in Hall. apply Hall in Hfile. congruence. }
  apply script_paths in Hp as [[Hp _]|(msg & t1 & Hp & -> & ->)].
  - by apply Hmain.
  - assert (Hi1 : In (EvOutput c1 changed) t1).
    { apply in_app_or in Hin1 as [|[|[]]]; done. }
    assert (Hi2 : In (EvOutput c2 untracked) t1).
    { apply in_app_or in Hin2 as [|[|[]]]; done. }
    destruct (Hmain _ _ Hp Hi1 Hi2) as ([=] & _).
Qed.

Lemma scope_violation_aborts_witness :
  let rt := DecimalRuntime.runtime [JArr []] in
  let changed := "flake.nix" +:+ Worlds.nl +:+ "packages/foo/package.nix" +:+ Worlds.nl in
  let r := run (Worlds.checkout changed "" None)
               (script ["package"; "foo"; "1.2.0"] Worlds.token) tt in
  outcome r = Exited 1
  /\ (exists f,
        f ∈ allFilesOf (trimLines changed) (trimLines "")
        /\ isAllowedChange package "foo" f = false
        /\ In (EvLog Err ("Error: unexpected change outside allowed scope: " +:+ f))
              (trace r))
  /\ Forall (fun e => commitsOrPublishes e = false) (trace r).
Proof.
  intros rt changed r.
  refine (scope_violation_aborts (rt := rt) ["package"; "foo"; "1.2.0"] Worlds.token
            package "foo" "1.2.0" (trace r) (outcome r)
            {| command := "git"; args := ["diff"; "--name-only"];
               cmd_env := Some (<["NIX_PATH" := "nixpkgs=flake:nixpkgs"]> Worlds.token) |}
            (Worlds.ok changed)
            {| command := "git"; args := ["ls-files"; "--others"; "--exclude-standard"];
               cmd_env := Some (<["NIX_PATH" := "nixpkgs=flake:nixpkgs"]> Worlds.token) |}
            (Worlds.ok "") "flake.nix"
            _ (run_paths _ _ _) _ _ _ _ _ _ _ _).
  - repeat split.
  - apply (nth_error_In _ 23). vm_compute. reflexivity.
  - reflexivity.
  - reflexivity.
  - apply (nth_error_In _ 24). vm_compute. reflexivity.
  - reflexivity.
  - reflexivity.
  - vm_compute. by left.
  - reflexivity.
Defined.

Lemma readFlakeInputRev_trace `{rt : Runtime} name t o :
  paths (readFlakeInputRev name) t o -> exists r, t = [EvRead "flake.lock" r].
Proof.
  unfold readFlakeInputRev. unfold_helpers. cbn [paths].
  intros (r & t' & -> & H). exists r. f_equal.
  destruct r as [text|msg]; [|by destruct H as [-> _]].
  eapply (safe_paths (fun _ => False)) in H; [by destruct H|].
  unfold jsonParse, assertRecordMember, assertRecord. safe_tac.
Qed.

(** Every path of [readFlakeInputRev]: one read of the lock document, and
    an outcome that what the answer holds for the input decides. *)
Lemma readFlakeInputRev_paths `{rt : Runtime} name t o :
  paths (readFlakeInputRev name) t o ->
  exists r,
    t = [EvRead "flake.lock" r]
    /\ match lockRevision r name with
       | Some (Some rev) => o = Returned (take 8 rev)
       | Some None => o = Returned "unknown"
       | None => exists msg, o = Thrown msg
       end.
Proof.
  intros Hp. destruct (readFlakeInputRev_trace _ _ _ Hp) as [r ->].
  exists r. split; [done|].
  unfold readFlakeInputRev in Hp. cbn in Hp.
  destruct Hp as (r' & t' & E & H). injection E as <- <-.
  destruct r as [text|msg]; cbn in H |- *; [|destruct H as [_ ->]; eauto].
  unfold jsonParse in H.
  destruct (JSON_parse text) as [[ | | | | |fields]|]; cbn in H;
    try (destruct H as [_ ->]; eauto).
  destruct (fields !! "nodes") as [[ | | | | |nodes]|]; cbn in H;
    try (destruct H as [_ ->]; eauto).
  unfold revisionOf, member in *. cbn [getProp prototypeNames] in H.
  destruct (nodes !! name) as [[ | | | | |node]|]; cbn in H;
    try (destruct H as [_ ->]; eauto).
  - destruct (node !! "locked") as [[ | | | | |locked]|]; cbn in H;
      try (destruct H as [_ ->]; eauto).
    destruct (locked !! "rev") as [[ | | |s| | ]|]; cbn in H;
      try (destruct H as [_ ->]; eauto).
    destruct (truthy s); cbn in H; by destruct H as [_ ->].
  - destruct (bool_decide (name ∈ objectPrototype)); cbn in H |- *;
      [|by destruct H as [_ ->]].
    destruct (String.eqb name "__proto__"); cbn in H |- *;
      destruct H as [_ ->]; eauto.
Qed.


(** * The first diff check and untracked files *)

Module TreeFacts.
Import Git.

Lemma append_cons c s1 s2 : String c s1 +:+ s2 = String c (s1 +:+ s2).
Proof. reflexivity. Qed.

Lemma append_nil s : "" +:+ s = s.
Proof. reflexivity. Qed.

Lemma splitLines_line p rest :
  has_line_terminator p = false ->
  splitLines (p +:+ nl +:+ rest) = p :: splitLines rest.
Proof.
  induction p as [|x p IH]; intros Hp.
  - reflexivity.
  - simpl in Hp. apply orb_false_iff in Hp as [Hx Hp].
    unfold is_line_terminator in Hx. apply orb_false_iff in Hx as [Hx1 Hx2].
    rewrite append_cons. cbn [splitLines]. rewrite Hx1, Hx2. cbn [andb].
    rewrite (IH Hp).
    destruct p; reflexivity.
Qed.

Lemma trimLines_unlines `{rt : Runtime} (ps : list string) :
  Forall plainPath ps -> trimLines (unlines ps) = ps.
Proof.
  unfold trimLines. induction 1 as [|p ps (Hp1 & Hp2 & Hp3) Hps IH].
  - reflexivity.
  - cbn [unlines]. rewrite splitLines_line by done.
    cbn [map]. rewrite Hp3, filter_cons_True by done. by rewrite IH.
Qed.

Lemma allFilesOf_elem (changed untracked : list string) f :
  f ∈ allFilesOf changed untracked <-> f ∈ changed \/ f ∈ untracked.
Proof.
  unfold allFilesOf, sortStrings. rewrite merge_sort_Permutation.
  rewrite elem_of_elements, elem_of_list_to_set, elem_of_app. done.
Qed.

(** The status of a tree with an untracked path is not blank. *)
Lemma porcelain_untracked tree :
  modified tree = [] -> untracked tree <> [] ->
  truthy (trim (porcelain tree)) = true.
Proof.
  unfold porcelain. intros -> Hu. destruct (untracked tree) as [|p ps]; [done|].
  cbn [map app unlines]. rewrite !append_cons, append_nil.
  unfold trim. cbn [trimStart]. cbn [trimEnd].
  replace (is_space "?") with false by reflexivity. reflexivity.
Qed.

Section WithRuntime.
Context `{rt : Runtime}.

Ltac quiet_tac :=
  repeat first
    [ progress cbn [safe bind tryCatch]
    | progress unfold mbind, prog_bind, mret, prog_ret
    | match goal with
      | |- safe _ (if ?b then _ else _) => destruct b
      | |- safe _ (match ?x with _ => _ end) => destruct x
      | |- safe _ (bind (if ?b then _ else _) _) => destruct b
      | |- safe _ (bind (match ?x with _ => _ end) _) => destruct x
      | |- beforeDiff _ => repeat split; reflexivity
      | |- _ /\ _ => split
      | |- forall _, _ => intro
      | |- True => exact I
      end ].

Lemma quiet_gitPorcelain env : safe beforeDiff (gitPorcelain env).
Proof. unfold gitPorcelain. unfold_helpers. quiet_tac. Qed.

Lemma quiet_readExtraArgs candidates : safe beforeDiff (readExtraArgs candidates).
Proof.
  induction candidates as [|p ps IH]; [done|].
  cbn [readExtraArgs]. unfold_helpers. quiet_tac; done.
Qed.

Lemma quiet_update type name env : safe beforeDiff (update type name env).
Proof.
  unfold update. destruct type.
  - unfold_helpers. cbn [bind safe]. intros r. split; [done|].
    destruct r; cbn [bind safe]; [| |done].
    + quiet_tac.
    + split; [done|]. apply safe_bind; [apply quiet_readExtraArgs|].
      intros extra. quiet_tac.
  - unfold_helpers. quiet_tac.
Qed.

(** From [main] to the first diff check. *)
Lemma main_leads_diff args processEnv :
  leads beforeDiff (main args processEnv)
    (fun t o => exists type name currentVersion,
       paths (afterUpdate type name currentVersion
                (getEnv processEnv "SYSTEM" "x86_64-linux")
                (getEnv processEnv "PR_LABELS" "dependencies,automated")
                (getEnv processEnv "AUTO_MERGE" "false")
                (<["NIX_PATH" := "nixpkgs=flake:nixpkgs"]> processEnv)) t o).
Proof.
  unfold main.
  destruct (_ || _); [by apply leads_safe|].
  assert (Hgo : forall type,
    leads beforeDiff
      (if negb (truthy (getEnv processEnv "GH_TOKEN" ""))
       then consoleError "Error: GH_TOKEN is not set";; exit 1
       else
         status ← gitPorcelain (<["NIX_PATH" := "nixpkgs=flake:nixpkgs"]> processEnv);
         if truthy (trim status)
         then consoleError "Error: working tree is not clean before update";;
              consoleError (trimEnd status);;
              exit 1
         else
           consoleLog "=== Update target ===";;
           consoleLog ("type=" +:+ typeName type);;
           consoleLog ("name=" +:+ nth 1 args "");;
           consoleLog ("system=" +:+ getEnv processEnv "SYSTEM" "x86_64-linux");;
           consoleLog ("currentVersion=" +:+ nth 2 args "");;
           consoleLog "";;
           update type (nth 1 args "")
             (<["NIX_PATH" := "nixpkgs=flake:nixpkgs"]> processEnv);;
           afterUpdate type (nth 1 args "") (nth 2 args "")
             (getEnv processEnv "SYSTEM" "x86_64-linux")
             (getEnv processEnv "PR_LABELS" "dependencies,automated")
             (getEnv processEnv "AUTO_MERGE" "false")
             (<["NIX_PATH" := "nixpkgs=flake:nixpkgs"]> processEnv))
      (fun t o => exists type name currentVersion,
         paths (afterUpdate type name currentVersion
                  (getEnv processEnv "SYSTEM" "x86_64-linux")
                  (getEnv processEnv "PR_LABELS" "dependencies,automated")
                  (getEnv processEnv "AUTO_MERGE" "false")
                  (<["NIX_PATH" := "nixpkgs=flake:nixpkgs"]> processEnv)) t o)).
  { intros type.
    destruct (negb (truthy _)); [by apply leads_safe|].
    unfold mbind, prog_bind.
    apply leads_bind; [apply quiet_gitPorcelain|]. intros status.
    destruct (truthy (trim status)); [by apply leads_safe|].
    unfold_helpers. do 6 (apply leads_log; [done|]).
    apply leads_bind; [apply quiet_update|]. intros _.
    intros t o Hp. right. exists [], t. split; [done|]. split; [constructor|].
    by exists type, (nth 1 args ""), (nth 2 args ""). }
  destruct (String.eqb (nth 0 args "") "package"); [apply Hgo|].
  destruct (String.eqb (nth 0 args "") "flake-input"); [apply Hgo|].
  by apply leads_safe.
Qed.

End WithRuntime.
End TreeFacts.

Import TreeFacts Git.

(** C10.  Let [tree] be a working tree without modified tracked paths and
    with at least one untracked path.  On every path of the script whose
    diff checks answer as [git diff --quiet] does on [tree] and that reaches
    the first diff check, the script returns, its last call is the message
    that no changes were detected, and it makes no call of the Validated,
    ScopeChecked, Committed or Published states.  Yet on every path whose
    status query answers as [git status --porcelain] does on [tree], the
    script exits with status 1 on the clean-tree precondition; and every
    untracked path of [tree] is in the enumeration that the ScopeChecked
    state computes from the answers of [git] on [tree]. *)
Theorem untracked_only_is_noop `{rt : Runtime} argv processEnv (tree : Tree) :
  modified tree = [] -> untracked tree <> [] ->
  Forall plainPath (untracked tree) ->
  (forall t o,
     paths (script argv processEnv) t o ->
     (forall c r, In (EvSpawn c r) t -> isGit c ["diff"; "--quiet"] ->
                  r = diffQuiet tree) ->
     (exists c r, In (EvSpawn c r) t /\ isGit c ["diff"; "--quiet"]) ->
     o = Returned tt
     /\ last t = Some (EvLog Out "No changes detected; skipping PR.")
     /\ Forall (fun e => validates e = false /\ commitsOrPublishes e = false
                         /\ enumerates e = false) t)
  /\ (forall t o,
        paths (script argv processEnv) t o ->
        (forall c out, In (EvOutput c out) t -> isGit c ["status"; "--porcelain"] ->
                       code out = 0 /\ stdout out = porcelain tree) ->
        (exists c out, In (EvOutput c out) t /\ isGit c ["status"; "--porcelain"]) ->
        o = Exited 1
        /\ In (EvLog Err "Error: working tree is not clean before update") t)
  /\ (forall f, f ∈ untracked tree ->
                f ∈ allFilesOf (trimLines (diffNames tree))
                               (trimLines (lsOthers tree))).
Proof.
  intros Hmod Hunt Hplain. split; [|split].
  - intros t o Hp Hdiff (c & r & Hin & Hc1 & Hc2).
    assert (Hcd : checksDiff (EvSpawn c r) = true).
    { simpl. rewrite Hc1, Hc2. done. }
    assert (Hmain : forall t' o',
              paths (main argv processEnv) t' o' -> In (EvSpawn c r) t' ->
              (forall c r, In (EvSpawn c r) t' -> isGit c ["diff"; "--quiet"] ->
                           r = diffQuiet tree) ->
              o' = Returned tt
              /\ last t' = Some (EvLog Out "No changes detected; skipping PR.")
              /\ Forall (fun e => validates e = false /\ commitsOrPublishes e = false
                                  /\ enumerates e = false) t').
    { intros t' o' H Hi Hd.
      destruct (main_leads_diff argv processEnv t' o' H)
        as [Hpre|(t1 & t2 & -> & Hpre & ty & n & cur & Ha)].
      { rewrite Forall_forall in Hpre.
        apply list_elem_of_In, Hpre in Hi as (_ & _ & Hi). congruence. }
      unfold afterUpdate in Ha. unfold_helpers. cbn [paths] in Ha.
      destruct Ha as (r' & t3 & -> & Ha).
      assert (r' = 0) as ->.
      { assert (Hr : r' = diffQuiet tree).
        { eapply Hd; [apply in_or_app; right; by left | done]. }
        rewrite Hr. unfold diffQuiet. by rewrite Hmod. }
      cbn in Ha. destruct Ha as (? & -> & -> & ->).
      split; [done|]. split.
      - rewrite last_app. done.
      - apply Forall_app. split.
        + eapply Forall_impl; [done|]. by intros e ([? ?] & ? & _).
        + by repeat constructor. }
    apply script_paths in Hp as [[Hp _]|(msg & t1 & Hp & -> & ->)].
    + by apply Hmain.
    + exfalso. apply in_app_or in Hin as [Hin|[|[]]]; [|done].
      destruct (Hmain _ _ Hp Hin) as ([=] & _).
      intros c' r' Hi. apply Hdiff. apply in_or_app. by left.
  - intros t o Hp Hst (c & out & Hin & Hc).
    assert (Hmain : forall t' o',
              paths (main argv processEnv) t' o' -> In (EvOutput c out) t' ->
              (forall c out, In (EvOutput c out) t' ->
                             isGit c ["status"; "--porcelain"] ->
                             code out = 0 /\ stdout out = porcelain tree) ->
              o' = Exited 1
              /\ In (EvLog Err "Error: working tree is not clean before update") t').
    { intros t' o' H Hi Hs. unfold main in H.
      destruct (_ || _); [by destruct H as [-> _]|].
      assert (Hgo : forall type,
        paths
          (if negb (truthy (getEnv processEnv "GH_TOKEN" ""))
           then consoleError "Error: GH_TOKEN is not set";; exit 1
           else
             status ← gitPorcelain (<["NIX_PATH" := "nixpkgs=flake:nixpkgs"]> processEnv);
             if truthy (trim status)
             then consoleError "Error: working tree is not clean before update";;
                  consoleError (trimEnd status);;
                  exit 1
             else
               consoleLog "=== Update target ===";;
               consoleLog ("type=" +:+ typeName type);;
               consoleLog ("name=" +:+ nth 1 argv "");;
               consoleLog ("system=" +:+ getEnv processEnv "SYSTEM" "x86_64-linux");;
               consoleLog ("currentVersion=" +:+ nth 2 argv "");;
               consoleLog "";;
               update type (nth 1 argv "")
                 (<["NIX_PATH" := "nixpkgs=flake:nixpkgs"]> processEnv);;
               afterUpdate type (nth 1 argv "") (nth 2 argv "")
                 (getEnv processEnv "SYSTEM" "x86_64-linux")
                 (getEnv processEnv "PR_LABELS" "dependencies,automated")
                 (getEnv processEnv "AUTO_MERGE" "false")
                 (<["NIX_PATH" := "nixpkgs=flake:nixpkgs"]> processEnv)) t' o' ->
        o' = Exited 1
        /\ In (EvLog Err "Error: working tree is not clean before update") t').
      { intros type Hg. destruct (negb (truthy _)).
        { cbn in Hg. destruct Hg as (? & -> & -> & ->).
          by destruct Hi as [|[]]. }
        unfold gitPorcelain in Hg. unfold mbind, prog_bind in Hg.
        unfold_helpers. cbn [paths] in Hg.
        destruct Hg as (out' & t4 & -> & Hg).
        destruct (Hs _ out' (or_introl eq_refl)) as [Hcode Hout]; [done|].
        rewrite Hcode in Hg. cbn [Z.eqb negb bind] in Hg.
        rewrite Hout, (porcelain_untracked tree Hmod Hunt) in Hg.
        cbn in Hg. destruct Hg as (? & -> & ? & -> & -> & ->).
        split; [done|]. right. by left. }
      destruct (String.eqb (nth 0 argv "") "package"); [by eapply Hgo|].
      destruct (String.eqb (nth 0 argv "") "flake-input"); [by eapply Hgo|].
      by destruct H as [-> _]. }
    apply script_paths in Hp as [[Hp _]|(msg & t1 & Hp & -> & ->)].
    + by apply Hmain.
    + apply in_app_or in Hin as [Hin|[|[]]]; [|done].
      destruct (Hmain _ _ Hp Hin) as [[=] _].
      intros c' out' Hi. apply Hst. apply in_or_app. by left.
  - intros f Hf. apply allFilesOf_elem. right.
    unfold lsOthers. by rewrite trimLines_unlines.
Qed.

Lemma untracked_only_is_noop_witness :
  let rt := DecimalRuntime.runtime [JArr []] in
  let first := run (Worlds.treeWorld Worlds.cleanTree Worlds.notesOnly)
                   (script ["package"; "foo"; "1.2.0"] Worlds.token) tt in
  let second := run (Worlds.treeWorld Worlds.notesOnly Worlds.notesOnly)
                    (script ["package"; "foo"; "1.2.0"] Worlds.token) tt in
  (outcome first = Returned tt
   /\ last (trace first) = Some (EvLog Out "No changes detected; skipping PR.")
   /\ Forall (fun e => validates e = false /\ commitsOrPublishes e = false
                       /\ enumerates e = false) (trace first))
  /\ (outcome second = Exited 1
      /\ In (EvLog Err "Error: working tree is not clean before update")
            (trace second))
  /\ "notes.txt" ∈ allFilesOf (trimLines (diffNames Worlds.notesOnly))
                              (trimLines (lsOthers Worlds.notesOnly)).
Proof.
  intros rt first second.
  assert (Hplain : Forall plainPath (untracked Worlds.notesOnly))
    by (repeat constructor).
  assert (Hne : untracked Worlds.notesOnly <> []) by discriminate.
  destruct (untracked_only_is_noop (rt := rt) ["package"; "foo"; "1.2.0"]
              Worlds.token Worlds.notesOnly eq_refl Hne Hplain) as (Ha & Hb & Hc).
  split; [|split].
  - apply (Ha (trace first) (outcome first) (run_paths _ _ _)).
    + intros c r Hin [Hc1 Hc2]. vm_compute in Hin.
      repeat (destruct Hin as [Hin|Hin];
              [try discriminate; try (injection Hin as <- <-; try reflexivity;
                                      simpl in Hc2; discriminate)|]).
      done.
    + exists {| command := "git"; args := ["diff"; "--quiet"];
                cmd_env := Some (<["NIX_PATH" := "nixpkgs=flake:nixpkgs"]> Worlds.token) |},
             0.
      split; [|split; reflexivity].
      apply (nth_error_In _ 12). vm_compute. reflexivity.
  - apply (Hb (trace second) (outcome second) (run_paths _ _ _)).
    + intros c out Hin [Hc1 Hc2]. vm_compute in Hin.
      repeat (destruct Hin as [Hin|Hin];
              [try discriminate; try (injection Hin as <- <-; split; reflexivity)|]).
      done.
    + exists {| command := "git"; args := ["status"; "--porcelain"];
                cmd_env := Some (<["NIX_PATH" := "nixpkgs=flake:nixpkgs"]> Worlds.token) |},
             (Worlds.ok (porcelain Worlds.notesOnly)).
      split; [|split; reflexivity].
      vm_compute. left. reflexivity.
  - apply Hc. by left.
Defined.

(** * The open proposals across runs *)

Module StoreFacts.
Import GitHub.

Section WithRuntime.
Context `{rt : Runtime}.

Lemma call_not_gh c : String.eqb (command c) "gh" = false -> call c = Other.
Proof. unfold call. by intros ->. Qed.

Lemma inert_not_gh e : isGh e = false -> inert e.
Proof.
  intros H store. destruct e as [c r|c out| | | | |]; simpl in *; try done.
  - rewrite (call_not_gh c H). by destruct (r =? 0).
  - by rewrite (call_not_gh c H).
Qed.

Lemma after_app store t1 t2 :
  after store (t1 ++ t2) = after (after store t1) t2.
Proof. revert store. induction t1 as [|e t1 IH]; intros store; simpl; auto. Qed.

Lemma consistent_app store t1 t2 :
  consistent store (t1 ++ t2)
  <-> consistent store t1 /\ consistent (after store t1) t2.
Proof.
  revert store. induction t1 as [|e t1 IH]; intros store; simpl.
  - tauto.
  - rewrite IH. tauto.
Qed.

Lemma after_inert store t :
  Forall inert t -> after store t = store /\ consistent store t.
Proof.
  induction 1 as [|e t He Ht IH]; simpl; [done|].
  destruct (He store) as [-> Ha]. tauto.
Qed.

Lemma prelude_inert e : prelude e -> inert e.
Proof.
  intros [H _]. apply inert_not_gh. unfold commitsOrPublishes in H.
  by apply orb_false_iff in H as [H _].
Qed.

(** *** The lookup of the open proposal *)

Lemma ghPrNumber_store b env t o store :
  paths (ghPrNumberForBranch b env) t o ->
  consistent store t ->
  after store t = store
  /\ ((exists msg, o = Thrown msg)
      \/ o = Returned (hd_error (map number (openFor b store)))).
Proof.
  unfold ghPrNumberForBranch. unfold_helpers. cbn [paths].
  intros (out & t' & -> & H) [Hans _]. cbn [after step]. revert H.
  change (call _) with (List b) in Hans. cbn beta iota in Hans.
  destruct (Z.eqb_spec (code out) 0) as [Hc|Hc]; cbn [negb bind].
  2:{ intros [-> ->]. split; [done|]. left. eauto. }
  unfold jsonParse. rewrite (Hans Hc). cbn [bind assertArray].
  destruct (openFor b store) as [|p ps]; cbn.
  - intros [-> ->]. by split; [|right].
  - unfold numberObject. rewrite lookup_singleton_eq.
    intros [-> ->]. by split; [|right].
Qed.


(** *** Creating and editing keep the proposals orderly *)

Lemma openFor_app b s1 s2 : openFor b (s1 ++ s2) = openFor b s1 ++ openFor b s2.
Proof. unfold openFor. apply List.filter_app. Qed.

Lemma fresh_above store n : n ∈ map number store -> n < fresh store.
Proof.
  unfold fresh. induction store as [|p store IH]; simpl.
  - by intros ?%elem_of_nil.
  - intros [->|H]%elem_of_cons; [lia|]. specialize (IH H). lia.
Qed.

Lemma orderly_create store b title' body' more :
  orderly store -> openFor b store = [] ->
  let p := {| number := fresh store; head := b; title := title';
              body := body'; labels := more |} in
  orderly (store ++ [p]) /\ openFor b (store ++ [p]) = [p].
Proof.
  intros [Hnd Hone] Hb p. split; [split|].
  - rewrite map_app. apply NoDup_app. split; [done|]. split.
    + intros n Hn [->|[]%elem_of_nil]%elem_of_cons.
      apply fresh_above in Hn. simpl in Hn. lia.
    + apply NoDup_singleton.
  - intros b'. rewrite openFor_app. unfold openFor at 2. simpl.
    destruct (String.eqb_spec b b') as [<-|Hne].
    + by rewrite Hb.
    + rewrite length_app. simpl. specialize (Hone b'). lia.
  - rewrite openFor_app, Hb. unfold openFor. simpl.
    by rewrite String.eqb_refl.
Qed.

Lemma edit_number n title' body' more p :
  number (edit n title' body' more p) = number p.
Proof. unfold edit. by destruct (String.eqb _ _). Qed.

Lemma edit_head n title' body' more p :
  head (edit n title' body' more p) = head p.
Proof. unfold edit. by destruct (String.eqb _ _). Qed.

Lemma openFor_edit b n title' body' more store :
  openFor b (map (edit n title' body' more) store)
  = map (edit n title' body' more) (openFor b store).
Proof.
  unfold openFor. induction store as [|p store IH]; simpl; [done|].
  rewrite edit_head. destruct (String.eqb (head p) b); simpl; by rewrite IH.
Qed.

Lemma orderly_edit n title' body' more store :
  orderly store -> orderly (map (edit n title' body' more) store).
Proof.
  intros [Hnd Hone]. split.
  - rewrite map_map.
    by rewrite (map_ext _ number (edit_number n title' body' more)).
  - intros b. rewrite openFor_edit, length_map. apply Hone.
Qed.

Lemma labelsOf_flags (labels : list string) :
  labelsOf (flat_map (fun label => ["--label"; label]) labels) = labels.
Proof. induction labels as [|l labels IH]; simpl; by rewrite ?IH. Qed.

(** *** The Published state *)

Lemma publish_store b prTitle prBody prLabels autoMerge env t o store :
  paths (publish b prTitle prBody prLabels autoMerge env) t o ->
  consistent store t -> orderly store ->
  orderly (after store t)
  /\ (o = Returned tt ->
      exists p, openFor b (after store t) = [p]
                /\ title p = prTitle /\ body p = prBody
                /\ Forall (fun l => l ∈ labels p) (splitLabels prLabels)
                /\ forall q, openFor b store = [q] ->
                     number p = number q
                     /\ Forall (fun l => l ∈ labels p) (labels q)
                     /\ map number (after store t) = map number store).
Proof.
  unfold publish.
  intros [(prNumber & t1 & t2 & H1 & H2 & ->)|(o1 & H1 & Hpass)]%paths_mbind
    Hcons Hord.
  2:{ destruct (ghPrNumber_store _ _ _ _ _ H1 Hcons) as [-> [[msg ->]| ->]];
        [|done]. simpl in Hpass. subst o. by split. }
  apply consistent_app in Hcons as [Hc1 Hc2].
  destruct (ghPrNumber_store _ _ _ _ _ H1 Hc1) as [Hs1 [[msg [=]]|[= ->]]].
  rewrite after_app, Hs1. rewrite Hs1 in Hc2. clear H1 Hc1 Hs1 t1.
  (* the auto-merge request leaves the proposals alone *)
  assert (Hmerge : forall (n : option Z) t4 o4,
    paths match n with
          | Some number =>
              if String.eqb autoMerge "true" then
                consoleLog ("Enabling auto-merge for PR #"
                            +:+ String_of_number number);;
                tryCatch
                  (runChecked "gh"
                     ["pr"; "merge"; String_of_number number; "--auto"; "--squash"]
                     (Some env))
                  (fun _ => consoleLog
                     "Note: auto-merge may require branch protection rules")
              else Ret tt
          | None => Ret tt
          end t4 o4 -> Forall inert t4).
  { intros n t4 o4 H4. eapply safe_paths; [|exact H4].
    destruct n as [number|]; [|done]. destruct (String.eqb _ _); [|done].
    unfold mbind, prog_bind. unfold_helpers. unfold consoleLog.
    cbn [bind tryCatch safe]. split; [done|]. intros r. split.
    - intros s. cbn [step answers]. change (call _) with Other.
      by destruct (r =? 0).
    - by destruct (negb _). }
  (* the edit or the creation *)
  assert (Hpub : forall t3 (o3 : Outcome (option Z)),
    paths match hd_error (map number (openFor b store)) with
          | Some number =>
              consoleLog ("Updating existing PR #" +:+ String_of_number number);;
              runChecked "gh"
                (["pr"; "edit"; String_of_number number; "--title"; prTitle;
                  "--body"; prBody]
                 ++ flat_map (fun label => ["--label"; label])
                      (splitLabels prLabels)) (Some env);;
              Ret (Some number)
          | None =>
              consoleLog "Creating new PR";;
              runChecked "gh"
                (["pr"; "create"; "--title"; prTitle; "--body"; prBody;
                  "--base"; "main"; "--head"; b]
                 ++ flat_map (fun label => ["--label"; label])
                      (splitLabels prLabels)) (Some env);;
              ghPrNumberForBranch b env
          end t3 o3 -> consistent store t3 ->
    orderly (after store t3)
    /\ ((exists n, o3 = Returned n) ->
        exists p, openFor b (after store t3) = [p]
                  /\ title p = prTitle /\ body p = prBody
                  /\ Forall (fun l => l ∈ labels p) (splitLabels prLabels)
                  /\ forall q, openFor b store = [q] ->
                       number p = number q
                       /\ Forall (fun l => l ∈ labels p) (labels q)
                       /\ map number (after store t3) = map number store)).
  { intros t3 o3. destruct Hord as [Hnd Hone].
    destruct (openFor b store) as [|p ps] eqn:Hb; cbn [map hd_error].
    - unfold mbind, prog_bind. unfold_helpers. unfold consoleLog.
      cbn [bind paths app].
      intros (t5 & -> & r & t6 & -> & H6) (_ & _ & Hc6). revert H6 Hc6.
      cbn [after step]. change (call _) with
        (Create prTitle prBody b
           (labelsOf (flat_map (fun label => ["--label"; label])
                        (splitLabels prLabels)))).
      destruct (r =? 0); cbn [negb bind].
      2:{ intros [-> ->] _. split; [done|]. by intros [n [=]]. }
      destruct (orderly_create store b prTitle prBody
                  (labelsOf (flat_map (fun label => ["--label"; label])
                               (splitLabels prLabels))) (conj Hnd Hone) Hb)
        as [Hord' Hb'].
      intros H6 Hc6.
      destruct (ghPrNumber_store _ _ _ _ _ H6 Hc6) as [-> _].
      split; [done|]. intros _. eexists. split; [exact Hb'|].
      do 2 (split; [done|]). split; [|by intros q [=]].
      cbn [labels]. rewrite labelsOf_flags. by apply Forall_forall.
    - unfold mbind, prog_bind. unfold_helpers. unfold consoleLog.
      cbn [bind paths app].
      intros (t5 & -> & r & t6 & -> & H6) _. revert H6.
      cbn [after step]. change (call _) with
        (Edit (String_of_number (number p)) prTitle prBody
           (labelsOf (flat_map (fun label => ["--label"; label])
                        (splitLabels prLabels)))).
      destruct (r =? 0); cbn [negb bind paths].
      2:{ intros [-> ->]. split; [done|]. by intros [n [=]]. }
      intros [-> ->]. cbn [after]. split; [by apply orderly_edit|].
      intros _. rewrite openFor_edit, Hb.
      specialize (Hone b). rewrite Hb in Hone. destruct ps; [|simpl in Hone; lia].
      eexists. split; [reflexivity|]. rewrite labelsOf_flags.
      assert (E : edit (String_of_number (number p)) prTitle prBody
                    (splitLabels prLabels) p
                  = {| number := number p; head := head p; title := prTitle;
                       body := prBody;
                       labels := remove_dups (labels p ++ splitLabels prLabels) |}).
      { unfold edit. by rewrite String.eqb_refl. }
      rewrite E. cbn [title body labels number].
      do 2 (split; [done|]). split.
      { apply Forall_forall. intros l Hl.
        apply elem_of_remove_dups, elem_of_app. by right. }
      intros q [= <-]. split; [done|]. split.
      + apply Forall_forall. intros l Hl.
        apply elem_of_remove_dups, elem_of_app. by left.
      + rewrite map_map. apply map_ext. intros a. apply edit_number. }
  apply paths_mbind in H2 as [(n & t3 & t4 & H3 & H4 & ->)|(o3 & H3 & Hpass)].
  - apply consistent_app in Hc2 as [Hc3 Hc4].
    destruct (Hpub _ _ H3 Hc3) as [Ho3 Hp3].
    destruct (after_inert (after store t3) t4 (Hmerge _ _ _ H4)) as [Ha4 _].
    rewrite after_app, Ha4. split; [done|]. intros _.
    destruct Hp3 as (p & Hp & Ht & Hb & Hl & Hq); [by exists n|].
    exists p. do 4 (split; [done|]). intros q Hq'.
    destruct (Hq q Hq') as (Hn & Hls & Hm). done.
  - destruct (Hpub _ _ H3 Hc2) as [Ho3 _]. split; [done|].
    intros ->. by destruct o3.
Qed.

(** *** The Committed state and the whole run *)

Lemma commitAndPublish_paths type name cur newVersion prLabels autoMerge env t o :
  paths (commitAndPublish type name cur newVersion prLabels autoMerge env) t o ->
  (Forall notGh t /\ o <> Returned tt)
  \/ exists t3 t4,
       t = t3 ++ t4 /\ Forall notGh t3
       /\ committed t3 (prTitle type name cur newVersion)
       /\ paths (publish (branch type name) (prTitle type name cur newVersion)
                   (prBody type name cur newVersion) prLabels autoMerge env) t4 o.
Proof.
  unfold commitAndPublish. unfold mbind, prog_bind. unfold_helpers.
  unfold consoleLog, consoleError, exit.
  destruct type; cbn [bind paths].
  - intros (? & -> & ? & -> & ? & -> & ? & -> & r1 & ? & -> & H). revert H.
    destruct (r1 =? 0); cbn [negb bind paths].
    2:{ intros [-> ->]. left. split; [by repeat constructor|done]. }
    intros (r2 & ? & -> & H). revert H.
    destruct (r2 =? 0); cbn [negb bind paths].
    2:{ intros [-> ->]. left. split; [by repeat constructor|done]. }
    intros (r3 & ? & -> & H). revert H.
    destruct (r3 =? 0); cbn [negb bind paths].
    { intros (? & -> & -> & ->). left. split; [by repeat constructor|done]. }
    intros (r4 & ? & -> & H). revert H.
    destruct (Z.eqb_spec r4 0) as [->|?]; cbn [negb bind paths].
    2:{ intros [-> ->]. left. split; [by repeat constructor|done]. }
    intros (r5 & t4 & -> & H). revert H.
    destruct (r5 =? 0); cbn [negb bind paths].
    2:{ intros [-> ->]. left. split; [by repeat constructor|done]. }
    intros H. right. eexists _, t4. split.
    { rewrite <-(app_nil_l t4) at 1. rewrite !app_comm_cons. reflexivity. }
    split; [by repeat constructor|]. split; [|done].
    eexists. split; [do 7 right; by left | done].
  - intros (? & -> & ? & -> & ? & -> & ? & -> & r1 & ? & -> & H). revert H.
    destruct (r1 =? 0); cbn [negb bind paths].
    2:{ intros [-> ->]. left. split; [by repeat constructor|done]. }
    intros (r2 & ? & -> & H). revert H.
    destruct (r2 =? 0); cbn [negb bind paths].
    2:{ intros [-> ->]. left. split; [by repeat constructor|done]. }
    intros (r3 & ? & -> & H). revert H.
    destruct (r3 =? 0); cbn [negb bind paths].
    { intros (? & -> & -> & ->). left. split; [by repeat constructor|done]. }
    intros (r4 & ? & -> & H). revert H.
    destruct (Z.eqb_spec r4 0) as [->|?]; cbn [negb bind paths].
    2:{ intros [-> ->]. left. split; [by repeat constructor|done]. }
    intros (r5 & t4 & -> & H). revert H.
    destruct (r5 =? 0); cbn [negb bind paths].
    2:{ intros [-> ->]. left. split; [by repeat constructor|done]. }
    intros H. right. eexists _, t4. split.
    { rewrite <-(app_nil_l t4) at 1. rewrite !app_comm_cons. reflexivity. }
    split; [by repeat constructor|]. split; [|done].
    eexists. split; [do 7 right; by left | done].
Qed.

Lemma notGh_inert e : notGh e -> inert e.
Proof. apply inert_not_gh. Qed.

Lemma prelude_not_push e : prelude e -> gitSubcommand e <> Some "push".
Proof.
  intros [H _] Hp. unfold commitsOrPublishes in H. rewrite Hp in H.
  by rewrite orb_true_r in H.
Qed.

(** One run of the script over the proposals. *)
Lemma run_store argv processEnv type name cur store t o :
  namesItem argv type name cur -> orderly store ->
  paths (script argv processEnv) t o -> consistent store t ->
  orderly (after store t)
  /\ (o = Returned tt -> pushed t ->
      exists newVersion p,
        openFor (branch type name) (after store t) = [p]
        /\ title p = prTitle type name cur newVersion
        /\ body p = prBody type name cur newVersion
        /\ committed t (prTitle type name cur newVersion)
        /\ Forall (fun l => l ∈ labels p)
             (splitLabels (getEnv processEnv "PR_LABELS" "dependencies,automated"))
        /\ forall q, openFor (branch type name) store = [q] ->
             number p = number q
             /\ Forall (fun l => l ∈ labels p) (labels q)
             /\ map number (after store t) = map number store).
Proof.
  intros Hitem Hord Hs Hcons.
  assert (Hmain : forall t o, paths (main argv processEnv) t o ->
            consistent store t ->
            orderly (after store t)
            /\ (o = Returned tt -> pushed t ->
                exists newVersion p,
                  openFor (branch type name) (after store t) = [p]
                  /\ title p = prTitle type name cur newVersion
                  /\ body p = prBody type name cur newVersion
                  /\ committed t (prTitle type name cur newVersion)
                  /\ Forall (fun l => l ∈ labels p)
                       (splitLabels (getEnv processEnv "PR_LABELS"
                                       "dependencies,automated"))
                  /\ forall q, openFor (branch type name) store = [q] ->
                       number p = number q
                       /\ Forall (fun l => l ∈ labels p) (labels q)
                       /\ map number (after store t) = map number store)).
  { clear t o Hs Hcons. intros t o Hm Hcons.
    destruct (main_leads argv processEnv t o Hm)
      as [Hall|(t1 & t2 & -> & Hall & type' & name' & cur' & newVersion & Hitem' & Hp)].
    { destruct (after_inert store t) as [-> _].
      { eapply Forall_impl; [exact Hall|]. apply prelude_inert. }
      split; [done|]. intros _ (e & He & Hpush). exfalso.
      rewrite Forall_forall in Hall. eapply prelude_not_push; [|exact Hpush].
      apply Hall. by apply list_elem_of_In. }
    destruct (namesItem_unique _ _ _ _ _ _ _ Hitem Hitem') as (-> & -> & ->).
    apply consistent_app in Hcons as [Hc1 Hc2].
    destruct (after_inert store t1) as [Ha1 _].
    { eapply Forall_impl; [exact Hall|]. apply prelude_inert. }
    rewrite after_app, Ha1. rewrite Ha1 in Hc2.
    assert (Hsplit : exists tq tp, t2 = tq ++ tp /\ Forall inert tq
              /\ ((tp = [] /\ o <> Returned tt)
                  \/ (committed tq (prTitle type name cur newVersion)
                      /\ paths (publish (branch type name)
                                  (prTitle type name cur newVersion)
                                  (prBody type name cur newVersion)
                                  (getEnv processEnv "PR_LABELS" "dependencies,automated")
                                  (getEnv processEnv "AUTO_MERGE" "false")
                                  (<["NIX_PATH" := "nixpkgs=flake:nixpkgs"]> processEnv))
                           tp o))).
    { apply scopeCheckAndPublish_paths in Hp
        as (c1 & changed & c2 & untracked & t' & -> & [Hc1' Ha1'] & [Hc2' Ha2'] & H).
      assert (Hi1 : inert (EvOutput c1 changed)).
      { apply inert_not_gh. unfold isGh. simpl. by rewrite Hc1'. }
      assert (Hi2 : inert (EvOutput c2 untracked)).
      { apply inert_not_gh. unfold isGh. simpl. by rewrite Hc2'. }
      assert (Hlog : forall s text, inert (EvLog s text)) by done.
      destruct H as [(_ & -> & ->)|[(f & _ & _ & -> & ->)|(_ & t'' & -> & H)]].
      - eexists _, []. split; [symmetry; apply app_nil_r|].
        split; [|by left]. repeat (apply List.Forall_cons; [first [assumption | apply Hlog]|]). apply List.Forall_nil.
      - eexists _, []. split; [symmetry; apply app_nil_r|].
        split; [|by left]. repeat (apply List.Forall_cons; [first [assumption | apply Hlog]|]). apply List.Forall_nil.
      - apply commitAndPublish_paths in H
          as [[Hq Hno]|(t3 & t4 & -> & Hq & Hcommit & Hpub)].
        + eexists _, []. split; [symmetry; apply app_nil_r|]. split; [|by left].
          do 2 (constructor; [done|]). apply Forall_app.
          split; [repeat (apply List.Forall_cons; [first [assumption | apply Hlog]|]); apply List.Forall_nil|].
          eapply Forall_impl; [exact Hq|]. apply notGh_inert.
        + exists (EvOutput c1 changed :: EvOutput c2 untracked
                  :: worktreeLogs (allFilesOf (trimLines (stdout changed))
                                              (trimLines (stdout untracked)))
                  ++ t3), t4.
          split; [cbn [app]; do 2 f_equal; apply app_assoc|]. split.
          { do 2 (constructor; [done|]). apply Forall_app.
            split; [repeat (apply List.Forall_cons; [first [assumption | apply Hlog]|]); apply List.Forall_nil|].
            eapply Forall_impl; [exact Hq|]. apply notGh_inert. }
          right. split; [|done]. destruct Hcommit as (c & Hin & Hc).
          exists c. split; [|done]. do 2 right. apply in_or_app. by right. }
    destruct Hsplit as (tq & tp & -> & Hq & [[-> Hno]|[Hcommit Hpub]]).
    - rewrite app_nil_r. destruct (after_inert store tq Hq) as [-> _].
      by split.
    - apply consistent_app in Hc2 as [Hcq Hcp].
      destruct (after_inert store tq Hq) as [Haq _].
      rewrite after_app, Haq. rewrite Haq in Hcp.
      destruct (publish_store _ _ _ _ _ _ _ _ _ Hpub Hcp Hord) as [Ho Hone].
      split; [done|]. intros -> _.
      destruct (Hone eq_refl) as (p & Hp1 & Hp2 & Hp3 & Hp4 & Hp5).
      exists newVersion, p. do 3 (split; [done|]). split.
      { destruct Hcommit as (c & Hin & Hc). exists c. split; [|done].
        apply in_or_app. right. apply in_or_app. by left. }
      split; [done|]. intros q Hq'.
      destruct (Hp5 q Hq') as (Hn & Hls & Hnum). done. }
  apply script_paths in Hs as [[Hm _]|(msg & t1 & Hm & -> & ->)].
  - by apply Hmain.
  - apply consistent_app in Hcons as [Hc1 _].
    destruct (Hmain _ _ Hm Hc1) as [Ho _].
    rewrite after_app. by split.
Qed.

End WithRuntime.
End StoreFacts.

(** * More on the version ordering *)

Module VersionFacts.
Import Js Version VersionOrder VersionText.

Lemma split_cons sep s : exists p ps, split sep s = p :: ps.
Proof.
  induction s as [|c s IH]; simpl; [by eexists _, _|].
  destruct (Ascii.eqb c sep); [by eexists _, _|].
  destruct IH as (p & ps & ->). by eexists _, _.
Qed.

(** The first piece is the text before the first separator. *)
Lemma split_replaced_first s :
  nth 0 (split "-" (replaceFirst "+" "-" s)) "" = fst (breakAt s).
Proof.
  induction s as [|c s IH]; [done|]. simpl. unfold is_separator.
  destruct (Ascii.eqb_spec c "+") as [->|Hp]; [done|].
  destruct (Ascii.eqb_spec c "-") as [->|Hm]; [done|]. simpl.
  destruct (Ascii.eqb_spec c "-") as [|_]; [done|].
  destruct (split_cons "-" (replaceFirst "+" "-" s)) as (p & ps & E).
  rewrite E in IH |- *. simpl in IH |- *. rewrite IH.
  by destruct (breakAt s).
Qed.

Lemma split_first_prefix sep s :
  String.prefix (nth 0 (split sep s) "") s = true.
Proof.
  induction s as [|c s IH]; [done|]. simpl.
  destruct (Ascii.eqb c sep); [done|].
  destruct (split_cons sep s) as (p & ps & E). rewrite E in IH |- *. simpl in *.
  by destruct (ascii_dec c c).
Qed.

Lemma split_first_whole s :
  has_separator s = false -> nth 0 (split "-" s) "" = s.
Proof.
  induction s as [|c s IH]; [done|]. simpl. unfold is_separator.
  intros [[Hm _]%orb_false_iff Hs]%orb_false_iff. rewrite Hm.
  destruct (split_cons "-" s) as (p & ps & E). rewrite E in IH |- *. simpl in *.
  by rewrite IH.
Qed.

Lemma breakAt_prefix s : String.prefix (fst (breakAt s)) s = true.
Proof.
  induction s as [|c s IH]; [done|]. simpl.
  destruct (is_separator c); [done|].
  destruct (breakAt s). simpl in *. by destruct (ascii_dec c c).
Qed.

Lemma breakAt_whole s : has_separator s = false -> fst (breakAt s) = s.
Proof.
  induction s as [|c s IH]; [done|]. simpl.
  intros [-> Hs]%orb_false_iff. specialize (IH Hs).
  destruct (breakAt s). simpl in *. by rewrite IH.
Qed.

(** The second piece is a prefix of the text after the first separator,
    and all of it when no separator follows. *)
Lemma split_replaced_second s :
  match snd (breakAt s) with
  | None => nth 1 (split "-" (replaceFirst "+" "-" s)) "" = ""
  | Some rest =>
      String.prefix (nth 1 (split "-" (replaceFirst "+" "-" s)) "") rest = true
      /\ (has_separator rest = false ->
          nth 1 (split "-" (replaceFirst "+" "-" s)) "" = rest)
  end.
Proof.
  induction s as [|c s IH]; [done|]. simpl. unfold is_separator.
  destruct (Ascii.eqb_spec c "+") as [->|Hp].
  { simpl. split; [apply split_first_prefix | apply split_first_whole]. }
  destruct (Ascii.eqb_spec c "-") as [->|Hm].
  { simpl. rewrite split_replaced_first.
    split; [apply breakAt_prefix | apply breakAt_whole]. }
  simpl. destruct (Ascii.eqb_spec c "-") as [|_]; [done|].
  destruct (split_cons "-" (replaceFirst "+" "-" s)) as (p & ps & E).
  rewrite E in IH |- *. destruct (breakAt s) as [before rest]. simpl in *.
  by destruct ps.
Qed.

Lemma allIntegers_Some xs ns :
  allIntegers xs = Some ns <-> xs = map Some ns.
Proof.
  revert ns. induction xs as [|[x|] xs IH]; intros ns; simpl.
  - split; [by intros [= <-] | by destruct ns].
  - destruct (allIntegers xs) as [ms|] eqn:E.
    + split.
      * intros [= <-]. simpl. f_equal. by apply IH.
      * destruct ns as [|n ns]; [done|]. simpl. intros [= -> H].
        apply IH in H. by injection H as ->.
    + split; [done|]. destruct ns as [|n ns]; [done|]. simpl. intros [= -> H].
      by apply IH in H.
  - split; [done|]. by destruct ns.
Qed.

Lemma allIntegers_None xs :
  allIntegers xs = None <-> Exists (fun x => x = None) xs.
Proof.
  induction xs as [|[x|] xs IH]; simpl.
  - split; [done|]. by intros ?%Exists_nil.
  - destruct (allIntegers xs) eqn:E.
    + split; [done|]. intros [[=]|H]%Exists_cons. by apply IH in H.
    + split; [|done]. intros _. right. by apply IH.
  - split; [|done]. intros _. by left.
Qed.

Section WithRuntime.
Context `{rt : Runtime}.

Lemma parseVersion_numeric v :
  numericParts (parseVersion v)
  = let numeric := fst (breakAt (stripLeadingV v)) in
    if is_empty numeric then None
    else allIntegers (map Number_integer (split "." numeric)).
Proof.
  unfold parseVersion, splitLimit.
  destruct (split_cons "-" (replaceFirst "+" "-" (stripLeadingV v)))
    as (p & ps & E).
  pose proof (split_replaced_first (stripLeadingV v)) as H.
  rewrite E in H |- *. simpl in H. subst p. simpl.
  by destruct (is_empty _).
Qed.

Lemma parseVersion_suffix v :
  suffix (parseVersion v)
  = nth 1 (split "-" (replaceFirst "+" "-" (stripLeadingV v))) "".
Proof.
  unfold parseVersion, splitLimit. cbn zeta.
  assert (E : forall l : list string, nth 1 (firstn 2 l) "" = nth 1 l "").
  { by intros [|p [|q qs]]. }
  destruct (is_empty _); simpl; apply E.
Qed.

Lemma compareVersions_sign a b :
  compareVersions a b = -1 \/ compareVersions a b = 0 \/ compareVersions a b = 1.
Proof.
  unfold compareVersions. destruct (String.eqb a b); [auto|].
  destruct (numericParts (parseVersion a)) as [pa|];
    [|destruct (String.ltb a b); auto].
  destruct (numericParts (parseVersion b)) as [pb|];
    [|destruct (String.ltb a b); auto].
  simpl. destruct (compareParts_range (Nat.max (length pa) (length pb)) 0 pa pb)
    as [-> | [-> | ->]]; simpl; auto.
  unfold compareSuffix. destruct (String.eqb _ _); [auto|].
  destruct (is_empty _); [auto|]. destruct (is_empty _); [auto|].
  destruct (String.ltb _ _); auto.
Qed.

End WithRuntime.
End VersionFacts.

Import Js Version VersionOrder VersionText VersionFacts.

(** X1.  [shouldUpdate] never recommends a version for itself, never
    recommends two versions for each other, and when it recommends neither
    of two versions for the other, [compareVersions] ranks them equal. *)
Theorem shouldUpdate_asymmetric `{rt : Runtime} (a b : string) :
  shouldUpdate a a = false
  /\ shouldUpdate a b && shouldUpdate b a = false
  /\ (shouldUpdate a b || shouldUpdate b a = false <-> compareVersions a b = 0).
Proof.
  unfold shouldUpdate. rewrite compareVersions_refl, (compareVersions_flip a b).
  split; [done|].
  destruct (compareVersions_sign a b) as [-> | [-> | ->]]; by repeat split.
Qed.

(** X2.  The numeric parts of a parsed version are all or nothing: when they
    are present there is one integer for each dot-separated component of
    the text before the first [-] or [+] (after one leading [v] is
    dropped), in order; they are absent exactly when that text is empty or
    one of its components is no integer. *)
Theorem parseVersion_all_or_nothing `{rt : Runtime} (v : string) :
  let components := split "." (fst (breakAt (stripLeadingV v))) in
  match numericParts (parseVersion v) with
  | Some ns =>
      fst (breakAt (stripLeadingV v)) <> ""
      /\ map Number_integer components = map Some ns
  | None =>
      fst (breakAt (stripLeadingV v)) = ""
      \/ Exists (fun part => Number_integer part = None) components
  end.
Proof.
  intros components. rewrite parseVersion_numeric. cbn zeta.
  destruct (fst (breakAt (stripLeadingV v))) as [|c s] eqn:E; [by left|].
  cbn [is_empty]. fold components.
  destruct (allIntegers (map Number_integer components)) as [ns|] eqn:Ha.
  - split; [done|]. by apply allIntegers_Some.
  - right. apply allIntegers_None in Ha. apply Exists_exists in Ha as (x & Hx & ->).
    apply list_elem_of_In, in_map_iff in Hx as (part & Hp & Hin).
    apply Exists_exists. exists part. split; [by apply list_elem_of_In|done].
Qed.

(** X3.  The suffix of a parsed version is empty when the text has no [-]
    or [+]; otherwise it is a prefix of the text after the first of them,
    and the whole of that text when no further [-] or [+] follows. *)
Theorem parseVersion_suffix_of_rest `{rt : Runtime} (v : string) :
  match snd (breakAt (stripLeadingV v)) with
  | None => suffix (parseVersion v) = ""
  | Some rest =>
      String.prefix (suffix (parseVersion v)) rest = true
      /\ (has_separator rest = false -> suffix (parseVersion v) = rest)
  end.
Proof. rewrite parseVersion_suffix. apply split_replaced_second. Qed.

Lemma parseVersion_suffix_of_rest_witness :
  let rt := DecimalRuntime.runtime0 in
  suffix (parseVersion "v1.2.3-beta.1") = "beta.1".
Proof.
  intros rt.
  exact (proj2 (parseVersion_suffix_of_rest (rt := rt) "v1.2.3-beta.1") eq_refl).
Defined.

(** X4.  One leading [v] does not count when the version is numeric: for a
    text [a] that does not start with [v] and has numeric parts,
    [compareVersions] ranks [v] followed by [a] equal to [a], and
    [shouldUpdate] recommends neither for the other. *)
Theorem compareVersions_leading_v `{rt : Runtime} (a : string) :
  startsWith a "v" = false ->
  numericParts (parseVersion a) <> None ->
  parseVersion ("v" +:+ a) = parseVersion a
  /\ compareVersions ("v" +:+ a) a = 0
  /\ shouldUpdate a ("v" +:+ a) = false
  /\ shouldUpdate ("v" +:+ a) a = false.
Proof.
  intros Hv Hnum.
  assert (Hp : parseVersion ("v" +:+ a) = parseVersion a).
  { unfold parseVersion.
    change (stripLeadingV ("v" +:+ a))
      with (if String.prefix "" a then a else String "v" a).
    replace (String.prefix "" a) with true by (by destruct a).
    replace (stripLeadingV a) with a by (unfold stripLeadingV; by rewrite Hv).
    done. }
  assert (Hc : compareVersions ("v" +:+ a) a = 0).
  { unfold compareVersions. rewrite Hp.
    destruct (String.eqb _ _); [done|].
    destruct (numericParts (parseVersion a)) as [pa|]; [|done].
    by rewrite compareParts_refl, compareSuffix_refl. }
  split; [done|]. split; [done|].
  unfold shouldUpdate. by rewrite (compareVersions_flip ("v" +:+ a) a), Hc.
Qed.

Lemma compareVersions_leading_v_witness :
  let rt := DecimalRuntime.runtime0 in
  parseVersion "v1.4.0" = parseVersion "1.4.0"
  /\ compareVersions "v1.4.0" "1.4.0" = 0
  /\ shouldUpdate "1.4.0" "v1.4.0" = false
  /\ shouldUpdate "v1.4.0" "1.4.0" = false.
Proof.
  intros rt. apply (compareVersions_leading_v (rt := rt) "1.4.0").
  - reflexivity.
  - vm_compute. discriminate.
Defined.

(** X5.  [compareVersions] returns -1, 0 or 1, and it returns 0 for two
    different strings only when both have numeric parts: the comparison of
    the raw strings never ties. *)
Theorem compareVersions_tie `{rt : Runtime} (a b : string) :
  (compareVersions a b = -1 \/ compareVersions a b = 0 \/ compareVersions a b = 1)
  /\ (a <> b -> compareVersions a b = 0 ->
      numericParts (parseVersion a) <> None
      /\ numericParts (parseVersion b) <> None
      /\ suffix (parseVersion a) = suffix (parseVersion b)).
Proof.
  split; [apply compareVersions_sign|].
  intros Hne. unfold compareVersions.
  destruct (String.eqb_spec a b) as [|_]; [done|].
  destruct (numericParts (parseVersion a)) as [pa|];
    [|by destruct (String.ltb a b)].
  destruct (numericParts (parseVersion b)) as [pb|];
    [|by destruct (String.ltb a b)].
  simpl. destruct (Z.eqb_spec (compareParts (Nat.max (length pa) (length pb)) 0 pa pb) 0)
    as [_|Hc]; [|done].
  intros Hs. split; [done|]. split; [done|].
  unfold compareSuffix in Hs.
  destruct (String.eqb_spec (suffix (parseVersion a)) (suffix (parseVersion b)));
    [done|].
  destruct (is_empty _); [done|]. destruct (is_empty _); [done|].
  by destruct (String.ltb _ _).
Qed.

Lemma compareVersions_tie_witness :
  let rt := DecimalRuntime.runtime0 in
  numericParts (parseVersion "1.2") <> None
  /\ numericParts (parseVersion "1.2.0") <> None
  /\ suffix (parseVersion "1.2") = suffix (parseVersion "1.2.0").
Proof.
  intros rt.
  apply (proj2 (compareVersions_tie (rt := rt) "1.2" "1.2.0")).
  - discriminate.
  - reflexivity.
Defined.

(** * Lines, labels and paths *)

Module TextFacts.
Import Js Command UpdateItem Text.

(** ** [trim] *)

Lemma trimEnd_idem s : trimEnd (trimEnd s) = trimEnd s.
Proof.
  induction s as [|c s IH]; [done|]. cbn [trimEnd].
  destruct (is_space c && is_empty (trimEnd s)) eqn:E; [done|].
  cbn [trimEnd]. by rewrite IH, E.
Qed.

Lemma trimStart_fixed c s : is_space c = false -> trimStart (String c s) = String c s.
Proof. intros H. cbn [trimStart]. by rewrite H. Qed.

Lemma trimEnd_head c s :
  is_space c = false -> trimEnd (String c s) = String c (trimEnd s).
Proof. intros H. cbn [trimEnd]. by rewrite H. Qed.

Lemma trimStart_cases s :
  trimStart s = "" \/ exists c r, trimStart s = String c r /\ is_space c = false.
Proof.
  induction s as [|c s IH]; [by left|]. cbn [trimStart].
  destruct (is_space c) eqn:E; [done|]. right. by exists c, s.
Qed.

Lemma trim_idem s : trim (trim s) = trim s.
Proof.
  unfold trim. destruct (trimStart_cases s) as [->|(c & r & -> & Hc)]; [done|].
  rewrite (trimEnd_head _ _ Hc), (trimStart_fixed _ _ Hc), (trimEnd_head _ _ Hc).
  by rewrite trimEnd_idem.
Qed.

Lemma occurs_nil x : ~ occurs x "".
Proof. by intros []. Qed.

Lemma occurs_cons x c s : occurs x (String c s) <-> c = x \/ occurs x s.
Proof. done. Qed.

(** [trim] keeps characters of its argument only. *)
Lemma trimStart_chars x s : occurs x (trimStart s) -> occurs x s.
Proof.
  induction s as [|c s IH]; [done|]. cbn [trimStart].
  destruct (is_space c); [|done]. intros H. apply occurs_cons. right. by apply IH.
Qed.

Lemma trimEnd_chars x s : occurs x (trimEnd s) -> occurs x s.
Proof.
  induction s as [|c s IH]; [done|]. cbn [trimEnd].
  destruct (is_space c && is_empty (trimEnd s)); [by intros ?%occurs_nil|].
  rewrite !occurs_cons. intros [H|H]; [by left|]. right. by apply IH.
Qed.

Lemma trim_chars x s : occurs x (trim s) -> occurs x s.
Proof. unfold trim. intros H. by apply trimStart_chars, trimEnd_chars. Qed.

(** ** [split] *)

Lemma split_pieces sep s : Forall (fun p => ~ occurs sep p) (split sep s).
Proof.
  induction s as [|c s IH].
  { constructor; [apply occurs_nil|constructor]. }
  cbn [split]. destruct (Ascii.eqb_spec c sep) as [->|Hne].
  - constructor; [apply occurs_nil|done].
  - destruct (split sep s) as [|p ps].
    { constructor; [|constructor]. rewrite occurs_cons.
      intros [H|H]; [done|by apply occurs_nil in H]. }
    apply Forall_cons in IH as [Hp Hps]. constructor; [|done].
    rewrite occurs_cons. intros [H|H]; [done|]. by apply Hp.
Qed.

Lemma split_whole sep p : ~ occurs sep p -> split sep p = [p].
Proof.
  induction p as [|c p IH]; [done|]. rewrite occurs_cons. intros H. cbn [split].
  destruct (Ascii.eqb_spec c sep) as [->|Hne]; [by destruct H; left|].
  rewrite IH; [done|]. intros Hin. apply H. by right.
Qed.

Lemma split_piece sep p rest :
  ~ occurs sep p ->
  split sep (p +:+ String sep rest) = p :: split sep rest.
Proof.
  induction p as [|c p IH]; intros H.
  - change ("" +:+ String sep rest) with (String sep rest). cbn [split].
    by rewrite Ascii.eqb_refl.
  - change (String c p +:+ String sep rest) with (String c (p +:+ String sep rest)).
    rewrite occurs_cons in H.
    cbn [split]. destruct (Ascii.eqb_spec c sep) as [->|Hne]; [by destruct H; left|].
    rewrite IH; [done|]. intros Hin. apply H. by right.
Qed.

(** The pieces of [splitLines] hold no line feed. *)
Lemma splitLines_pieces_upto n s :
  (String.length s <= n)%nat ->
  Forall (fun p => ~ occurs "010" p) (splitLines s).
Proof.
  assert (Hnil : Forall (fun p => ~ occurs "010" p) [""]).
  { constructor; [apply occurs_nil|constructor]. }
  revert s. induction n as [|n IH]; intros s Hn.
  { destruct s; [done|simpl in Hn; lia]. }
  destruct s as [|x s]; [done|]. cbn [splitLines].
  simpl in Hn.
  destruct (Ascii.eqb_spec x "010") as [->|Hx].
  { constructor; [apply occurs_nil|]. apply IH. lia. }
  destruct s as [|y s].
  { constructor; [|constructor]. rewrite occurs_cons.
    intros [H|H]; [done|by apply occurs_nil in H]. }
  destruct (Ascii.eqb x "013" && Ascii.eqb y "010").
  { constructor; [apply occurs_nil|]. apply IH. simpl in Hn. lia. }
  assert (H : Forall (fun p => ~ occurs "010" p) (splitLines (String y s)))
    by (apply IH; lia).
  destruct (splitLines (String y s)) as [|p ps].
  { constructor; [|constructor]. rewrite occurs_cons.
    intros [E|E]; [done|by apply occurs_nil in E]. }
  apply Forall_cons in H as [Hp Hps]. constructor; [|done].
  rewrite occurs_cons. intros [E|E]; [done|]. by apply Hp.
Qed.

Lemma splitLines_pieces s : Forall (fun p => ~ occurs "010" p) (splitLines s).
Proof. by apply (splitLines_pieces_upto (String.length s)). Qed.

Lemma join_cons sep x y rest :
  join sep (x :: y :: rest) = x +:+ sep +:+ join sep (y :: rest).
Proof. reflexivity. Qed.

(** ** Prefixes up to a slash *)

Lemma prefix_append p s : String.prefix p (p +:+ s) = true.
Proof.
  induction p as [|c p IH]; [by destruct s|].
  change (String c p +:+ s) with (String c (p +:+ s)). simpl.
  by destruct (ascii_dec c c).
Qed.

Lemma prefix_inv p s : String.prefix p s = true -> exists r, s = p +:+ r.
Proof.
  revert s. induction p as [|c p IH]; intros s; [by exists s|].
  destruct s as [|d s]; [done|]. simpl.
  destruct (ascii_dec c d) as [->|]; [|done].
  intros (r & ->)%IH. by exists r.
Qed.

Lemma append_inj_l p a b : p +:+ a = p +:+ b -> a = b.
Proof.
  induction p as [|c p IH]; [done|].
  change (String c p +:+ a) with (String c (p +:+ a)).
  change (String c p +:+ b) with (String c (p +:+ b)).
  intros [= H]. by apply IH.
Qed.

Lemma append_assoc (a b c : string) : (a +:+ b) +:+ c = a +:+ (b +:+ c).
Proof.
  induction a as [|x a IH]; [done|].
  change (String x a +:+ b) with (String x (a +:+ b)).
  change (String x (a +:+ b) +:+ c) with (String x ((a +:+ b) +:+ c)).
  change (String x a +:+ (b +:+ c)) with (String x (a +:+ (b +:+ c))).
  by rewrite IH.
Qed.

(** Two names without a slash, each followed by a slash: one is a prefix
    of the other only if they are the same. *)
Lemma dir_prefix n m r r' :
  ~ occurs "/" n ->
  ~ occurs "/" m ->
  n +:+ String "/" r = m +:+ String "/" r' -> n = m.
Proof.
  revert m. induction n as [|c n IH]; intros m Hn Hm.
  - destruct m as [|d m]; [done|].
    change ("" +:+ String "/" r) with (String "/" r).
    change (String d m +:+ String "/" r') with (String d (m +:+ String "/" r')).
    intros [= <- _]. destruct Hm. apply occurs_cons. by left.
  - destruct m as [|d m].
    + change ("" +:+ String "/" r') with (String "/" r').
      change (String c n +:+ String "/" r) with (String c (n +:+ String "/" r)).
      intros [= -> _]. destruct Hn. apply occurs_cons. by left.
    + change (String c n +:+ String "/" r) with (String c (n +:+ String "/" r)).
      change (String d m +:+ String "/" r') with (String d (m +:+ String "/" r')).
      intros [= -> H]. f_equal. apply (IH m); [| |done].
      * intros Hin. apply Hn. apply occurs_cons. by right.
      * intros Hin. apply Hm. apply occurs_cons. by right.
Qed.

(** [splitLabels] reads back a list of labels joined by commas. *)
Lemma splitLabels_join (labels : list string) :
  Forall (fun l => trimmed l /\ ~ occurs "," l) labels ->
  splitLabels (join "," labels) = labels.
Proof.
  unfold splitLabels. induction 1 as [|l labels [[Hl1 Hl2] Hl3] Hls IH]; [done|].
  destruct labels as [|l' labels].
  - cbn [join]. rewrite (split_whole _ _ Hl3). cbn [map List.filter].
    by rewrite Hl2, Hl1.
  - rewrite join_cons.
    change ("," +:+ join "," (l' :: labels)) with (String "," (join "," (l' :: labels))).
    rewrite (split_piece _ _ _ Hl3). cbn [map List.filter].
    by rewrite Hl2, Hl1, IH.
Qed.

End TextFacts.

Import Js Command UpdateItem Text TextFacts.

(** X6.  Every line that [trimLines] returns is not empty, has no white
    space at either end and holds no line feed. *)
Theorem trimLines_lines (text : string) :
  Forall (fun l => trimmed l /\ ~ occurs "010" l) (trimLines text).
Proof.
  unfold trimLines. apply Forall_forall. intros l [Hl Hin]%list_elem_of_filter.
  apply list_elem_of_In, in_map_iff in Hin as (p & <- & Hp).
  split; [split; [done | apply trim_idem]|].
  intros H%trim_chars. pose proof (splitLines_pieces text) as Hall.
  rewrite Forall_forall in Hall. by apply (Hall p); [apply list_elem_of_In|].
Qed.

(** X7.  Reading back a listing: for paths that are not empty, hold no line
    terminator and have no white space at either end, [trimLines] of the
    text with one path per line is the list of the paths. *)
Theorem trimLines_of_listing (ps : list string) :
  Forall Git.plainPath ps -> trimLines (Git.unlines ps) = ps.
Proof. apply (TreeFacts.trimLines_unlines (rt := DecimalRuntime.runtime0)). Qed.

Lemma trimLines_of_listing_witness :
  trimLines (Git.unlines ["flake.lock"; "packages/foo/package.nix"])
  = ["flake.lock"; "packages/foo/package.nix"].
Proof.
  apply (trimLines_of_listing ["flake.lock"; "packages/foo/package.nix"]).
  repeat constructor.
Defined.

(** X8.  The enumeration of the ScopeChecked state is strictly ascending
    (sorted, each path once) and holds exactly the paths of the two
    listings. *)
Theorem allFilesOf_sorted_union (changedFiles untrackedFiles : list string) :
  strictlyAscending (allFilesOf changedFiles untrackedFiles)
  /\ forall f, f ∈ allFilesOf changedFiles untrackedFiles
               <-> f ∈ changedFiles \/ f ∈ untrackedFiles.
Proof.
  split; [|intros f; apply TreeFacts.allFilesOf_elem].
  unfold allFilesOf. apply DiscoveryFacts.strictlyAscending_sort, NoDup_elements.
Qed.

(** X9.  The allow-lists keep the items apart.  [README.md] is allowed for
    every item; the lock document is never allowed for a package; for
    package names without a slash, a path under the directory of another
    package is allowed exactly when the two names are the same; and a
    pinned reference allows the lock document and [README.md] only. *)
Theorem isAllowedChange_isolates :
  (forall type name, isAllowedChange type name "README.md" = true)
  /\ (forall name, isAllowedChange package name "flake.lock" = false)
  /\ (forall name other rest,
        ~ occurs "/" name -> ~ occurs "/" other ->
        isAllowedChange package name ("packages/" +:+ other +:+ "/" +:+ rest) = true
        <-> other = name)
  /\ (forall name file,
        isAllowedChange flake_input name file = true
        <-> file = "flake.lock" \/ file = "README.md").
Proof.
  split; [by intros []|]. split; [done|]. split.
  - intros name other rest Hn Ho.
    change (isAllowedChange package name ("packages/" +:+ other +:+ "/" +:+ rest))
      with (String.prefix ("packages/" +:+ name +:+ "/")
              ("packages/" +:+ other +:+ "/" +:+ rest)).
    change (String.prefix ("packages/" +:+ name +:+ "/")
              ("packages/" +:+ other +:+ "/" +:+ rest))
      with (String.prefix (name +:+ "/") (other +:+ String "/" rest)).
    split.
    + intros (r & E)%prefix_inv. rewrite append_assoc in E.
      symmetry. by apply (dir_prefix name other ("" +:+ r) rest).
    + intros ->. change (String "/" rest) with ("/" +:+ rest).
      rewrite <- append_assoc. apply prefix_append.
  - intros name file. unfold isAllowedChange.
    destruct (String.eqb_spec file "flake.lock") as [->|H1]; [by split; [left|]|].
    destruct (String.eqb_spec file "README.md") as [->|H2]; [by split; [right|]|].
    split; [done|]. by intros [|].
Qed.

Lemma isAllowedChange_isolates_witness :
  isAllowedChange package "foo" ("packages/" +:+ "foo-bar" +:+ "/" +:+ "package.nix")
  = true <-> "foo-bar" = "foo".
Proof.
  apply (proj1 (proj2 (proj2 isAllowedChange_isolates)) "foo" "foo-bar" "package.nix").
  - unfold occurs. simpl. intros H. repeat (destruct H as [H|H]; [discriminate|]). done.
  - unfold occurs. simpl. intros H. repeat (destruct H as [H|H]; [discriminate|]). done.
Defined.

(** X10.  Two items of the same kind share their branch only if they have
    the same name; a package and a pinned reference share a branch exactly
    when the name of the package is [flake-input/] followed by the name of
    the reference. *)
Theorem branch_injective :
  (forall type name name', branch type name = branch type name' -> name = name')
  /\ (forall name name',
        branch package name = branch flake_input name'
        <-> name = "flake-input/" +:+ name').
Proof.
  split.
  - intros [] name name' H.
    + by apply (append_inj_l "update/").
    + by apply (append_inj_l "update/flake-input/").
  - intros name name'. split.
    + intros H. by apply (append_inj_l "update/").
    + by intros ->.
Qed.

Lemma branch_injective_witness :
  "flake-input/nixpkgs" = "flake-input/" +:+ "nixpkgs"
  /\ branch package "flake-input/nixpkgs" = branch flake_input "nixpkgs".
Proof.
  split; [reflexivity|].
  apply (proj2 (proj2 branch_injective "flake-input/nixpkgs" "nixpkgs")).
  reflexivity.
Defined.

(** X11.  [splitLabels] returns labels that are not empty, have no white
    space at either end and hold no comma; and it reads back a list of
    such labels joined by commas. *)
Theorem splitLabels_labels :
  (forall text, Forall (fun l => trimmed l /\ ~ occurs "," l) (splitLabels text))
  /\ (forall labels,
        Forall (fun l => trimmed l /\ ~ occurs "," l) labels ->
        splitLabels (join "," labels) = labels).
Proof.
  split.
  - intros text. unfold splitLabels. apply Forall_forall.
    intros l Hin. apply list_elem_of_In, filter_In in Hin as [Hin Hl].
    apply in_map_iff in Hin as (p & <- & Hp).
    split; [split; [done | apply trim_idem]|].
    intros H%trim_chars. pose proof (split_pieces "," text) as Hall.
    rewrite Forall_forall in Hall. by apply (Hall p); [apply list_elem_of_In|].
  - apply splitLabels_join.
Qed.

Lemma splitLabels_labels_witness :
  splitLabels "dependencies,automated" = ["dependencies"; "automated"].
Proof.
  apply (proj2 splitLabels_labels ["dependencies"; "automated"]).
  repeat constructor; unfold occurs; simpl; intros H;
    repeat (destruct H as [H|H]; [discriminate|]); done.
Defined.

(** * The discipline of the update script *)

Module DisciplineFacts.
Import Js Command Trace Discipline UpdateItem Paths UpdateFacts ScriptFacts.

(** Closes [strict] goals over concrete commands. *)
Ltac strict_tac :=
  repeat first
    [ progress cbn [strict bind tryCatch]
    | progress unfold mbind, prog_bind, mret, prog_ret
    | progress unfold consoleLog, consoleError, exit
    | match goal with
      | |- strict (if ?b then _ else _) => destruct b
      | |- strict (match ?x with _ => _ end) => destruct x
      | |- strict (bind (if ?b then _ else _) _) => destruct b
      | |- strict (bind (match ?x with _ => _ end) _) => destruct x
      | |- strict (tryCatch (if ?b then _ else _) _) => destruct b
      | |- _ /\ _ => split
      | |- checked _ = true -> _ =>
          let H := fresh in
          intros H;
          first
            [ exfalso; vm_compute in H; discriminate H
            | let Hr := fresh in
              intros Hr;
              match goal with
              | |- context [?r =? 0] =>
                  destruct (Z.eqb_spec r 0); [contradiction | reflexivity]
              end ]
      | |- forall _, _ => intro
      | |- True => exact I
      end ].

Section WithRuntime.
Context `{rt : Runtime}.

(** ** [strict] *)

Lemma strict_bind {A B} (p : Prog A) (f : A -> Prog B) :
  strict p -> (forall a, strict (f a)) -> strict (bind p f).
Proof.
  intros Hp Hf. induction p as [| | |c k IH|c k IH|path k IH|path k IH
                                |path text k IH|path k IH|s text k IH];
    cbn [bind strict] in *; try done; try (intros r; by apply IH).
  - intros r. destruct (Hp r) as [Hc Hk]. split; [|by apply IH].
    intros H1 H2. by rewrite (Hc H1 H2).
  - by apply IH.
Qed.

Lemma strict_forEach {X} (xs : list X) body :
  (forall x, strict (body x)) -> strict (forEach xs body).
Proof.
  intros H. induction xs as [|x xs IH]; [done|].
  cbn [forEach]. apply strict_bind; [apply H|by intros _].
Qed.

Lemma strict_paths {A} (p : Prog A) t o t1 c r t2 :
  strict p -> paths p t o -> t = t1 ++ EvSpawn c r :: t2 ->
  checked c = true -> r <> 0 ->
  t2 = [] /\ o = Thrown (failMessage c r).
Proof.
  intros Hs Hp -> Hc Hr. revert t1 Hp.
  induction p as [| | |c0 k IH|c0 k IH|path k IH|path k IH
                  |path text k IH|path k IH|s text k IH];
    intros t1; cbn [paths strict] in *;
    try (intros [E _]; by destruct t1);
    try (intros (r0 & t' & E & Hp); destruct t1 as [|e t1];
         [discriminate E | simplify_eq/=; by eapply IH]).
  - intros (r0 & t' & E & Hp). destruct (Hs r0) as [Hk Hs'].
    destruct t1 as [|e t1]; simplify_eq/=.
    + rewrite (Hk Hc Hr) in Hp. by destruct Hp.
    + by eapply IH.
  - intros (t' & E & Hp). destruct t1 as [|e t1];
      [discriminate E | simplify_eq/=; by eapply IH].
Qed.

Lemma strict_runChecked command args env :
  strict (runChecked command args env).
Proof. unfold runChecked, runStatus. strict_tac. Qed.

Lemma strict_gitPorcelain env : strict (gitPorcelain env).
Proof. unfold gitPorcelain. unfold_helpers. strict_tac. Qed.

Lemma strict_readExtraArgs candidates : strict (readExtraArgs candidates).
Proof.
  induction candidates as [|p ps IH]; [done|].
  cbn [readExtraArgs]. unfold_helpers. strict_tac; done.
Qed.

Lemma strict_update type name env : strict (update type name env).
Proof.
  unfold update. destruct type.
  - unfold_helpers. cbn [bind strict]. intros r.
    destruct r; cbn [bind strict]; [| |done].
    + strict_tac.
    + apply strict_bind; [apply strict_readExtraArgs|].
      intros extra. strict_tac.
  - unfold_helpers. strict_tac.
Qed.

Lemma strict_resolveNewVersion type name system env :
  strict (resolveNewVersion type name system env).
Proof.
  destruct type; cbn [resolveNewVersion].
  - unfold nixEvalPackageVersion. unfold_helpers. strict_tac.
  - unfold readFlakeInputRev, jsonParse, assertRecordMember, assertRecord. unfold_helpers. strict_tac.
Qed.

Lemma strict_nixBuildCheck system check env :
  strict (nixBuildCheck system check env).
Proof. apply strict_runChecked. Qed.

Lemma strict_readSmokePackages env : strict (readSmokePackages env).
Proof.
  unfold readSmokePackages. destruct (hasEnv _ _); [done|].
  unfold_helpers. strict_tac.
Qed.

Lemma strict_validate type name system env :
  strict (validate type name system env).
Proof.
  unfold validate. unfold mbind, prog_bind. cbn [consoleLog bind strict].
  destruct type.
  - repeat (apply strict_bind; [apply strict_nixBuildCheck | intros _]).
    apply strict_nixBuildCheck.
  - apply strict_bind; [apply strict_runChecked | intros _].
    do 2 (apply strict_bind; [apply strict_nixBuildCheck | intros _]).
    apply strict_bind; [apply strict_readSmokePackages | intros smoke].
    destruct (truthy _); [|done].
    cbn [bind strict].
    apply strict_forEach. intros pkg. apply strict_nixBuildCheck.
Qed.

Lemma strict_ghPrNumberForBranch b env : strict (ghPrNumberForBranch b env).
Proof.
  unfold ghPrNumberForBranch, jsonParse, assertArray, assertRecord.
  unfold_helpers. strict_tac.
Qed.

Lemma strict_publish b prTitle prBody prLabels autoMerge env :
  strict (publish b prTitle prBody prLabels autoMerge env).
Proof.
  unfold publish. unfold mbind, prog_bind.
  apply strict_bind; [apply strict_ghPrNumberForBranch|]. intros prNumber.
  apply strict_bind.
  - destruct prNumber as [number|].
    + cbn [consoleLog bind strict].
      apply strict_bind; [apply strict_runChecked | by intros _].
    + cbn [consoleLog bind strict].
      apply strict_bind; [apply strict_runChecked | intros _].
      apply strict_ghPrNumberForBranch.
  - intros [number|]; [|done]. destruct (String.eqb _ _); [|done].
    unfold_helpers. strict_tac.
Qed.

Lemma strict_checkScope type name files : strict (checkScope type name files).
Proof.
  unfold checkScope. apply strict_forEach. intros file.
  destruct (negb _); [|done]. unfold_helpers. strict_tac.
Qed.

Lemma strict_commitAndPublish type name currentVersion newVersion prLabels
    autoMerge env :
  strict (commitAndPublish type name currentVersion newVersion prLabels
            autoMerge env).
Proof.
  unfold commitAndPublish. unfold mbind, prog_bind.
  cbn [consoleLog bind strict].
  apply strict_bind; [apply strict_runChecked | intros _].
  apply strict_bind; [destruct type; apply strict_runChecked | intros _].
  apply strict_bind; [unfold runStatus; strict_tac | intros staged].
  destruct (staged =? 0); [unfold_helpers; strict_tac|].
  apply strict_bind; [apply strict_runChecked | intros _].
  apply strict_bind; [apply strict_runChecked | intros _].
  apply strict_publish.
Qed.

Lemma strict_scopeCheckAndPublish type name currentVersion newVersion
    prLabels autoMerge env :
  strict (scopeCheckAndPublish type name currentVersion newVersion prLabels
            autoMerge env).
Proof.
  unfold scopeCheckAndPublish. unfold mbind, prog_bind. unfold runCapture.
  cbn [bind strict]. intros changed untracked.
  case_bool_decide; [unfold_helpers; strict_tac|].
  cbn [consoleLog bind strict].
  apply strict_bind; [apply strict_checkScope | intros _].
  apply strict_commitAndPublish.
Qed.

Lemma strict_afterUpdate type name currentVersion system prLabels autoMerge env :
  strict (afterUpdate type name currentVersion system prLabels autoMerge env).
Proof.
  unfold afterUpdate. unfold mbind, prog_bind.
  apply strict_bind; [unfold runStatus; strict_tac | intros diff].
  destruct (diff =? 0); [done|].
  cbn [consoleLog bind strict]. intros r.
  destruct r as [msg|]; [done|]. cbn [bind strict].
  apply strict_bind; [apply strict_runChecked | intros _].
  apply strict_bind; [unfold runStatus; strict_tac | intros diff2].
  destruct (diff2 =? 0); [done|].
  apply strict_bind; [apply strict_resolveNewVersion | intros newVersion].
  apply strict_bind; [apply strict_validate | intros _].
  apply strict_scopeCheckAndPublish.
Qed.

Lemma strict_main argv processEnv : strict (main argv processEnv).
Proof.
  unfold main. cbn zeta.
  destruct (_ || _); [done|].
  destruct (if String.eqb _ _ then _ else _) as [type|]; [|done].
  destruct (negb (truthy _)); [done|].
  unfold mbind, prog_bind.
  apply strict_bind; [apply strict_gitPorcelain | intros status].
  destruct (truthy (trim status)); [done|].
  cbn [consoleLog bind strict].
  apply strict_bind; [apply strict_update | intros _].
  apply strict_afterUpdate.
Qed.

End WithRuntime.
End DisciplineFacts.

Import Js Command Trace Discipline UpdateItem Paths UpdateFacts ScriptFacts DisciplineFacts.

(** X12.  Every checked command is fatal when it fails.  On every path of
    the update script, when a command other than the [git diff] queries
    and the auto-merge request ends with a non-zero code, the script makes
    no further call: it writes the error of [runChecked] (the code, the
    command and its arguments) to the error console and exits with
    status 1. *)
Theorem checked_failure_is_fatal `{rt : Runtime} argv processEnv t o t1 c r t2 :
  paths (script argv processEnv) t o ->
  t = t1 ++ EvSpawn c r :: t2 ->
  checked c = true -> r <> 0 ->
  t2 = [EvLog Err (failMessage c r)] /\ o = Exited 1.
Proof.
  intros Hp Ht Hc Hr.
  apply script_paths in Hp as [[Hp Hno]|(msg & t' & Hp & E & ->)].
  - destruct (strict_paths _ _ _ _ _ _ _ (strict_main argv processEnv) Hp Ht Hc Hr)
      as [_ ->]. by destruct (Hno (failMessage c r)).
  - rewrite Ht in E. clear Ht.
    assert (Hsplit : exists t2', t' = t1 ++ EvSpawn c r :: t2'
                                 /\ t2 = t2' ++ [EvLog Err msg]).
    { destruct (decide (t2 = [])) as [->|Hne].
      - apply app_inj_tail in E. by destruct E.
      - destruct (exists_last Hne) as (t2' & e & ->). exists t2'.
        rewrite app_comm_cons, app_assoc in E.
        apply app_inj_tail in E as [<- ->]. done. }
    destruct Hsplit as (t2' & -> & ->).
    destruct (strict_paths _ _ _ _ _ _ _ (strict_main argv processEnv) Hp eq_refl Hc Hr)
      as [-> [= ->]]. done.
Qed.

Lemma checked_failure_is_fatal_witness :
  let rt := DecimalRuntime.runtime0 in
  let r := run Worlds.failing (script ["package"; "foo"; "1.2.0"] Worlds.token) tt in
  let c := {| command := "nix-update"; args := ["--flake"; "foo"];
              cmd_env := Some (<["NIX_PATH" := "nixpkgs=flake:nixpkgs"]> Worlds.token) |} in
  skipn 12 (trace r) = [EvLog Err (failMessage c 1)] /\ outcome r = Exited 1.
Proof.
  intros rt r c.
  apply (checked_failure_is_fatal (rt := rt) ["package"; "foo"; "1.2.0"] Worlds.token
           (trace r) (outcome r) (firstn 11 (trace r)) c 1 (skipn 12 (trace r))
           (run_paths _ _ _)).
  - vm_compute. reflexivity.
  - reflexivity.
  - discriminate.
Defined.

(** * What comes before what in the update script *)

Module OrderFacts.
Import Js Command Trace Discipline UpdateItem Paths UpdateFacts ScriptFacts
       TreeFacts.

Lemma until_mono {A} gate Q (p : Prog A) (post post' : A -> Prop) :
  (forall a, post a -> post' a) -> until gate Q p post -> until gate Q p post'.
Proof.
  intros H. induction p as [| | |c k IH|c k IH|path k IH|path k IH
                            |path text k IH|path k IH|s text k IH];
    cbn [until]; try done; try (intros Hp r; destruct (Hp r); split; [done|by auto]).
  - auto.
  - intros Hp r. destruct (Hp r) as [Hq [Hg|Hk]]; split; auto.
  - intros [Hq Hk]. auto.
Qed.

Lemma until_bind {A B} gate Q (p : Prog A) (f : A -> Prog B) post :
  until gate Q p (fun a => until gate Q (f a) post) ->
  until gate Q (bind p f) post.
Proof.
  induction p as [| | |c k IH|c k IH|path k IH|path k IH
                  |path text k IH|path k IH|s text k IH];
    cbn [until bind]; try done; try (intros Hp r; destruct (Hp r); split; [done|by auto]).
  - intros Hp r. destruct (Hp r) as [Hq [Hg|Hk]]; split; auto.
  - intros [Hq Hk]. auto.
Qed.

Lemma until_safe {A} gate Q (E : Event -> Prop) (p : Prog A) (post : A -> Prop) :
  safe E p -> (forall e, E e -> ~ Q e) -> (forall a, post a) ->
  until gate Q p post.
Proof.
  intros Hs HE Hpost.
  induction p as [| | |c k IH|c k IH|path k IH|path k IH
                  |path text k IH|path k IH|s text k IH];
    cbn [until safe] in *; try done; try (by apply Hpost);
    try (intros r; destruct (Hs r); split; [by auto | first [by auto | right; by auto]]);
    try (destruct Hs; split; by auto).
Qed.

(** A part without calls of [Q], then the rest. *)
Lemma until_bind_safe {A B} gate Q (E : Event -> Prop) (p : Prog A)
    (f : A -> Prog B) post :
  safe E p -> (forall e, E e -> ~ Q e) ->
  (forall a, until gate Q (f a) post) ->
  until gate Q (bind p f) post.
Proof. intros Hs HE Hf. apply until_bind. by eapply until_safe. Qed.

Lemma succeeded_app gate t1 t2 : succeeded gate t2 -> succeeded gate (t1 ++ t2).
Proof. intros (c & Hin & Hg). exists c. split; [|done]. apply in_or_app. by right. Qed.

Lemma succeeded_cons gate e t : succeeded gate t -> succeeded gate (e :: t).
Proof. apply (succeeded_app gate [e]). Qed.

Lemma until_paths {A} gate Q (p : Prog A) post t o t1 e t2 :
  until gate Q p post -> paths p t o -> t = t1 ++ e :: t2 -> Q e ->
  succeeded gate t1.
Proof.
  intros Hu Hp -> HQ. revert t1 Hp.
  induction p as [| | |c k IH|c k IH|path k IH|path k IH
                  |path text k IH|path k IH|s text k IH];
    intros t1; cbn [paths until] in *;
    try (intros [E _]; by destruct t1);
    try (intros (r0 & t' & E & Hp); destruct (Hu r0) as [Hq Hk];
         destruct t1 as [|e0 t1]; simplify_eq/=; [done|];
         apply succeeded_cons; by eapply IH).
  - intros (r0 & t' & E & Hp). destruct (Hu r0) as [Hq Hk].
    destruct t1 as [|e0 t1]; simplify_eq/=; [done|].
    destruct Hk as [[Hg ->]|Hk].
    + exists c. split; [by left|done].
    + apply succeeded_cons. by eapply IH.
  - intros (t' & E & Hp). destruct Hu as [Hq Hk].
    destruct t1 as [|e0 t1]; simplify_eq/=; [done|].
    apply succeeded_cons. by eapply IH.
Qed.

(** An event of [Q] in a trace that starts with events that are not. *)
Lemma split_after {X} (Q : X -> Prop) (l1 l2 t1 t2 : list X) e :
  l1 ++ l2 = t1 ++ e :: t2 -> Forall (fun x => ~ Q x) l1 -> Q e ->
  exists t1', t1 = l1 ++ t1' /\ l2 = t1' ++ e :: t2.
Proof.
  revert t1. induction l1 as [|x l1 IH]; intros t1 E Hl HQ; [by exists t1|].
  apply Forall_cons in Hl as [Hx Hl].
  destruct t1 as [|y t1]; [injection E as -> _; done|].
  injection E as -> E. destruct (IH t1 E Hl HQ) as (t1' & -> & ->). by exists t1'.
Qed.

(** Closes [until] goals over concrete commands: a failed command ends
    the walk, a successful gate too. *)
Ltac until_tac :=
  repeat first
    [ progress cbn [until bind tryCatch negb]
    | progress unfold mbind, prog_bind, mret, prog_ret
    | progress unfold consoleLog, consoleError, exit
    | match goal with
      | |- until _ _ (if ?b then _ else _) _ => destruct b
      | |- until _ _ (match ?x with _ => _ end) _ => destruct x
      | |- until _ _ (bind (if ?b then _ else _) _) _ => destruct b
      | |- until _ _ (bind (match ?x with _ => _ end) _) _ => destruct x
      | |- ~ _ =>
          let H := fresh in
          intros H; first [ discriminate H | vm_compute in H; discriminate H ]
      | |- (_ = true /\ ?r = 0) \/ _ =>
          destruct (Z.eqb_spec r 0);
          [ first [ left; split; [|assumption];
                    first [ reflexivity
                          | apply andb_true_intro; split;
                            [reflexivity | by apply bool_decide_eq_true_2] ]
                  | right ]
          | right ]
      | |- _ /\ _ => split
      | |- forall _, _ => intro
      | |- True => exact I
      end ].

Section WithRuntime.
Context `{rt : Runtime}.

(** From [main] to the first diff check, for the item that the
    arguments name. *)
Lemma main_afterUpdate argv processEnv :
  leads beforeDiff (main argv processEnv)
    (fun t o => exists type name currentVersion,
       namesItem argv type name currentVersion
       /\ paths (afterUpdate type name currentVersion
                   (getEnv processEnv "SYSTEM" "x86_64-linux")
                   (getEnv processEnv "PR_LABELS" "dependencies,automated")
                   (getEnv processEnv "AUTO_MERGE" "false")
                   (<["NIX_PATH" := "nixpkgs=flake:nixpkgs"]> processEnv)) t o).
Proof.
  unfold main. cbn zeta.
  destruct (_ || _); [by apply leads_safe|].
  destruct (if String.eqb _ _ then _ else _) as [type|] eqn:Et;
    [|by apply leads_safe].
  assert (Hty : nth 0 argv "" = typeName type).
  { destruct (String.eqb_spec (nth 0 argv "") "package") as [->|_];
      [by injection Et as <-|].
    destruct (String.eqb_spec (nth 0 argv "") "flake-input") as [->|_];
      [by injection Et as <-|done]. }
  destruct (negb (truthy _)); [by apply leads_safe|].
  unfold mbind, prog_bind.
  apply leads_bind; [apply quiet_gitPorcelain|]. intros status.
  destruct (truthy (trim status)); [by apply leads_safe|].
  unfold_helpers. do 6 (apply leads_log; [done|]).
  apply leads_bind; [apply quiet_update|]. intros _.
  intros t o Hp. right. exists [], t. split; [done|]. split; [constructor|].
  by exists type, (nth 1 argv ""), (nth 2 argv "").
Qed.

Lemma beforeDiff_quiet e : beforeDiff e -> commitsOrPublishes e = false.
Proof. by intros [[H _] _]. Qed.

(** A property of the calls of a script that holds of [main] holds of
    the script: the handler of the error adds a message. *)
Lemma script_split (Q : Event -> Prop) (R : list Event -> Prop) argv processEnv :
  (forall s text, ~ Q (EvLog s text)) ->
  (forall t o t1 e t2,
     paths (main argv processEnv) t o -> t = t1 ++ e :: t2 -> Q e -> R t1) ->
  forall t o t1 e t2,
    paths (script argv processEnv) t o -> t = t1 ++ e :: t2 -> Q e -> R t1.
Proof.
  intros Hlog Hmain t o t1 e t2 Hp Ht HQ.
  apply script_paths in Hp as [[Hp _]|(msg & t' & Hp & -> & _)];
    [by eapply Hmain|].
  destruct (decide (t2 = [])) as [->|Hne].
  - apply app_inj_tail in Ht as [_ <-]. by destruct (Hlog Err msg).
  - destruct (exists_last Hne) as (t2' & e' & ->).
    rewrite app_comm_cons, app_assoc in Ht.
    apply app_inj_tail in Ht as [-> _]. by eapply Hmain.
Qed.


(** ** The Committed state *)

Lemma script_commit_until gate (Q : Event -> Prop) argv processEnv type name cur :
  namesItem argv type name cur ->
  (forall e, Q e -> commitsOrPublishes e = true) ->
  (forall newVersion prLabels autoMerge env,
     until gate Q (commitAndPublish type name cur newVersion prLabels
                     autoMerge env) (fun _ => True)) ->
  forall t o t1 e t2,
    paths (script argv processEnv) t o -> t = t1 ++ e :: t2 -> Q e ->
    succeeded gate t1.
Proof.
  intros Hitem HQ Hu. apply script_split.
  { intros s text H%HQ. discriminate H. }
  intros t o t1 e t2 Hp Ht He.
  assert (Hpre : forall x, prelude x -> ~ Q x).
  { intros x [Hx _] H%HQ. congruence. }
  destruct (main_leads argv processEnv t o Hp)
    as [Hall|(tp & ts & -> & Hall & type' & name' & cur' & nv & Hitem' & Hs)].
  { subst t. rewrite Forall_forall in Hall.
    destruct (Hpre e); [|done]. apply Hall, list_elem_of_In, in_or_app.
    right. by left. }
  destruct (namesItem_unique _ _ _ _ _ _ _ Hitem Hitem') as (-> & -> & ->).
  destruct (split_after Q tp ts t1 t2 e Ht) as (t1' & -> & ->);
    [by eapply Forall_impl|done|].
  apply succeeded_app. clear Ht Hall Hp tp.
  apply scopeCheckAndPublish_paths in Hs
    as (c1 & changed & c2 & untracked & t' & E & [Hc1 Ha1] & [Hc2 Ha2] & H).
  assert (Hlog : forall s text, ~ Q (EvLog s text)).
  { intros s text Hq%HQ. discriminate Hq. }
  assert (Ho1 : ~ Q (EvOutput c1 changed)).
  { intros Hq%HQ. unfold commitsOrPublishes, isGh, gitSubcommand in Hq.
    simpl in Hq. rewrite Hc1, Ha1 in Hq. discriminate Hq. }
  assert (Ho2 : ~ Q (EvOutput c2 untracked)).
  { intros Hq%HQ. unfold commitsOrPublishes, isGh, gitSubcommand in Hq.
    simpl in Hq. rewrite Hc2, Ha2 in Hq. discriminate Hq. }
  destruct H as [(_ & _ & ->)|[(f & _ & _ & _ & ->)|(_ & t'' & -> & H)]].
  - exfalso. change (?a :: ?b :: ?c) with ([a; b] ++ c) in E.
    destruct (split_after Q _ _ _ _ _ (eq_sym E)) as (t3 & _ & E');
      [by repeat constructor|done|].
    destruct t3 as [|x [|y t3]]; simplify_eq/=. by destruct (Hlog Err "Error: expected changes but working tree is clean").
  - exfalso.
    destruct (split_after Q ([EvOutput c1 changed; EvOutput c2 untracked]
                             ++ worktreeLogs (allFilesOf (trimLines (stdout changed))
                                                         (trimLines (stdout untracked)))
                             ++ scopeDiagnostics name f) [] t1' t2 e)
      as (t3 & _ & E'); [| |done|by destruct t3].
    + rewrite app_nil_r. by rewrite E.
    + repeat (constructor; [done|]). repeat constructor; apply Hlog.
  - destruct (split_after Q ([EvOutput c1 changed; EvOutput c2 untracked]
                             ++ worktreeLogs (allFilesOf (trimLines (stdout changed))
                                                         (trimLines (stdout untracked))))
                t'' t1' t2 e) as (t3 & -> & ->); [| |done|].
    + rewrite <- app_assoc. by rewrite E.
    + repeat (constructor; [done|]). repeat constructor; apply Hlog.
    + apply succeeded_app. by eapply until_paths.
Qed.

Lemma until_switch type name cur newVersion prLabels autoMerge env :
  until (exactly "git" ["switch"; "-C"; branch type name])
    (fun e => gitSubcommand e = Some "add")
    (commitAndPublish type name cur newVersion prLabels autoMerge env)
    (fun _ => True).
Proof.
  unfold commitAndPublish. unfold_helpers. until_tac.
Qed.

Lemma until_add type name cur newVersion prLabels autoMerge env :
  until (runs "git" "add")
    (fun e => gitSubcommand e = Some "commit")
    (commitAndPublish type name cur newVersion prLabels autoMerge env)
    (fun _ => True).
Proof.
  unfold commitAndPublish. unfold_helpers. until_tac.
Qed.

Lemma until_commit type name cur newVersion prLabels autoMerge env :
  until (runs "git" "commit")
    (fun e => gitSubcommand e = Some "push")
    (commitAndPublish type name cur newVersion prLabels autoMerge env)
    (fun _ => True).
Proof.
  unfold commitAndPublish. unfold_helpers. until_tac.
Qed.

Lemma until_push type name cur newVersion prLabels autoMerge env :
  until (runs "git" "push")
    (fun e => isGh e = true)
    (commitAndPublish type name cur newVersion prLabels autoMerge env)
    (fun _ => True).
Proof.
  unfold commitAndPublish. unfold_helpers. until_tac.
Qed.


(** ** The Validated state *)

Lemma until_validate type name system env a :
  a ∈ validationCommands type name system ->
  until (exactly "nix" a) (fun e => commitsOrPublishes e = true)
    (validate type name system env) (fun _ => False).
Proof.
  unfold validate, validationCommands.
  destruct type; intros Ha; repeat (apply elem_of_cons in Ha as [->|Ha]);
    try (by apply elem_of_nil in Ha); unfold_helpers; until_tac.
Qed.

Lemma until_afterUpdate type name cur system prLabels autoMerge env a :
  a ∈ validationCommands type name system ->
  until (exactly "nix" a) (fun e => commitsOrPublishes e = true)
    (afterUpdate type name cur system prLabels autoMerge env) (fun _ => True).
Proof.
  intros Ha. unfold afterUpdate. unfold mbind, prog_bind. unfold_helpers.
  cbn [until]. intros diff. split; [by intros [=]|]. right.
  destruct (diff =? 0); [by cbn|]. cbn [until]. split; [by intros [=]|].
  intros r. split; [by intros [=]|]. destruct r as [msg|]; [done|].
  cbn [bind until]. split; [by intros [=]|].
  intros fmt. split; [by intros [=]|]. right.
  destruct (negb (fmt =? 0)); [done|]. cbn [bind until].
  intros diff2. split; [by intros [=]|]. right.
  destruct (diff2 =? 0); [by cbn|].
  eapply until_bind_safe; [apply safe_resolveNewVersion| |].
  { intros e [He _]. congruence. }
  intros newVersion. apply until_bind.
  eapply until_mono; [|by apply until_validate]. done.
Qed.

End WithRuntime.
End OrderFacts.

Import Js Command Trace Discipline UpdateItem Paths UpdateFacts ScriptFacts
       TreeFacts OrderFacts.

(** X13.  The order of the Committed and Published states.  On every path
    of the update script for an item: [git add] is run only after
    [git switch -C] to the branch of the item has succeeded, [git commit]
    only after a [git add] has succeeded, [git push] only after a
    [git commit] has succeeded, and [gh] only after a [git push] has
    succeeded. *)
Theorem publish_needs_push `{rt : Runtime} argv processEnv type name cur
    t o t1 e t2 :
  namesItem argv type name cur ->
  paths (script argv processEnv) t o ->
  t = t1 ++ e :: t2 ->
  (gitSubcommand e = Some "add" ->
   succeeded (exactly "git" ["switch"; "-C"; branch type name]) t1)
  /\ (gitSubcommand e = Some "commit" -> succeeded (runs "git" "add") t1)
  /\ (gitSubcommand e = Some "push" -> succeeded (runs "git" "commit") t1)
  /\ (isGh e = true -> succeeded (runs "git" "push") t1).
Proof.
  intros Hitem Hp Ht.
  assert (Hsub : forall e' sub, sub ∈ ["switch"; "add"; "commit"; "push"] ->
            gitSubcommand e' = Some sub -> commitsOrPublishes e' = true).
  { intros e' sub Hin H. unfold commitsOrPublishes. rewrite H.
    rewrite bool_decide_eq_true_2 by done. apply orb_true_r. }
  repeat split; intros He.
  - eapply (script_commit_until _ (fun e => gitSubcommand e = Some "add"));
      [done| |intros; apply until_switch|done..].
    intros e'. apply Hsub. set_solver.
  - eapply (script_commit_until _ (fun e => gitSubcommand e = Some "commit"));
      [done| |intros; apply until_add|done..].
    intros e'. apply Hsub. set_solver.
  - eapply (script_commit_until _ (fun e => gitSubcommand e = Some "push"));
      [done| |intros; apply until_commit|done..].
    intros e'. apply Hsub. set_solver.
  - eapply (script_commit_until _ (fun e => isGh e = true));
      [done| |intros; apply until_push|done..].
    intros e' H. unfold commitsOrPublishes. by rewrite H.
Qed.

(** X14.  No commit without validation.  On every path of the update
    script for an item, before any call of the Committed or Published
    states ([git switch], [git add], [git commit], [git push], [gh]) each
    [nix] command of the Validated state for the kind of the item has ended
    with code 0. *)
Theorem commit_needs_validation `{rt : Runtime} argv processEnv type name cur
    t o t1 e t2 a :
  namesItem argv type name cur ->
  paths (script argv processEnv) t o ->
  t = t1 ++ e :: t2 ->
  commitsOrPublishes e = true ->
  a ∈ validationCommands type name (getEnv processEnv "SYSTEM" "x86_64-linux") ->
  succeeded (exactly "nix" a) t1.
Proof.
  intros Hitem Hp Ht He Ha. revert t o t1 e t2 Hp Ht He.
  apply (script_split (fun e => commitsOrPublishes e = true)); [by intros s text [=]|].
  intros t o t1 e t2 Hp Ht He.
  destruct (main_afterUpdate argv processEnv t o Hp)
    as [Hall|(tp & ts & -> & Hall & type' & name' & cur' & Hitem' & Hs)].
  { subst t. rewrite Forall_forall in Hall.
    assert (Hb : beforeDiff e)
      by (apply Hall, list_elem_of_In, in_or_app; right; by left).
    apply beforeDiff_quiet in Hb. congruence. }
  destruct (namesItem_unique _ _ _ _ _ _ _ Hitem Hitem') as (-> & -> & ->).
  destruct (split_after (fun e => commitsOrPublishes e = true) tp ts t1 t2 e Ht)
    as (t1' & -> & ->); [|done|].
  { eapply Forall_impl; [done|]. intros x Hx%beforeDiff_quiet. congruence. }
  apply succeeded_app. eapply until_paths; [by apply until_afterUpdate|done..].
Qed.

Lemma publish_needs_push_witness :
  let rt := DecimalRuntime.runtime [JArr []] in
  let r := run (Worlds.checkout ("packages/foo/package.nix" +:+ Worlds.nl) "" None)
               (script ["package"; "foo"; "1.2.0"] Worlds.token) tt in
  succeeded (runs "git" "push") (firstn 37 (trace r)).
Proof.
  intros rt r.
  assert (Hitem : namesItem ["package"; "foo"; "1.2.0"] package "foo" "1.2.0")
    by (repeat split).
  assert (Ht : trace r = firstn 37 (trace r)
                         ++ nth 37 (trace r) (EvLog Out "") :: skipn 38 (trace r))
    by (vm_compute; reflexivity).
  apply (proj2 (proj2 (proj2
           (publish_needs_push (rt := rt) ["package"; "foo"; "1.2.0"] Worlds.token
              package "foo" "1.2.0" (trace r) (outcome r) _ _ _
              Hitem (run_paths _ _ _) Ht)))).
  reflexivity.
Defined.

Lemma commit_needs_validation_witness :
  let rt := DecimalRuntime.runtime [JArr []] in
  let r := run (Worlds.checkout ("packages/foo/package.nix" +:+ Worlds.nl) "" None)
               (script ["package"; "foo"; "1.2.0"] Worlds.token) tt in
  succeeded
    (exactly "nix" ["build"; "--accept-flake-config"; "--no-link";
                    ".#checks.x86_64-linux.pkgs-formatter-denoCheck"])
    (firstn 32 (trace r)).
Proof.
  intros rt r.
  assert (Hitem : namesItem ["package"; "foo"; "1.2.0"] package "foo" "1.2.0")
    by (repeat split).
  assert (Ht : trace r = firstn 32 (trace r)
                         ++ nth 32 (trace r) (EvLog Out "") :: skipn 33 (trace r))
    by (vm_compute; reflexivity).
  apply (commit_needs_validation (rt := rt) ["package"; "foo"; "1.2.0"] Worlds.token
           package "foo" "1.2.0" (trace r) (outcome r) _ _ _ _
           Hitem (run_paths _ _ _) Ht).
  - reflexivity.
  - apply list_elem_of_In. simpl. right. right. by left.
Defined.

(** * How the update script ends *)

Module EndFacts.
Import Js Command Trace Discipline UpdateItem Paths UpdateFacts ScriptFacts
       TreeFacts OrderFacts.

Lemma safe_True {A} (p : Prog A) : safe (fun _ => True) p.
Proof.
  induction p as [| | |c k IH|c k IH|path k IH|path k IH
                  |path text k IH|path k IH|s text k IH]; cbn [safe]; auto.
Qed.

(** A script that returns has seen a command of [gate] succeed, or
    returns what [post] accepts. *)
Lemma until_returned {A} gate Q (p : Prog A) post t a :
  until gate Q p post -> paths p t (Returned a) -> succeeded gate t \/ post a.
Proof.
  revert t. induction p as [| | |c k IH|c k IH|path k IH|path k IH
                            |path text k IH|path k IH|s text k IH];
    intros t; cbn [until paths];
    try (by intros _ [_ [=]]);
    try (intros Hu (r & t' & -> & Hp); destruct (Hu r) as [_ Hk];
         destruct (IH r t' Hk Hp) as [Hs|Hpost]; [left; by apply succeeded_cons|by right]).
  - intros Hpost [_ [= <-]]. by right.
  - intros Hu (r & t' & -> & Hp). destruct (Hu r) as [_ [[Hg ->]|Hk]].
    + left. exists c. split; [by left|done].
    + destruct (IH r t' Hk Hp) as [Hs|Hpost]; [left; by apply succeeded_cons|by right].
  - intros [_ Hk] (t' & -> & Hp).
    destruct (IH t' Hk Hp) as [Hs|Hpost]; [left; by apply succeeded_cons|by right].
Qed.

Lemma until_forEach {X} gate Q (xs : list X) body (post : unit -> Prop) :
  (forall x, until gate Q (body x) (fun _ => True)) -> post tt ->
  until gate Q (forEach xs body) post.
Proof.
  intros Hb Hpost. induction xs as [|x xs IH]; [done|].
  cbn [forEach]. apply until_bind. eapply until_mono; [|apply Hb]. by intros _ _.
Qed.

(** As [until_tac], for a property that no call has. *)
Ltac never_tac :=
  repeat first
    [ progress cbn [until bind tryCatch negb]
    | progress unfold mbind, prog_bind, mret, prog_ret
    | progress unfold consoleLog, consoleError, exit
    | match goal with
      | |- until _ _ (if ?b then _ else _) _ => destruct b
      | |- until _ _ (match ?x with _ => _ end) _ => destruct x
      | |- until _ _ (bind (if ?b then _ else _) _) _ => destruct b
      | |- until _ _ (bind (match ?x with _ => _ end) _) _ => destruct x
      | |- until _ _ (tryCatch (if ?b then _ else _) _) _ => destruct b
      | |- until _ _ (bind ?p _) _ =>
          match p with
          | context [if ?b then _ else _] => destruct b
          | context [match ?x with _ => _ end] => destruct x
          end
      | |- ~ _ =>
          let H := fresh in
          intros H;
          first [ exact H | discriminate H | vm_compute in H; discriminate H ]
      | |- (_ = true /\ ?r = 0) \/ _ =>
          destruct (Z.eqb_spec r 0);
          [ first [ left; split; [reflexivity | assumption] | right ]
          | right ]
      | |- _ /\ _ => split
      | |- forall _, _ => intro
      | |- True => exact I
      end ].

Section WithRuntime.
Context `{rt : Runtime}.

(** ** The script returns only when a run is settled *)

Lemma settled_commitAndPublish type name cur newVersion prLabels autoMerge env :
  until settles (fun _ => False)
    (commitAndPublish type name cur newVersion prLabels autoMerge env)
    (fun _ => False).
Proof.
  unfold commitAndPublish, publish, ghPrNumberForBranch, jsonParse,
    assertArray, assertRecord.
  unfold_helpers. never_tac.
Qed.

Lemma settled_scopeCheckAndPublish type name cur newVersion prLabels
    autoMerge env :
  until settles (fun _ => False)
    (scopeCheckAndPublish type name cur newVersion prLabels autoMerge env)
    (fun _ => False).
Proof.
  unfold scopeCheckAndPublish. unfold mbind, prog_bind. unfold runCapture.
  cbn [bind until]. intros changed. split; [tauto|]. intros untracked.
  split; [tauto|]. case_bool_decide; [unfold_helpers; never_tac|].
  cbn [consoleLog bind until]. do 3 (split; [tauto|]).
  eapply until_bind_safe; [apply safe_True|by intros e _ []|].
  intros _. apply settled_commitAndPublish.
Qed.

Lemma settled_afterUpdate type name cur system prLabels autoMerge env :
  until settles (fun _ => False)
    (afterUpdate type name cur system prLabels autoMerge env)
    (fun _ => False).
Proof.
  unfold afterUpdate. unfold mbind, prog_bind. unfold_helpers.
  cbn [until]. intros diff. split; [tauto|].
  destruct (Z.eqb_spec diff 0) as [->|_]; [by left|]. right.
  cbn [until]. split; [tauto|].
  intros r. split; [tauto|]. destruct r as [msg|]; [done|].
  cbn [bind until]. split; [tauto|].
  intros fmt. split; [tauto|]. right.
  destruct (negb (fmt =? 0)); [done|]. cbn [bind until].
  intros diff2. split; [tauto|].
  destruct (Z.eqb_spec diff2 0) as [->|_]; [by left|]. right.
  eapply until_bind_safe; [apply safe_True|by intros e _ []|].
  intros newVersion.
  eapply until_bind_safe; [apply safe_True|by intros e _ []|].
  intros _. apply settled_scopeCheckAndPublish.
Qed.

Lemma settled_main argv processEnv : until settles (fun _ => False)
    (main argv processEnv)
    (fun _ => False).
Proof.
  unfold main. cbn zeta.
  destruct (_ || _); [by never_tac|].
  destruct (if String.eqb _ _ then _ else _) as [type|]; [|by never_tac].
  destruct (negb (truthy _)); [by never_tac|].
  unfold mbind, prog_bind.
  eapply until_bind_safe; [apply safe_True|by intros e _ []|].
  intros status. destruct (truthy (trim status)); [by never_tac|].
  cbn [consoleLog bind until]. do 6 (split; [tauto|]).
  eapply until_bind_safe; [apply safe_True|by intros e _ []|].
  intros _. apply settled_afterUpdate.
Qed.


(** ** A diff check that finds nothing *)

Lemma until_never {A} (Q : Event -> Prop) (p : Prog A) t o :
  until (fun _ => false) Q p (fun _ => True) -> paths p t o ->
  Forall (fun e => ~ Q e) t.
Proof.
  intros Hu Hp. apply Forall_forall. intros e He HQ.
  apply list_elem_of_split in He as (t1 & t2 & ->).
  by destruct (until_paths _ _ _ _ _ _ _ _ _ Hu Hp eq_refl HQ) as (c & _ & [=]).
Qed.

Lemma never_diff_commitAndPublish type name cur newVersion prLabels autoMerge env :
  until (fun _ => false) (fun e => checksDiff e = true)
    (commitAndPublish type name cur newVersion prLabels autoMerge env)
    (fun _ => True).
Proof.
  unfold commitAndPublish, publish, ghPrNumberForBranch, jsonParse,
    assertArray, assertRecord.
  unfold_helpers. never_tac.
Qed.

Lemma never_diff_checkScope type name files :
  until (fun _ => false) (fun e => checksDiff e = true)
    (checkScope type name files) (fun _ => True).
Proof.
  unfold checkScope. apply until_forEach; [|done]. intros file.
  destruct (negb _); [|done]. unfold_helpers. never_tac.
Qed.

Lemma never_diff_scopeCheckAndPublish type name cur newVersion prLabels
    autoMerge env :
  until (fun _ => false) (fun e => checksDiff e = true)
    (scopeCheckAndPublish type name cur newVersion prLabels autoMerge env)
    (fun _ => True).
Proof.
  unfold scopeCheckAndPublish. unfold mbind, prog_bind. unfold runCapture.
  cbn [bind until]. intros changed. split; [by intros [=]|]. intros untracked.
  split; [by intros [=]|]. case_bool_decide; [unfold_helpers; never_tac|].
  cbn [consoleLog bind until]. do 3 (split; [by intros [=]|]).
  apply until_bind. eapply until_mono; [|apply never_diff_checkScope].
  intros _ _. apply never_diff_commitAndPublish.
Qed.

Lemma until_runChecked gate (Q : Event -> Prop) command args env
    (post : unit -> Prop) :
  (forall r, ~ Q (EvSpawn {| command := command; args := args;
                             cmd_env := env |} r)) ->
  post tt -> until gate Q (runChecked command args env) post.
Proof.
  intros HQ Hpost. unfold runChecked, runStatus. unfold mbind, prog_bind.
  cbn [bind until]. intros r. split; [apply HQ|]. right.
  by destruct (negb _).
Qed.

Lemma never_diff_readSmokePackages env (post : string -> Prop) :
  (forall s, post s) ->
  until (fun _ => false) (fun e => checksDiff e = true)
    (readSmokePackages env) post.
Proof.
  intros Hpost. unfold readSmokePackages. destruct (hasEnv _ _); [apply Hpost|].
  unfold_helpers. never_tac; apply Hpost.
Qed.

Lemma never_diff_validate type name system env :
  until (fun _ => false) (fun e => checksDiff e = true)
    (validate type name system env) (fun _ => True).
Proof.
  unfold validate, nixBuildCheck. unfold mbind, prog_bind.
  cbn [consoleLog bind until]. split; [by intros [=]|]. destruct type.
  - do 2 (apply until_bind, until_runChecked; [by intros r [=]|]).
    by apply until_runChecked; [intros r [=]|].
  - do 3 (apply until_bind, until_runChecked; [by intros r [=]|]).
    apply until_bind, never_diff_readSmokePackages. intros smoke.
    destruct (truthy _); [|done].
    cbn [bind until]. do 2 (split; [by intros [=]|]).
    apply until_forEach; [|done]. intros pkg.
    by apply until_runChecked; [intros r [=]|].
Qed.

Lemma never_diff_resolveNewVersion type name system env :
  until (fun _ => false) (fun e => checksDiff e = true)
    (resolveNewVersion type name system env) (fun _ => True).
Proof.
  destruct type; cbn [resolveNewVersion].
  - unfold nixEvalPackageVersion. unfold_helpers. never_tac.
  - unfold readFlakeInputRev, jsonParse, assertRecordMember, assertRecord. unfold_helpers. never_tac.
Qed.

(** The calls after the second diff check hold no diff check. *)
Lemma never_diff_rest type name cur system prLabels autoMerge env t o :
  paths (bind (resolveNewVersion type name system env)
           (fun newVersion =>
              bind (validate type name system env)
                (fun _ => scopeCheckAndPublish type name cur newVersion
                            prLabels autoMerge env))) t o ->
  Forall (fun e => ~ checksDiff e = true) t.
Proof.
  apply until_never. apply until_bind.
  eapply until_mono; [|apply never_diff_resolveNewVersion]. intros newVersion _.
  apply until_bind.
  eapply until_mono; [|apply never_diff_validate]. intros _ _.
  apply never_diff_scopeCheckAndPublish.
Qed.


Lemma exactly_diff c r :
  exactly "git" ["diff"; "--quiet"] c = true -> checksDiff (EvSpawn c r) = true.
Proof. done. Qed.

Lemma afterUpdate_clean type name cur system prLabels autoMerge env t o t1 c t2 :
  paths (afterUpdate type name cur system prLabels autoMerge env) t o ->
  t = t1 ++ EvSpawn c 0 :: t2 ->
  exactly "git" ["diff"; "--quiet"] c = true ->
  (t2 = [EvLog Out "No changes detected; skipping PR."]
   \/ t2 = [EvLog Out "No changes detected after formatting; skipping PR."])
  /\ o = Returned tt
  /\ Forall (fun e => commitsOrPublishes e = false) t1.
Proof.
  unfold afterUpdate. unfold mbind, prog_bind.
  unfold runStatus, runChecked, consoleLog. unfold mbind, prog_bind.
  cbn [bind paths]. intros (diff & t' & -> & H) E Hc.
  destruct t1 as [|x t1]; simplify_eq/=.
  { destruct H as (? & -> & -> & ->). by split; [left|]. }
  destruct (diff =? 0).
  { destruct H as (? & E & -> & ->). by destruct t1 as [|? [|]]. }
  destruct H as (? & E & r & ? & -> & H).
  destruct t1 as [|x1 [|x2 t1]]; simplify_eq/=.
  destruct r as [msg|]; cbn [bind paths] in H.
  { destruct H as [E _]. by destruct t1. }
  destruct H as (? & E & fmt & ? & -> & H).
  destruct t1 as [|x1 [|x2 t1]]; simplify_eq/=.
  destruct (negb (fmt =? 0)); cbn [bind paths] in H.
  { destruct H as [E _]. by destruct t1. }
  destruct H as (diff2 & t' & E & H).
  destruct t1 as [|x1 t1]; simplify_eq/=.
  { destruct H as (? & -> & -> & ->). split; [by right|]. split; [done|].
    by repeat constructor. }
  destruct (diff2 =? 0).
  { destruct H as (? & E & -> & ->). by destruct t1 as [|? [|]]. }
  apply never_diff_rest in H. rewrite Forall_forall in H.
  destruct (H (EvSpawn c 0)); [|by apply exactly_diff].
  apply list_elem_of_In, in_or_app. right. by left.
Qed.

End WithRuntime.
End EndFacts.

Import Js Command Trace Discipline UpdateItem Paths UpdateFacts ScriptFacts
       TreeFacts OrderFacts EndFacts.

(** X15.  What a good end means.  On every path on which the update script
    returns (the process ends with status 0), a [git diff --quiet] check has
    ended with code 0 (there was nothing to propose), or a [gh pr create] or
    a [gh pr edit] has ended with code 0. *)
Theorem returns_when_settled `{rt : Runtime} argv processEnv t :
  paths (script argv processEnv) t (Returned tt) -> succeeded settles t.
Proof.
  intros [[Hp _]|(msg & t' & _ & _ & [=])]%script_paths.
  by destruct (until_returned _ _ _ _ _ _ (settled_main argv processEnv) Hp).
Qed.

Lemma returns_when_settled_witness :
  let rt := DecimalRuntime.runtime [JArr []] in
  let r := run (Worlds.checkout ("packages/foo/package.nix" +:+ Worlds.nl) "" None)
               (script ["package"; "foo"; "1.2.0"] Worlds.token) tt in
  succeeded settles (trace r).
Proof.
  intros rt r.
  apply (returns_when_settled (rt := rt) ["package"; "foo"; "1.2.0"] Worlds.token).
  change (Returned tt) with (outcome r). apply run_paths.
Defined.

(** X16.  A diff check that finds nothing ends the run.  On every path of
    the update script, when a [git diff --quiet] check ends with code 0 the
    script writes that no changes were detected and returns: it makes no
    further call, and it has made no call of the Committed or Published
    states before. *)
Theorem clean_diff_ends_run `{rt : Runtime} argv processEnv t o t1 c t2 :
  paths (script argv processEnv) t o ->
  t = t1 ++ EvSpawn c 0 :: t2 ->
  exactly "git" ["diff"; "--quiet"] c = true ->
  (t2 = [EvLog Out "No changes detected; skipping PR."]
   \/ t2 = [EvLog Out "No changes detected after formatting; skipping PR."])
  /\ o = Returned tt
  /\ Forall (fun e => commitsOrPublishes e = false) t1.
Proof.
  intros Hp Ht Hc.
  assert (Hmain : forall t o t1 t2,
            paths (main argv processEnv) t o -> t = t1 ++ EvSpawn c 0 :: t2 ->
            (t2 = [EvLog Out "No changes detected; skipping PR."]
             \/ t2 = [EvLog Out "No changes detected after formatting; skipping PR."])
            /\ o = Returned tt
            /\ Forall (fun e => commitsOrPublishes e = false) t1).
  { clear t o t1 t2 Hp Ht. intros t o t1 t2 Hp Ht.
    destruct (main_afterUpdate argv processEnv t o Hp)
      as [Hall|(tp & ts & -> & Hall & type & name & cur & _ & Hs)].
    { subst t. rewrite Forall_forall in Hall.
      assert (Hb : beforeDiff (EvSpawn c 0))
        by (apply Hall, list_elem_of_In, in_or_app; right; by left).
      destruct Hb as (_ & _ & Hb). by rewrite (exactly_diff c 0 Hc) in Hb. }
    destruct (split_after (fun e => checksDiff e = true) tp ts t1 t2 _ Ht)
      as (t1' & -> & ->); [|by apply exactly_diff|].
    { eapply Forall_impl; [done|]. intros x (_ & _ & Hx). congruence. }
    destruct (afterUpdate_clean _ _ _ _ _ _ _ _ _ _ _ _ Hs eq_refl Hc)
      as (H2 & Ho & H1).
    split; [done|]. split; [done|]. apply Forall_app. split; [|done].
    eapply Forall_impl; [done|]. apply beforeDiff_quiet. }
  apply script_paths in Hp as [[Hp _]|(msg & t' & Hp & E & ->)]; [by eapply Hmain|].
  exfalso. rewrite Ht in E. clear Ht.
  destruct (decide (t2 = [])) as [->|Hne].
  - by apply app_inj_tail in E as [_ [=]].
  - destruct (exists_last Hne) as (t2' & e & ->).
    rewrite app_comm_cons, app_assoc in E. apply app_inj_tail in E as [<- _].
    by destruct (Hmain _ _ _ _ Hp eq_refl) as (_ & [=] & _).
Qed.

Lemma clean_diff_ends_run_witness :
  let rt := DecimalRuntime.runtime [JArr []] in
  let r := run (Worlds.treeWorld Worlds.cleanTree Worlds.notesOnly)
               (script ["package"; "foo"; "1.2.0"] Worlds.token) tt in
  (skipn 13 (trace r) = [EvLog Out "No changes detected; skipping PR."]
   \/ skipn 13 (trace r)
      = [EvLog Out "No changes detected after formatting; skipping PR."])
  /\ outcome r = Returned tt
  /\ Forall (fun e => commitsOrPublishes e = false) (firstn 12 (trace r)).
Proof.
  intros rt r.
  apply (clean_diff_ends_run (rt := rt) ["package"; "foo"; "1.2.0"] Worlds.token
           (trace r) (outcome r) (firstn 12 (trace r))
           {| command := "git"; args := ["diff"; "--quiet"];
              cmd_env := Some (<["NIX_PATH" := "nixpkgs=flake:nixpkgs"]> Worlds.token) |}
           (skipn 13 (trace r)) (run_paths _ _ _)).
  - vm_compute. reflexivity.
  - reflexivity.
Defined.

(** X17.  The arguments are checked before anything is run.  When one of
    the three arguments is missing or empty, or when the first is neither
    [package] nor [flake-input], the only call of the script is the error
    message it writes, and it exits with status 1. *)
Theorem arguments_are_checked `{rt : Runtime} argv processEnv t o :
  paths (script argv processEnv) t o ->
  (truthy (nth 0 argv "") && truthy (nth 1 argv "") && truthy (nth 2 argv "") = false ->
   t = [EvLog Err "Usage: updateItem.ts <package|flake-input> <name> <currentVersion>"]
   /\ o = Exited 1)
  /\ (truthy (nth 0 argv "") && truthy (nth 1 argv "") && truthy (nth 2 argv "") = true ->
      nth 0 argv "" <> "package" -> nth 0 argv "" <> "flake-input" ->
      t = [EvLog Err ("Unknown type '" +:+ nth 0 argv ""
                      +:+ "' (expected 'package' or 'flake-input')")]
      /\ o = Exited 1).
Proof.
  unfold script, main. cbn zeta. intros Hp. split.
  - intros H.
    replace (negb (truthy (nth 0 argv "")) || negb (truthy (nth 1 argv ""))
             || negb (truthy (nth 2 argv ""))) with true in Hp.
    + cbn in Hp. by destruct Hp as (? & -> & -> & ->).
    + by destruct (truthy (nth 0 argv "")), (truthy (nth 1 argv "")),
        (truthy (nth 2 argv "")).
  - intros H Hp1 Hp2.
    replace (negb (truthy (nth 0 argv "")) || negb (truthy (nth 1 argv ""))
             || negb (truthy (nth 2 argv ""))) with false in Hp.
    + destruct (String.eqb_spec (nth 0 argv "") "package"); [done|].
      destruct (String.eqb_spec (nth 0 argv "") "flake-input"); [done|].
      cbn in Hp. by destruct Hp as (? & -> & -> & ->).
    + by destruct (truthy (nth 0 argv "")), (truthy (nth 1 argv "")),
        (truthy (nth 2 argv "")).
Qed.

Lemma arguments_are_checked_witness :
  let rt := DecimalRuntime.runtime0 in
  let r := run Worlds.offline (script ["package"; "foo"] Worlds.token) tt in
  trace r = [EvLog Err "Usage: updateItem.ts <package|flake-input> <name> <currentVersion>"]
  /\ outcome r = Exited 1.
Proof.
  intros rt r.
  apply (proj1 (arguments_are_checked (rt := rt) ["package"; "foo"] Worlds.token
                  (trace r) (outcome r) (run_paths _ _ _))).
  reflexivity.
Defined.

(** X18.  The token is checked before anything is run.  For arguments that
    name an item, when [GH_TOKEN] is not set or is empty the only call of
    the script is the error message it writes, and it exits with
    status 1. *)
Theorem token_is_required `{rt : Runtime} argv processEnv type name cur t o :
  namesItem argv type name cur ->
  truthy name = true -> truthy cur = true ->
  truthy (getEnv processEnv "GH_TOKEN" "") = false ->
  paths (script argv processEnv) t o ->
  t = [EvLog Err "Error: GH_TOKEN is not set"] /\ o = Exited 1.
Proof.
  intros (H0 & H1 & H2) Hn Hc Htok. unfold script, main. cbn zeta.
  rewrite H0, H1, H2, Hn, Hc, Htok.
  destruct type; cbn; by intros (? & -> & -> & ->).
Qed.

Lemma token_is_required_witness :
  let rt := DecimalRuntime.runtime0 in
  let r := run Worlds.offline (script ["flake-input"; "nixpkgs"; "50ab7937"] ∅) tt in
  trace r = [EvLog Err "Error: GH_TOKEN is not set"] /\ outcome r = Exited 1.
Proof.
  intros rt r.
  apply (token_is_required (rt := rt) ["flake-input"; "nixpkgs"; "50ab7937"] ∅
           flake_input "nixpkgs" "50ab7937" (trace r) (outcome r)).
  - repeat split.
  - reflexivity.
  - reflexivity.
  - reflexivity.
  - apply run_paths.
Defined.

(** * Argument files *)

Module ArgumentFacts.
Import Js Command UpdateItem Text TextFacts Paths.

(** The pieces of a text without a bare carriage return hold no line
    terminator. *)
Lemma splitLines_terminators_upto n s :
  (String.length s <= n)%nat -> bareCR s = false ->
  Forall (fun p => has_line_terminator p = false) (splitLines s).
Proof.
  revert s. induction n as [|n IH]; intros s Hn Hcr.
  { destruct s; [by repeat constructor|simpl in Hn; lia]. }
  destruct s as [|x s]; [by repeat constructor|]. cbn [splitLines].
  simpl in Hn. cbn [bareCR] in Hcr.
  destruct (Ascii.eqb_spec x "010") as [->|Hx].
  { constructor; [done|]. apply IH; [lia|done]. }
  destruct s as [|y s].
  { destruct (Ascii.eqb_spec x "013") as [->|Hx']; [done|].
    repeat constructor. simpl. unfold is_line_terminator.
    by rewrite (proj2 (Ascii.eqb_neq _ _) Hx), (proj2 (Ascii.eqb_neq _ _) Hx'). }
  destruct (Ascii.eqb_spec x "013") as [->|Hx'].
  { destruct (Ascii.eqb_spec y "010") as [->|Hy]; [|done].
    cbn [andb]. constructor; [done|]. apply IH; [simpl in Hn; lia|done]. }
  cbn [andb].
  assert (H : Forall (fun p => has_line_terminator p = false)
                (splitLines (String y s))) by (apply IH; [lia|done]).
  destruct (splitLines (String y s)) as [|p ps].
  { repeat constructor. simpl. unfold is_line_terminator.
    by rewrite (proj2 (Ascii.eqb_neq _ _) Hx), (proj2 (Ascii.eqb_neq _ _) Hx'). }
  apply Forall_cons in H as [Hp Hps]. constructor; [|done].
  simpl. unfold is_line_terminator.
  by rewrite (proj2 (Ascii.eqb_neq _ _) Hx), (proj2 (Ascii.eqb_neq _ _) Hx'), Hp.
Qed.

Lemma stripComment_hash l :
  has_line_terminator l = false -> ~ occurs "#" (stripComment l).
Proof.
  induction l as [|c l IH]; [intros _; apply occurs_nil|].
  simpl. intros [Hc Hl]%orb_false_iff. rewrite Hl. cbn [negb].
  rewrite andb_true_r. destruct (Ascii.eqb_spec c "#") as [->|Hne].
  - apply occurs_nil.
  - rewrite occurs_cons. intros [H|H]; [done|]. by apply IH.
Qed.

End ArgumentFacts.

Import Js Command UpdateItem Text TextFacts ArgumentFacts.

(** X19.  No comment reaches the arguments.  For a file without a carriage
    return that stands alone, every line that [uncommentedLines] returns is
    not empty, has no white space at either end and holds no [#]. *)
Theorem uncommentedLines_lines (content : string) :
  bareCR content = false ->
  Forall (fun l => trimmed l /\ ~ occurs "#" l) (uncommentedLines content).
Proof.
  intros Hcr. unfold uncommentedLines. apply Forall_forall.
  intros l Hin. apply list_elem_of_In, filter_In in Hin as [Hin Hl].
  apply in_map_iff in Hin as (p & <- & Hp).
  split; [split; [done | apply trim_idem]|].
  intros H%trim_chars. revert H. apply stripComment_hash.
  pose proof (splitLines_terminators_upto _ content (le_n _) Hcr) as Hall.
  rewrite Forall_forall in Hall. by apply Hall, list_elem_of_In.
Qed.

Lemma uncommentedLines_lines_witness :
  Forall (fun l => trimmed l /\ ~ occurs "#" l)
    (uncommentedLines "--version-regex # only releases").
Proof. apply uncommentedLines_lines. reflexivity. Defined.

(** X20.  The first argument file that exists gives the extra arguments,
    and no later candidate is looked at.  On every path of [readExtraArgs]
    the calls are one [Deno.stat] for each candidate of an initial part of
    the list, each answered by [NotFound], followed by nothing more when the
    list is exhausted (no argument is returned), or by the [Deno.stat] of
    the next candidate: when it succeeds that file, and no other, is read
    and its uncommented lines are returned (a failing read is thrown); when
    it fails otherwise the error is thrown. *)
Theorem readExtraArgs_first_existing `{rt : Runtime} candidates t o :
  paths (readExtraArgs candidates) t o ->
  exists missing tm,
    Forall2 (fun p e => exists msg, e = EvStat p (StatNotFound msg)) missing tm
    /\ ((candidates = missing /\ t = tm /\ o = Returned [])
        \/ exists p rest,
             candidates = missing ++ p :: rest
             /\ ((exists text,
                    t = tm ++ [EvStat p StatOk; EvRead p (inl text)]
                    /\ o = Returned (uncommentedLines text))
                 \/ (exists msg,
                       t = tm ++ [EvStat p StatOk; EvRead p (inr msg)]
                       /\ o = Thrown msg)
                 \/ (exists msg,
                       t = tm ++ [EvStat p (StatError msg)] /\ o = Thrown msg))).
Proof.
  revert t. induction candidates as [|p ps IH]; intros t.
  - intros [-> ->]. exists [], []. split; [constructor|]. by left.
  - cbn [readExtraArgs]. unfold mbind, prog_bind, fileExists, readTextFile.
    cbn [bind paths]. intros (r & t' & -> & H). destruct r as [|msg|msg]; cbn in H.
    + destruct H as (content & t'' & -> & H). exists [], []. split; [constructor|].
      right. exists p, ps. split; [done|].
      destruct content as [text|msg]; cbn in H; destruct H as [-> ->].
      * left. by exists text.
      * right. left. by exists msg.
    + apply IH in H as (missing & tm & Hm & H).
      exists (p :: missing), (EvStat p (StatNotFound msg) :: tm).
      split; [constructor; eauto|].
      destruct H as [(-> & -> & ->)|(q & rest & -> & H)]; [by left|].
      right. exists q, rest. split; [done|].
      destruct H as [(text & -> & ->)|[(m & -> & ->)|(m & -> & ->)]]; eauto 6.
    + destruct H as [-> ->]. exists [], []. split; [constructor|].
      right. exists p, ps. split; [done|]. right. right. by exists msg.
Qed.

Lemma readExtraArgs_first_existing_witness :
  let rt := DecimalRuntime.runtime0 in
  let files := fun path : string =>
    if String.eqb path "packages/foo/nix-update-args"
    then Some "--version-regex v(.*)" else None in
  let candidates := ["packages/foo/nixUpdateArgs"; "packages/foo/nix-update-args";
                     "packages/foo/args"] in
  let r := run (Worlds.fixedWorld Worlds.failed (fun _ => 1) files)
               (readExtraArgs candidates) tt in
  exists missing tm,
    Forall2 (fun p e => exists msg, e = EvStat p (StatNotFound msg)) missing tm
    /\ ((candidates = missing /\ trace r = tm /\ outcome r = Returned [])
        \/ exists p rest,
             candidates = missing ++ p :: rest
             /\ ((exists text,
                    trace r = tm ++ [EvStat p StatOk; EvRead p (inl text)]
                    /\ outcome r = Returned (uncommentedLines text))
                 \/ (exists msg,
                       trace r = tm ++ [EvStat p StatOk; EvRead p (inr msg)]
                       /\ outcome r = Thrown msg)
                 \/ (exists msg,
                       trace r = tm ++ [EvStat p (StatError msg)]
                       /\ outcome r = Thrown msg))).
Proof.
  intros rt files candidates r.
  apply (readExtraArgs_first_existing (rt := rt) candidates (trace r) (outcome r)).
  apply Paths.run_paths.
Defined.

(** * What discovery reports *)

Module ReportFacts.
Import Js Command Trace DiscoverUpdates Paths DiscoveryFacts Report.

Lemma take_length n s : (String.length (take n s) <= n)%nat.
Proof.
  revert s. induction n as [|n IH]; intros [|c s]; simpl; try lia.
  specialize (IH s). lia.
Qed.

Section WithRuntime.
Context `{rt : Runtime}.

Lemma lockedRev_fits node t v :
  paths (lockedRev node) t (Returned v) -> fitsRevision v.
Proof.
  unfold lockedRev.
  destruct (match node with Data v => getProp v "locked" | _ => None end)
    as [[]|]; simpl;
    repeat match goal with
           | |- context [match ?x with _ => _ end] => destruct x; simpl
           end;
    intros [_ E]; simplify_eq; unfold fitsRevision;
    first [ apply take_length | apply firstn_le_length | (simpl; lia) ].
Qed.

Lemma collectInputs_items (P : MatrixItem -> Prop) nodes names items t items' :
  (forall n v, n ∈ names -> fitsRevision v ->
               P {| type := flake_input; name := n; current_version := v |}) ->
  Forall P items ->
  paths (collectInputs nodes names items) t (Returned items') ->
  Forall P items'.
Proof.
  revert items t. induction names as [|n names IH]; intros items t HP Hitems; simpl.
  - by intros [_ [= <-]].
  - assert (HP' : forall n' v, n' ∈ names -> fitsRevision v ->
                    P {| type := flake_input; name := n'; current_version := v |}).
    { intros n' v Hn. apply HP. by right. }
    destruct (truthyMember (member nodes n)); simpl; [|by apply IH].
    intros [(rev & t1 & t2 & H1 & H2 & ->)|(o1 & H1 & H2)]%paths_mbind.
    + eapply IH; [done| |done]. apply Forall_app. split; [done|].
      repeat constructor. apply HP; [by left|]. by eapply lockedRev_fits.
    + by destruct o1.
Qed.


(** A lock document that cannot be read or parsed ends
    [discoverFlakeInputs] with an exception. *)
Lemma discoverFlakeInputs_unreadable inputsFilter t o content :
  paths (discoverFlakeInputs inputsFilter) t o ->
  In (EvRead "flake.lock" content) t ->
  match content with
  | inl text => JSON_parse text = None
  | inr _ => True
  end ->
  (exists msg, o = Thrown msg) /\ Forall (fun e => appends e = false) t.
Proof.
  unfold discoverFlakeInputs. cbn.
  intros (t1 & -> & r & t2 & -> & H) Hin Hbad.
  destruct r as [|msg|msg]; cbn in H.
  2,3: destruct H as (t' & -> & -> & ->);
    destruct Hin as [|[|[|[]]]]; discriminate.
  destruct H as (content' & t3 & -> & H).
  destruct content' as [text|msg]; cbn in H.
  2:{ destruct H as [-> ->]. split; [eauto | by repeat constructor]. }
  unfold jsonParse in H.
  destruct (JSON_parse text) as [lockData|] eqn:Hparse; cbn in H.
  2:{ destruct H as [-> ->]. split; [eauto | by repeat constructor]. }
  exfalso.
  assert (Ht3 : t3 = []).
  { destruct (filterNames inputsFilter) as [names|].
    - by apply collectInputs_paths in H as [-> _].
    - destruct (ownKeys _); [by apply collectInputs_paths in H as [-> _]|].
      by destruct H as [-> _]. }
  subst t3. destruct Hin as [|[|[Hin|[]]]]; try discriminate.
  injection Hin as <-. congruence.
Qed.

End WithRuntime.
End ReportFacts.

Import Js Command Trace DiscoverUpdates Paths DiscoveryFacts Report ReportFacts.

(** X21.  The items of the pinned references.  Every item that
    [discoverFlakeInputs] returns is of the kind [flake-input] and carries a
    revision of at most eight characters; without an input filter none of
    them is the node [root], and with a filter each of them is named in
    it. *)
Theorem flake_input_items `{rt : Runtime} inputsFilter t items :
  paths (discoverFlakeInputs inputsFilter) t (Returned items) ->
  Forall (fun item =>
            type item = flake_input
            /\ fitsRevision (current_version item)
            /\ match filterNames inputsFilter with
               | None => name item <> "root"
               | Some names => name item ∈ names
               end) items.
Proof.
  unfold discoverFlakeInputs. cbn.
  intros (t1 & -> & r & t2 & -> & H).
  destruct r as [|msg|msg]; cbn in H;
    try (destruct H as (t' & -> & -> & [= ->]); constructor).
  destruct H as (content & t3 & -> & H).
  destruct content as [text|msg]; cbn in H; [|by destruct H as [_ [=]]].
  unfold jsonParse in H.
  destruct (JSON_parse text) as [lockData|]; cbn in H; [|by destruct H as [_ [=]]].
  destruct (filterNames inputsFilter) as [names|].
  { eapply collectInputs_items; [|constructor|done]. by intros n v Hn Hv. }
  destruct (ownKeys _) as [keys|]; [|by destruct H as [_ [=]]].
  eapply collectInputs_items; [|constructor|done].
  intros n v Hn Hv. repeat split; [done|]. simpl. intros ->.
  unfold sortStrings in Hn. rewrite merge_sort_Permutation in Hn.
  apply list_elem_of_In, filter_In in Hn as [_ Hn]. done.
Qed.

Lemma flake_input_items_witness :
  let rt := DecimalRuntime.runtime [Worlds.lockDocument] in
  let r := run Worlds.lockWorld (discoverFlakeInputs None) tt in
  Forall (fun item =>
            type item = flake_input
            /\ fitsRevision (current_version item)
            /\ name item <> "root")
    (match outcome r with Returned items => items | _ => [] end).
Proof.
  intros rt r.
  apply (flake_input_items (rt := rt) None (trace r)).
  change (Returned (match outcome r with Returned items => items | _ => [] end))
    with (outcome r).
  apply run_paths.
Defined.

(** X22.  The items of the packages.  When the index query succeeds and
    answers with what its expression denotes over the packages [pkgs],
    every item that [discoverPackages] returns is of the kind [package] and
    carries as its current version the version that the index holds for its
    name. *)
Theorem package_items `{rt : Runtime} env filter system pkgs t o c out :
  paths (discoverPackages env filter system) t o ->
  In (EvOutput c out) t ->
  code out = 0 ->
  JSON_parse (stdout out) = Some (JObj (evalExpr pkgs (filterNames filter))) ->
  exists items,
    o = Returned items
    /\ Forall (fun item =>
                 type item = package
                 /\ exists version,
                      pkgs !! name item = Some (Some version)
                      /\ current_version item = JStr version) items.
Proof.
  intros Hp Hin Hcode Hparse.
  apply discoverPackages_paths in Hp as (c' & out' & t' & -> & Hlogs & Hcases).
  assert (out' = out) as ->.
  { destruct Hin as [|[Hin|Hin]]; [done | by injection Hin |].
    rewrite Forall_forall in Hlogs.
    by apply list_elem_of_In, Hlogs in Hin. }
  destruct Hcases as [[Hne _]|[(_ & Hnone & _)|(_ & versions & Hv & Hcases)]];
    [done | congruence |].
  rewrite Hparse in Hv. injection Hv as <-.
  destruct Hcases as [[Hk _]|(keys & Hkeys & -> & _)]; [done|].
  eexists. split; [done|]. apply Forall_forall. intros item Hitem.
  apply list_elem_of_omap in Hitem as (n & _ & Hpick).
  unfold pickPackage in Hpick. cbn [getProp] in Hpick.
  destruct (evalExpr pkgs (filterNames filter) !! n) as [v|] eqn:Ev; [|done].
  assert (Hv : exists version, pkgs !! n = Some (Some version) /\ v = JStr version
               \/ v = JNull).
  { destruct (filterNames filter) as [names|].
    - rewrite evalExpr_filtered in Ev. destruct (decide _); [|done].
      destruct (pkgs !! n) as [[s|]|]; [|done..]. injection Ev as <-.
      exists s. by left.
    - unfold evalExpr in Ev. rewrite lookup_fmap in Ev.
      destruct (pkgs !! n) as [[s|]|]; simpl in Ev; [| |done].
      + injection Ev as <-. exists s. by left.
      + injection Ev as <-. exists "". by right. }
  destruct Hv as (version & [[Hn ->]| ->]); [|done].
  injection Hpick as <-. split; [done|]. by exists version.
Qed.

Lemma package_items_witness :
  let rt := DecimalRuntime.runtime [Worlds.indexAnswer None] in
  let r := run (Worlds.indexWorld None) (discoverPackages ∅ None "x86_64-linux") tt in
  exists items,
    outcome r = Returned items
    /\ Forall (fun item =>
                 type item = package
                 /\ exists version,
                      Worlds.index !! name item = Some (Some version)
                      /\ current_version item = JStr version) items.
Proof.
  intros rt r.
  refine (package_items (rt := rt) ∅ None "x86_64-linux" Worlds.index
            (trace r) (outcome r) _
            {| code := 0; stdout := DecimalRuntime.stringify (Worlds.indexAnswer None);
               stderr := "" |}
            (run_paths _ _ _) _ _ _).
  - right. left. reflexivity.
  - reflexivity.
  - vm_compute. reflexivity.
Defined.

(** X23.  The report of discovery.  When an output file is configured and
    [main] returns, the calls of the run are, in this order: the
    configuration on the console, the calls of [discoverPackages], the
    calls of [discoverFlakeInputs], the summary on the console, and two
    successful writes appended to that file: first the line [matrix=] with
    the items that the two discoveries of this run returned, as JSON, the
    packages before the flake inputs, then the line [has_items=], which
    says [true] exactly when there is at least one item.  Nothing is
    appended before them. *)
Theorem report_is_written `{rt : Runtime} env t :
  paths (main env) t (Returned tt) ->
  truthy (getEnv env "GITHUB_OUTPUT" "") = true ->
  exists found locked t1 t2,
    paths (discoverPackages env (orUndefined (trim (getEnv env "PACKAGES" "")))
             (trim (getEnv env "SYSTEM" "x86_64-linux"))) t1 (Returned found)
    /\ paths (discoverFlakeInputs (orUndefined (trim (getEnv env "INPUTS" ""))))
             t2 (Returned locked)
    /\ Forall (fun e => appends e = false) (t1 ++ t2)
    /\ t = configuration env ++ t1 ++ t2 ++ summary (found ++ locked)
           ++ report (getEnv env "GITHUB_OUTPUT" "") (found ++ locked).
Proof.
  intros Hp Hout. unfold main in Hp.
  cbn -[discoverPackages discoverFlakeInputs] in Hp.
  destruct Hp as (? & -> & ? & -> & ? & -> & ? & -> & ? & -> & Hp).
  apply paths_bind in Hp as [(found & t1 & t2 & H1 & Hp & ->)|(o1 & H1 & H2)];
    [|by destruct o1].
  apply paths_bind in Hp as [(locked & t3 & t4 & H3 & Hp & ->)|(o1 & H3 & H4)];
    [|by destruct o1].
  exists found, locked, t1, t3. split; [exact H1|]. split; [exact H3|]. split.
  { apply Forall_app. split.
    - apply discoverPackages_paths in H1 as (c & out & t' & -> & Hlogs & _).
      do 2 (constructor; [done|]).
      eapply Forall_impl; [exact Hlogs|]. by intros [].
    - apply discoverFlakeInputs_paths in H3
        as (r & t'' & -> & [(_ & _ & ->)|(-> & content & -> & _)]);
        by repeat constructor. }
  unfold appendGithubOutput in Hp. rewrite Hout in Hp.
  cbn -[JSON_stringify] in Hp.
  destruct Hp as (? & -> & ? & -> & Hp).
  assert (Hlen : bool_decide (length (found ++ locked) = 0%nat)
                 = match found ++ locked with [] => true | _ => false end)
    by (by destruct (found ++ locked)).
  rewrite Hlen in Hp. clear Hlen.
  unfold configuration, summary, report.
  destruct (found ++ locked) as [|item rest].
  all: cbn -[JSON_stringify] in Hp.
  all: destruct Hp as (t6 & -> & [r1|] & t7 & -> & Hp); cbn -[JSON_stringify] in Hp;
    [by destruct Hp|].
  all: destruct Hp as ([r2|] & t8 & -> & Hp); cbn in Hp; [by destruct Hp|].
  all: destruct Hp as [-> _].
  all: cbn [app]; do 5 f_equal; by rewrite <- !app_assoc.
Qed.

Lemma report_is_written_witness :
  let rt := DecimalRuntime.runtime [Worlds.lockDocument] in
  let env : gmap string string := {[ "GITHUB_OUTPUT" := "out.txt" ]} in
  let r := run Worlds.lockWorld (main env) tt in
  exists found locked t1 t2,
    paths (discoverPackages env (orUndefined (trim (getEnv env "PACKAGES" "")))
             (trim (getEnv env "SYSTEM" "x86_64-linux"))) t1 (Returned found)
    /\ paths (discoverFlakeInputs (orUndefined (trim (getEnv env "INPUTS" ""))))
             t2 (Returned locked)
    /\ Forall (fun e => appends e = false) (t1 ++ t2)
    /\ trace r
       = configuration env ++ t1 ++ t2 ++ summary (found ++ locked)
         ++ report (getEnv env "GITHUB_OUTPUT" "") (found ++ locked).
Proof.
  intros rt env r.
  apply (report_is_written (rt := rt) env (trace r)).
  - assert (E : outcome r = Returned tt) by (vm_compute; reflexivity).
    rewrite <- E. apply run_paths.
  - vm_compute. reflexivity.
Defined.

(** X24.  A lock document that exists but cannot be read, or does not parse
    as JSON, is no reason to go on: [main] ends with an exception and has
    appended nothing to the output file.  (A lock document that does not
    exist only empties the list of inputs.) *)
Theorem unreadable_lock_aborts `{rt : Runtime} env t o content :
  paths (main env) t o ->
  In (EvRead "flake.lock" content) t ->
  match content with
  | inl text => JSON_parse text = None
  | inr _ => True
  end ->
  (exists msg, o = Thrown msg) /\ Forall (fun e => appends e = false) t.
Proof.
  intros Hp Hin Hbad. unfold main in Hp.
  cbn -[discoverPackages discoverFlakeInputs] in Hp.
  destruct Hp as (? & -> & ? & -> & ? & -> & ? & -> & ? & -> & Hp).
  do 5 (destruct Hin as [|Hin]; [discriminate|]).
  assert (Hquiet : forall c out t',
            Forall isLog t' ->
            ~ In (EvRead "flake.lock" content)
                 (EvLog Out "Discovering packages..." :: EvOutput c out :: t')).
  { intros c out t' Hlogs [|[|Hin']]; try discriminate.
    rewrite Forall_forall in Hlogs.
    by apply list_elem_of_In, Hlogs in Hin'. }
  apply paths_bind in Hp as [(found & t1 & t2 & H1 & Hp & ->)|(o1 & H1 & H2)].
  2:{ apply discoverPackages_paths in H1 as (c & out & t' & -> & Hlogs & _).
      by apply Hquiet in Hin. }
  apply discoverPackages_paths in H1 as (c & out & t' & -> & Hlogs & _).
  assert (Ht' : Forall (fun e => appends e = false) t').
  { eapply Forall_impl; [exact Hlogs|]. by intros []. }
  apply in_app_or in Hin as [Hin|Hin]; [by apply Hquiet in Hin|].
  apply paths_bind in Hp as [(locked & t3 & t4 & H3 & Hp & ->)|(o1 & H3 & H4)].
  - exfalso. apply in_app_or in Hin as [Hin|Hin].
    + by destruct (ReportFacts.discoverFlakeInputs_unreadable _ _ _ _ H3 Hin Hbad)
        as [[msg [=]] _].
    + assert (Hs : Forall (fun e => match e with EvRead _ _ => False | _ => True end)
                          t4).
      { eapply safe_paths; [|exact Hp].
        unfold appendGithubOutput, consoleLog.
        repeat first
          [ progress cbn [safe bind]
          | progress unfold mbind, prog_bind, mret, prog_ret
          | match goal with
            | |- safe _ (if ?b then _ else _) => destruct b
            | |- safe _ (bind (if ?b then _ else _) _) => destruct b
            | |- safe _ (match ?x with _ => _ end) => destruct x
            | |- safe _ (bind (match ?x with _ => _ end) _) => destruct x
            | |- _ /\ _ => split
            | |- forall _, _ => intro
            | |- True => exact I
            end ]. }
      rewrite Forall_forall in Hs. by apply list_elem_of_In, Hs in Hin.
  - destruct (ReportFacts.discoverFlakeInputs_unreadable _ _ _ _ H3 Hin Hbad)
      as [[msg ->] Ht3].
    simpl in H4. split; [eauto|].
    repeat (apply Forall_cons; split; [reflexivity|]).
    by apply Forall_app.
Qed.

Lemma unreadable_lock_aborts_witness :
  let rt := DecimalRuntime.runtime0 in
  let world :=
    Worlds.fixedWorld Worlds.failed (fun _ => 1)
      (fun path => if String.eqb path "flake.lock" then Some "{" else None) in
  let r := run world (main {[ "GITHUB_OUTPUT" := "out.txt" ]}) tt in
  (exists msg, outcome r = Thrown msg)
  /\ Forall (fun e => appends e = false) (trace r).
Proof.
  intros rt world r.
  apply (unreadable_lock_aborts (rt := rt) {[ "GITHUB_OUTPUT" := "out.txt" ]}
           (trace r) (outcome r) (inl "{") (run_paths _ _ _)).
  - apply (nth_error_In _ 10). vm_compute. reflexivity.
  - vm_compute. reflexivity.
Defined.

(** * Discovery and the update script on the same lock document *)

Module AgreementFacts.
Import Js Command Trace DiscoverUpdates Paths DiscoveryFacts.

Section WithRuntime.
Context `{rt : Runtime}.

Lemma lockedRev_revisionOf nodes n rev t v :
  UpdateItem.revisionOf nodes n = Some (Some rev) ->
  paths (lockedRev (member (JObj nodes) n)) t (Returned v) ->
  v = JStr (take 8 rev).
Proof.
  unfold UpdateItem.revisionOf, lockedRev, member. intros Hrev Hp.
  cbn [getProp] in Hp.
  destruct (nodes !! n) as [[ | | | | |node]|] eqn:En; try done.
  2:{ by destruct (_ && _). }
  destruct (node !! "locked") as [[ | | | | |locked]|] eqn:El; try done.
  destruct (locked !! "rev") as [[ | | |s| | ]|] eqn:Er; try done.
  destruct (truthy s); [|done]. injection Hrev as ->.
  cbv zeta in Hp. cbn [getProp] in Hp. rewrite El in Hp.
  cbn [getProp] in Hp. rewrite Er in Hp.
  destruct Hp as [_ E]. injection E as E. exact E.
Qed.

Lemma collectInputs_revs (P : MatrixItem -> Prop) nodes names items t items' :
  (forall n v t', paths (lockedRev (member nodes n)) t' (Returned v) ->
                  P {| type := flake_input; name := n; current_version := v |}) ->
  Forall P items ->
  paths (collectInputs nodes names items) t (Returned items') ->
  Forall P items'.
Proof.
  intros HP. revert items t.
  induction names as [|n names IH]; intros items t Hitems; simpl.
  - by intros [_ [= <-]].
  - destruct (truthyMember (member nodes n)); simpl; [|by apply IH].
    intros [(rev & t1 & t2 & H1 & H2 & ->)|(o1 & H1 & H2)]%paths_mbind.
    + eapply IH; [|done]. apply Forall_app. split; [done|].
      repeat constructor. by eapply HP.
    + by destruct o1.
Qed.

End WithRuntime.
End AgreementFacts.

Import Js Command Trace DiscoverUpdates Paths DiscoveryFacts.

(** X25.  Discovery and the update script agree on the current revision.
    When both read the same lock document, and the entry of an input holds a
    revision (a non-empty string under [locked.rev]), every item that
    [discoverFlakeInputs] returns for that input carries the first eight
    characters of the revision as its current version, and
    [readFlakeInputRev] returns the same text. *)
Theorem revisions_agree `{rt : Runtime}
    inputsFilter input text fields nodes rev t1 items t2 o :
  JSON_parse text = Some (JObj fields) ->
  fields !! "nodes" = Some (JObj nodes) ->
  UpdateItem.revisionOf nodes input = Some (Some rev) ->
  paths (discoverFlakeInputs inputsFilter) t1 (Returned items) ->
  In (EvRead "flake.lock" (inl text)) t1 ->
  paths (UpdateItem.readFlakeInputRev input) t2 o ->
  In (EvRead "flake.lock" (inl text)) t2 ->
  o = Returned (take 8 rev)
  /\ Forall (fun item => name item = input ->
                         current_version item = JStr (take 8 rev)) items.
Proof.
  intros Hparse Hnodes Hrev H1 Hin1 H2 Hin2. split.
  - apply readFlakeInputRev_paths in H2 as (r & -> & H2).
    destruct Hin2 as [E|[]]. injection E as ->.
    unfold UpdateItem.lockRevision in H2. by rewrite Hparse, Hnodes, Hrev in H2.
  - revert H1. unfold discoverFlakeInputs. cbn.
    intros (t0 & -> & r & t3 & -> & H).
    destruct r as [|msg|msg]; cbn in H.
    2,3: destruct H as (t' & -> & -> & _);
      destruct Hin1 as [|[|[|[]]]]; discriminate.
    destruct H as (content' & t4 & -> & H).
    destruct content' as [text'|msg]; cbn in H; [|by destruct H].
    unfold jsonParse in H.
    destruct (JSON_parse text') as [lockData|] eqn:Hparse'; cbn in H;
      [|by destruct H].
    assert (text' = text) as ->.
    { assert (Ht4 : t4 = []).
      { destruct (filterNames inputsFilter) as [names|].
        - by apply collectInputs_paths in H as [-> _].
        - destruct (ownKeys _); [by apply collectInputs_paths in H as [-> _]|].
          by destruct H as [-> _]. }
      subst t4. destruct Hin1 as [|[|[Hin|[]]]]; try discriminate.
      by injection Hin. }
    rewrite Hparse in Hparse'. injection Hparse' as <-.
    unfold lockNodes in H. cbn [getProp] in H. rewrite Hnodes in H.
    assert (HP : forall n v t',
              paths (lockedRev (member (JObj nodes) n)) t' (Returned v) ->
              (fun item => name item = input ->
                           current_version item = JStr (take 8 rev))
                {| type := flake_input; name := n; current_version := v |}).
    { intros n v t' Hl. simpl. intros ->.
      by eapply AgreementFacts.lockedRev_revisionOf. }
    destruct (filterNames inputsFilter) as [names|].
    + by eapply AgreementFacts.collectInputs_revs in H.
    + destruct (ownKeys _); [|by destruct H].
      by eapply AgreementFacts.collectInputs_revs in H.
Qed.

Lemma revisions_agree_witness :
  let rt := DecimalRuntime.runtime [Worlds.lockDocument] in
  let r1 := run Worlds.lockWorld (discoverFlakeInputs None) tt in
  let r2 := run Worlds.lockWorld (UpdateItem.readFlakeInputRev "nixpkgs") tt in
  let items := match outcome r1 with Returned items => items | _ => [] end in
  outcome r2 = Returned (take 8 "50ab793786d9de88ee30ec4e4c24fb4236fc2674")
  /\ Forall (fun item => name item = "nixpkgs" ->
                         current_version item
                         = JStr (take 8 "50ab793786d9de88ee30ec4e4c24fb4236fc2674"))
            items.
Proof.
  intros rt r1 r2 items.
  refine (revisions_agree (rt := rt) None "nixpkgs"
            (DecimalRuntime.stringify Worlds.lockDocument)
            {[ "nodes" :=
                 JObj (<["flake-utils" :=
                           Worlds.lockedNode "11707dc2f618dd54ca8739b309ec4fc024de578b"]>
                       (<["nixpkgs" :=
                            Worlds.lockedNode "50ab793786d9de88ee30ec4e4c24fb4236fc2674"]>
                        (<["root" := JObj ∅]> ∅))) ]}
            _ "50ab793786d9de88ee30ec4e4c24fb4236fc2674"
            (trace r1) items (trace r2) (outcome r2) _ _ _ _ _ (run_paths _ _ _) _).
  - vm_compute. reflexivity.
  - reflexivity.
  - vm_compute. reflexivity.
  - assert (E : outcome r1 = Returned items) by (vm_compute; reflexivity).
    rewrite <- E. apply run_paths.
  - apply (nth_error_In _ 2). vm_compute. reflexivity.
  - left. vm_compute. reflexivity.
Defined.

(** Names and documents at the edge of the member read [nodes[inputName]]:
    a filtered name that the document does not hold but every object
    inherits gives an item with the revision ["unknown"]; a document whose
    [nodes] is a string gives one such item for each of its index names. *)
Example discovery_of_inherited_name :
  let rt := DecimalRuntime.runtime [Worlds.lockDocument] in
  outcome (run Worlds.lockWorld (discoverFlakeInputs (Some "constructor")) tt)
  = Returned [{| type := flake_input; name := "constructor";
                 current_version := JStr "unknown" |}].
Proof. vm_compute. reflexivity. Qed.

Example discovery_of_string_nodes :
  let document := JObj {[ "nodes" := JStr "ab" ]} in
  let rt := DecimalRuntime.runtime [document] in
  let world :=
    Worlds.fixedWorld Worlds.failed (fun _ => 1)
      (fun path => if String.eqb path "flake.lock"
                   then Some (DecimalRuntime.stringify document) else None) in
  outcome (run world (discoverFlakeInputs None) tt)
  = Returned [{| type := flake_input; name := "0";
                 current_version := JStr "unknown" |};
              {| type := flake_input; name := "1";
                 current_version := JStr "unknown" |}].
Proof. vm_compute. reflexivity. Qed.

(** * The branch of an item *)

Module BranchFacts.
Import Js Command Trace Discipline UpdateItem Paths UpdateFacts ScriptFacts
       TreeFacts OrderFacts.

(** Closes [targets] goals over concrete commands. *)
Ltac targets_tac :=
  unfold targets; cbn [commandOf command args app];
  repeat split; intros;
  first [ discriminate
        | reflexivity
        | by eexists _, _, _ ].

(** Every call of the Committed and Published states. *)
Ltac branch_tac :=
  repeat first
    [ progress cbn [safe bind tryCatch]
    | progress unfold mbind, prog_bind, mret, prog_ret
    | progress unfold_helpers
    | progress unfold consoleLog, consoleError, exit
    | match goal with
      | |- safe _ (if ?b then _ else _) => destruct b
      | |- safe _ (match ?x with _ => _ end) => destruct x
      | |- safe _ (bind (if ?b then _ else _) _) => destruct b
      | |- safe _ (bind (match ?x with _ => _ end) _) => destruct x
      | |- safe _ ?p =>
          match p with
          | context [if ?b then _ else _] => destruct b
          end
      | |- targets _ _ => targets_tac
      | |- _ /\ _ => split
      | |- forall _, _ => intro
      | |- True => exact I
      end ].

Section WithRuntime.
Context `{rt : Runtime}.

Lemma prelude_targets b e : prelude e -> targets b e.
Proof.
  intros [H _]. unfold commitsOrPublishes, isGh, gitSubcommand in H.
  unfold targets. destruct (commandOf e) as [[cmd arguments]|]; [|done].
  apply orb_false_iff in H as [Hgh Hgit].
  repeat split; intros -> Ha; try discriminate Hgh.
  - destruct arguments as [|sub rest]; [done|]. injection Ha as ->.
    cbn in Hgit. by rewrite bool_decide_eq_true_2 in Hgit by set_solver.
  - destruct arguments as [|sub rest]; [done|]. injection Ha as ->.
    cbn in Hgit. by rewrite bool_decide_eq_true_2 in Hgit by set_solver.
Qed.

Lemma targets_ghPrNumberForBranch b env :
  safe (targets b) (ghPrNumberForBranch b env).
Proof.
  unfold ghPrNumberForBranch, jsonParse, assertArray, assertRecord.
  unfold_helpers. branch_tac.
Qed.

Lemma targets_publish b prTitle prBody prLabels autoMerge env :
  safe (targets b) (publish b prTitle prBody prLabels autoMerge env).
Proof.
  unfold publish. unfold mbind, prog_bind.
  apply safe_bind; [apply targets_ghPrNumberForBranch|]. intros [number|].
  - unfold_helpers. branch_tac.
  - unfold_helpers. cbn [bind safe app]. split; [branch_tac|].
    intros r. split; [branch_tac|]. destruct (negb _); [done|]. cbn [bind].
    apply safe_bind; [apply targets_ghPrNumberForBranch|]. intros [number|].
    + branch_tac.
    + done.
Qed.

Lemma targets_commitAndPublish type name cur newVersion prLabels autoMerge env :
  safe (targets (branch type name))
    (commitAndPublish type name cur newVersion prLabels autoMerge env).
Proof.
  unfold commitAndPublish. unfold mbind, prog_bind. unfold_helpers.
  cbn [safe]. do 4 (split; [branch_tac|]).
  intros r. split; [branch_tac|]. destruct (negb _); [done|]. cbn [bind].
  destruct type; cbn [bind safe]; intros c; (split; [branch_tac|]);
    (destruct (negb _); cbn [bind safe]; [done|]);
    intros staged; (split; [branch_tac|]);
    (destruct (staged =? 0); [branch_tac|]);
    cbn [bind safe]; intros c'; (split; [branch_tac|]);
    (destruct (negb _); [done|]); cbn [bind safe];
    intros p; (split; [branch_tac|]); (destruct (negb _); [done|]); cbn [bind];
    apply targets_publish.
Qed.

(** Every call of a run for an item carries the branch of the item. *)
Lemma script_targets argv processEnv type name cur t o :
  namesItem argv type name cur ->
  paths (script argv processEnv) t o ->
  Forall (targets (branch type name)) t.
Proof.
  intros Hitem Hp.
  assert (Hmain : forall t' o', paths (main argv processEnv) t' o' ->
            Forall (targets (branch type name)) t').
  { intros t' o' H.
    destruct (main_leads argv processEnv t' o' H)
      as [Hpre|(t1 & t2 & -> & Hpre & ty & n & c & nv & Hn & Hs)].
    - eapply Forall_impl; [done|]. apply prelude_targets.
    - destruct (namesItem_unique _ _ _ _ _ _ _ Hitem Hn) as (-> & -> & ->).
      apply Forall_app. split.
      { eapply Forall_impl; [done|]. apply prelude_targets. }
      apply scopeCheckAndPublish_paths in Hs
        as (c1 & changed & c2 & untracked & t' & -> & [Hc1 Ha1] & [Hc2 Ha2] & H').
      constructor.
      { unfold targets. cbn. rewrite Hc1, Ha1. repeat split; intros; discriminate. }
      constructor.
      { unfold targets. cbn. rewrite Hc2, Ha2. repeat split; intros; discriminate. }
      destruct H' as [(_ & _ & ->)|[(f & _ & _ & _ & ->)|(_ & t'' & -> & H')]].
      + by repeat constructor.
      + by repeat constructor.
      + apply Forall_app. split; [by repeat constructor|].
        eapply safe_paths; [apply targets_commitAndPublish|done]. }
  apply script_paths in Hp as [[Hp _]|(msg & t1 & Hp & -> & _)].
  - by eapply Hmain.
  - apply Forall_app. split; [by eapply Hmain | by repeat constructor].
Qed.

Lemma until_switched type name cur newVersion prLabels autoMerge env :
  until (exactly "git" ["switch"; "-C"; branch type name])
    (fun e => gitSubcommand e = Some "commit")
    (commitAndPublish type name cur newVersion prLabels autoMerge env)
    (fun _ => True).
Proof.
  unfold commitAndPublish. unfold_helpers. until_tac.
Qed.

Lemma until_pushed type name cur newVersion prLabels autoMerge env :
  until (exactly "git" ["push"; "--force"; "--set-upstream"; "origin";
                        branch type name])
    (fun e => isGh e = true)
    (commitAndPublish type name cur newVersion prLabels autoMerge env)
    (fun _ => True).
Proof.
  unfold commitAndPublish. unfold_helpers. until_tac.
Qed.

End WithRuntime.
End BranchFacts.

Import Js Command Trace Discipline UpdateItem Paths UpdateFacts ScriptFacts
       TreeFacts OrderFacts BranchFacts.

(** C1, amended.  The branch of an item is [update/<name>] for a package and
    [update/flake-input/<name>] for a pinned reference, whatever the current
    version, the environment and the answers of the tools are.  On every
    path of the script for the item, each call that carries a branch carries
    this one: every [git switch] is [git switch -C] to it, every [git push]
    is [git push --force --set-upstream origin] of it, every [gh pr list]
    asks for this head and every [gh pr create] opens the proposal from this
    head.  And the run commits to it and publishes under it: [git commit]
    is run only after the switch to this branch has succeeded, and [gh] only
    after the push of this branch has succeeded. *)
Theorem branch_is_determined `{rt : Runtime} argv processEnv type name cur
    t o t1 e t2 :
  namesItem argv type name cur ->
  paths (script argv processEnv) t o ->
  t = t1 ++ e :: t2 ->
  let b := match type with
           | package => "update/" +:+ name
           | flake_input => "update/flake-input/" +:+ name
           end in
  targets b e
  /\ (gitSubcommand e = Some "commit" ->
      succeeded (exactly "git" ["switch"; "-C"; b]) t1)
  /\ (isGh e = true ->
      succeeded (exactly "git" ["push"; "--force"; "--set-upstream"; "origin"; b])
                t1).
Proof.
  intros Hitem Hp Ht b.
  assert (Hb : b = branch type name) by (by destruct type).
  rewrite Hb. clear b Hb. repeat split.
  - pose proof (script_targets _ _ _ _ _ _ _ Hitem Hp) as Hall.
    rewrite Forall_forall in Hall. apply Hall. subst t.
    apply list_elem_of_In, in_or_app. right. by left.
  - intros He.
    eapply (script_commit_until _ (fun e => gitSubcommand e = Some "commit"));
      [done| |intros; apply until_switched|done..].
    intros e' H. unfold commitsOrPublishes. rewrite H.
    rewrite bool_decide_eq_true_2 by set_solver. apply orb_true_r.
  - intros He.
    eapply (script_commit_until _ (fun e => isGh e = true));
      [done| |intros; apply until_pushed|done..].
    intros e' H. unfold commitsOrPublishes. by rewrite H.
Qed.

Lemma branch_is_determined_witness :
  let rt := DecimalRuntime.runtime [JArr []] in
  let r := run (Worlds.checkout ("packages/foo/package.nix" +:+ Worlds.nl) "" None)
               (script ["package"; "foo"; "1.2.0"] Worlds.token) tt in
  targets "update/foo" (nth 39 (trace r) (EvLog Out ""))
  /\ isGh (nth 39 (trace r) (EvLog Out "")) = true
  /\ succeeded (exactly "git" ["push"; "--force"; "--set-upstream"; "origin";
                               "update/foo"])
               (firstn 39 (trace r)).
Proof.
  intros rt r.
  assert (Hitem : namesItem ["package"; "foo"; "1.2.0"] package "foo" "1.2.0")
    by (repeat split).
  assert (Ht : trace r = firstn 39 (trace r)
                         ++ nth 39 (trace r) (EvLog Out "") :: skipn 40 (trace r))
    by (vm_compute; reflexivity).
  destruct (branch_is_determined (rt := rt) ["package"; "foo"; "1.2.0"] Worlds.token
              package "foo" "1.2.0" (trace r) (outcome r) _ _ _
              Hitem (run_paths _ _ _) Ht) as (H1 & _ & H3).
  split; [exact H1|]. split; [reflexivity|]. apply H3. reflexivity.
Defined.

(** * The VersionResolved state *)

Module ResolveFacts.
Import Js Command Trace Discipline UpdateItem Paths UpdateFacts ScriptFacts.


Section WithRuntime.
Context `{rt : Runtime}.




Section ForInput.
Variable input : string.















End ForInput.
End WithRuntime.
End ResolveFacts.

Import Js Command Trace Discipline UpdateItem Paths UpdateFacts ScriptFacts
       ResolveFacts.



(** A name that the lock document does not hold but every object inherits:
    [constructor] reads as a function and ends the step, [__proto__] reads
    as the prototype object and gives ["unknown"]. *)
Example version_of_inherited_name :
  let rt := DecimalRuntime.runtime [Worlds.lockDocument] in
  outcome (run Worlds.lockWorld
             (resolveNewVersion flake_input "constructor" "x86_64-linux" ∅) tt)
  = Thrown "flake.lock.nodes.constructor: expected object: expected object"
  /\ outcome (run Worlds.lockWorld
                (resolveNewVersion flake_input "__proto__" "x86_64-linux" ∅) tt)
     = Returned "unknown".
Proof. split; vm_compute; reflexivity. Qed.

Import Js Command Trace UpdateItem Text Paths UpdateFacts ScriptFacts.

(** * Publishing twice *)

(** C6.  At most one open proposal per branch, and publishing twice: from
    proposals with distinct numbers and at most one per branch, every run of
    the script, however it ends, leaves proposals of that kind; and when the
    script is run twice for the same item and the second run pushes and
    returns, exactly one proposal is open for the branch of the item.  It
    has the title and the body that the second run computed (the title
    being the message of its commit) and carries every label of the second
    run: each label of a comma-separated [PR_LABELS].  A proposal that was
    open for the branch before the second run is edited in place: it is
    this proposal, under its number and with the labels it had, and the
    second run opens no other proposal. *)
Theorem publish_is_idempotent `{rt : Runtime} argv env1 env2 type name cur
    store t1 o1 t2 o2 :
  namesItem argv type name cur ->
  GitHub.orderly store ->
  paths (script argv env1) t1 o1 -> GitHub.consistent store t1 ->
  paths (script argv env2) t2 o2 ->
  GitHub.consistent (GitHub.after store t1) t2 ->
  GitHub.orderly (GitHub.after store t1)
  /\ GitHub.orderly (GitHub.after (GitHub.after store t1) t2)
  /\ (o2 = Returned tt -> GitHub.pushed t2 ->
      exists newVersion p,
        GitHub.openFor (branch type name)
          (GitHub.after (GitHub.after store t1) t2) = [p]
        /\ GitHub.title p = prTitle type name cur newVersion
        /\ GitHub.body p = prBody type name cur newVersion
        /\ GitHub.committed t2 (prTitle type name cur newVersion)
        /\ (forall labels,
              Forall (fun l => trimmed l /\ ~ occurs "," l) labels ->
              getEnv env2 "PR_LABELS" "dependencies,automated" = join "," labels ->
              Forall (fun l => l ∈ GitHub.labels p) labels)
        /\ (forall q,
              GitHub.openFor (branch type name) (GitHub.after store t1) = [q] ->
              GitHub.number p = GitHub.number q
              /\ Forall (fun l => l ∈ GitHub.labels p) (GitHub.labels q)
              /\ map GitHub.number (GitHub.after (GitHub.after store t1) t2)
                 = map GitHub.number (GitHub.after store t1))).
Proof.
  intros Hitem Hord Hp1 Hc1 Hp2 Hc2.
  destruct (StoreFacts.run_store argv env1 type name cur store t1 o1
              Hitem Hord Hp1 Hc1) as [Hord1 _].
  split; [done|].
  destruct (StoreFacts.run_store argv env2 type name cur _ t2 o2 Hitem Hord1 Hp2 Hc2)
    as [Hord2 H]. split; [done|]. intros Ho Hpush.
  destruct (H Ho Hpush) as (newVersion & p & Hopen & Ht & Hb & Hc & Hl & Hq).
  exists newVersion, p. do 4 (split; [done|]). split; [|done].
  intros labels Hls E. rewrite E in Hl.
  by rewrite (TextFacts.splitLabels_join labels Hls) in Hl.
Qed.

Lemma publish_is_idempotent_witness :
  let rt := DecimalRuntime.runtime [JArr []; JArr [GitHub.numberObject 1]] in
  let changed := "packages/foo/package.nix" +:+ Worlds.nl in
  let argv := ["package"; "foo"; "1.2.0"] in
  let env2 : gmap string string := <["PR_LABELS" := "bot,weekly"]> Worlds.token in
  let r1 := run (Worlds.hub changed "1.3.0") (script argv Worlds.token) [] in
  let r2 := run (Worlds.hub changed "1.4.0") (script argv env2) (final r1) in
  let store := GitHub.after (GitHub.after [] (trace r1)) (trace r2) in
  GitHub.orderly (GitHub.after [] (trace r1))
  /\ GitHub.orderly store
  /\ exists newVersion p,
       GitHub.openFor "update/foo" store = [p]
       /\ GitHub.title p = prTitle package "foo" "1.2.0" newVersion
       /\ GitHub.body p = prBody package "foo" "1.2.0" newVersion
       /\ GitHub.committed (trace r2) (prTitle package "foo" "1.2.0" newVersion)
       /\ Forall (fun l => l ∈ GitHub.labels p) ["bot"; "weekly"]
       /\ GitHub.number p = 1
       /\ Forall (fun l => l ∈ GitHub.labels p) ["dependencies"; "automated"]
       /\ map GitHub.number store = [1].
Proof.
  intros rt changed argv env2 r1 r2 store.
  assert (Hitem : namesItem argv package "foo" "1.2.0") by repeat split.
  assert (Hord : GitHub.orderly []).
  { split; [constructor | intros b; simpl; lia]. }
  assert (Hc1 : GitHub.consistent [] (trace r1)).
  { vm_compute. repeat split. }
  assert (Hc2 : GitHub.consistent (GitHub.after [] (trace r1)) (trace r2)).
  { vm_compute. repeat split. }
  destruct (publish_is_idempotent (rt := rt) argv Worlds.token env2
              package "foo" "1.2.0" [] (trace r1) (outcome r1)
              (trace r2) (outcome r2) Hitem Hord (run_paths _ _ _) Hc1
              (run_paths _ _ _) Hc2) as (H1 & H2 & H3).
  split; [exact H1|]. split; [exact H2|].
  destruct H3 as (newVersion & p & Hopen & Ht & Hb & Hc & Hl & Hq).
  - reflexivity.
  - exists (EvSpawn {| command := "git";
                       args := ["push"; "--force"; "--set-upstream"; "origin";
                                "update/foo"];
                       cmd_env := Some (<["NIX_PATH" := "nixpkgs=flake:nixpkgs"]>
                                          env2) |} 0).
    split; [|reflexivity]. apply (nth_error_In _ 36). vm_compute. reflexivity.
  - exists newVersion, p. do 4 (split; [done|]). split.
    { apply Hl; [|reflexivity].
      repeat constructor; unfold occurs; simpl; intros H;
        repeat (destruct H as [H|H]; [discriminate|]); done. }
    destruct (Hq {| GitHub.number := 1; GitHub.head := "update/foo";
                    GitHub.title := prTitle package "foo" "1.2.0" "1.3.0";
                    GitHub.body := prBody package "foo" "1.2.0" "1.3.0";
                    GitHub.labels := ["dependencies"; "automated"] |})
      as (Hn & Hls & Hm).
    { vm_compute. reflexivity. }
    split; [exact Hn|]. split; [exact Hls|].
    etrans; [exact Hm|]. vm_compute. reflexivity.
Defined.
